(** * Kainos header suite: the step routines and the session lifecycle

    A shallow embedding of [features/step_definitions/header.steps.ts],
    [features/support/hooks.ts], [features/support/world.ts], [cucumber.js]
    and the feature text they run, together with the properties the
    specification states about them.

    The browser automation driver and the scenario runner are libraries the
    suite calls; the driver is a record of operations ([Playwright.Driver])
    that every theorem quantifies over, and [Sim] is one small instance of
    it, a page that does not change by itself, used to run the routines on
    concrete pages. *)

From Stdlib Require Import String Ascii NArith DecimalString Bool Lia.
From stdpp Require Import base strings gmap list.

Local Open Scope string_scope.
Local Open Scope list_scope.

(** ** The pieces of the JavaScript runtime the suite relies on

    A [string] stands for a JavaScript string whose code units are all
    below 256: each [ascii] is one code unit. *)
Module JS.

(** [String.prototype.includes]; on strings, [expect(s).toContain(sub)]
    passes exactly when [s.includes(sub)]. *)
Fixpoint includes (sub s : string) : bool :=
  String.prefix sub s
  || match s with
     | EmptyString => false
     | String _ s' => includes sub s'
     end.

(** The class [\s] on code units below 256: TAB, LF, VT, FF, CR, SPACE
    and NO-BREAK SPACE. *)
Definition is_white_space (c : ascii) : bool :=
  let n := N_of_ascii c in
  ((9 <=? n) && (n <=? 13) || (n =? 32) || (n =? 160))%N.

(** [s.replace(/\s+/g, r)]: every maximal run of white space becomes one
    copy of [r]. [in_run] tells that the previous code unit was white
    space. *)
Fixpoint replace_ws_from (in_run : bool) (r s : string) : string :=
  match s with
  | EmptyString => EmptyString
  | String c s' =>
      if is_white_space c
      then (if in_run then replace_ws_from true r s'
            else r +:+ replace_ws_from true r s')
      else String c (replace_ws_from false r s')
  end.

Definition replace_ws_runs (r s : string) : string := replace_ws_from false r s.

(** Every code unit of [s] satisfies [f]. *)
Fixpoint all_chars (f : ascii -> bool) (s : string) : bool :=
  match s with
  | EmptyString => true
  | String c s' => f c && all_chars f s'
  end.

Definition no_white_space (s : string) : bool :=
  all_chars (fun c => negb (is_white_space c)) s.

(** A non-negative integer inside a template literal: its decimal digits. *)
Definition number_to_string (n : N) : string :=
  NilZero.string_of_uint (N.to_uint n).

(** Upper case of an ASCII letter, every other code unit unchanged. *)
Definition ascii_upper (c : ascii) : ascii :=
  let n := N_of_ascii c in
  if ((97 <=? n) && (n <=? 122))%N then ascii_of_N (n - 32) else c.

Definition is_ascii (c : ascii) : bool := (N_of_ascii c <? 128)%N.

(** Case-insensitive variants, for the ASCII letters. *)
Fixpoint prefix_ci (p s : string) : bool :=
  match p, s with
  | EmptyString, _ => true
  | String a p', String b s' =>
      Ascii.eqb (ascii_upper a) (ascii_upper b) && prefix_ci p' s'
  | String _ _, EmptyString => false
  end.

Fixpoint includes_ci (sub s : string) : bool :=
  prefix_ci sub s
  || match s with
     | EmptyString => false
     | String _ s' => includes_ci sub s'
     end.

End JS.

(** ** [new RegExp(source, flags)] and [RegExp.prototype.test]

    The ECMAScript semantics on a fragment of the pattern language:
    ASCII pattern characters, [.], identity escapes of syntax characters
    and the quantifiers [*], [+], [?] (greedy or lazy) on one atom.
    A pattern outside the fragment is reported as [Unsupported], never
    given a made-up meaning. Whether the constructor accepts a source at
    all is decided for the whole grammar, by [well_formed]. *)
Module RegExp.

Inductive Atom : Type :=
| Lit (c : ascii)          (* a pattern character or an identity escape *)
| AnyChar.                 (* [.] *)

Inductive Quant : Type := Once | Star | Plus | Opt.

Definition Term : Type := (Atom * Quant)%type.

Record t : Type := mk { terms : list Term; ignore_case : bool }.

Inductive Compiled : Type :=
| Parsed (r : t)
| SyntaxError              (* the constructor throws *)
| Unsupported.             (* outside the fragment modelled here *)

(** The escape character, code unit 92. *)
Definition backslash : ascii := Eval cbv in ascii_of_N 92.

(** SyntaxCharacter of the grammar. *)
Definition is_syntax_char (c : ascii) : bool :=
  existsb (Ascii.eqb c)
    [backslash; "^"; "$"; "."; "*"; "+"; "?"; "("; ")"; "["; "]"; "{"; "}"; "|"]%char.

Inductive ParseState : Type :=
| Start                    (* no atom to quantify *)
| AfterAtom                (* the last term is an atom without quantifier *)
| AfterQuant               (* the last term has a greedy quantifier *)
| AfterLazy.               (* ... followed by the lazy mark [?] *)

Definition set_quant (q : Quant) (acc : list Term) : list Term :=
  match acc with
  | (a, _) :: rest => (a, q) :: rest
  | [] => []
  end.

(** [acc] holds the terms read so far, last one first. *)
Fixpoint parse_from (st : ParseState) (acc : list Term) (s : string)
  : option (option (list Term)) :=
  match s with
  | EmptyString => Some (Some (rev acc))
  | String c s' =>
      if Ascii.eqb c backslash then
        match s' with
        | EmptyString => Some None                     (* escape at end of pattern *)
        | String e s'' =>
            if is_syntax_char e || Ascii.eqb e "/"
            then parse_from AfterAtom ((Lit e, Once) :: acc) s''
            else None
        end
      else if Ascii.eqb c "." then parse_from AfterAtom ((AnyChar, Once) :: acc) s'
      else if Ascii.eqb c "*" then
        match st with
        | AfterAtom => parse_from AfterQuant (set_quant Star acc) s'
        | _ => Some None                               (* nothing to repeat *)
        end
      else if Ascii.eqb c "+" then
        match st with
        | AfterAtom => parse_from AfterQuant (set_quant Plus acc) s'
        | _ => Some None
        end
      else if Ascii.eqb c "?" then
        match st with
        | AfterAtom => parse_from AfterQuant (set_quant Opt acc) s'
        | AfterQuant => parse_from AfterLazy acc s'
        | _ => Some None
        end
      else if is_syntax_char c then None
      else if JS.is_ascii c then parse_from AfterAtom ((Lit c, Once) :: acc) s'
      else None
  end.

(** A pattern character that stands for itself. *)
Definition is_plain (c : ascii) : bool := negb (is_syntax_char c) && JS.is_ascii c.

(** The terms of a pattern made of plain characters only. *)
Fixpoint literal_terms (s : string) : list Term :=
  match s with
  | EmptyString => []
  | String c s' => (Lit c, Once) :: literal_terms s'
  end.

Definition compile (source flags : string) : Compiled :=
  let ic :=
    if String.eqb flags "i" then Some true
    else if String.eqb flags EmptyString then Some false
    else None in
  match ic, parse_from Start [] source with
  | Some b, Some (Some ts) => Parsed (mk ts b)
  | _, Some None => SyntaxError
  | _, _ => Unsupported
  end.

Definition is_line_terminator (c : ascii) : bool :=
  let n := N_of_ascii c in ((n =? 10) || (n =? 13))%N.

(** Canonicalize of the specification for a pattern without the [u]
    flag: a code unit of 128 or more never canonicalises to an ASCII
    one, so against an ASCII pattern character only ASCII letters fold. *)
Definition atom_matches (ic : bool) (a : Atom) (u : ascii) : bool :=
  match a with
  | Lit c =>
      if ic then Ascii.eqb (JS.ascii_upper c) (JS.ascii_upper u)
      else Ascii.eqb c u
  | AnyChar => negb (is_line_terminator u)
  end.

(** Does the pattern match a prefix of [s]? All the ways to split the
    input among the terms are tried, so greedy and lazy quantifiers
    accept the same inputs. *)
Fixpoint match_here (ic : bool) (p : list Term) (s : string) {struct p} : bool :=
  match p with
  | [] => true
  | (a, q) :: p' =>
      let star :=
        fix star (s : string) : bool :=
          match_here ic p' s
          || match s with
             | EmptyString => false
             | String u s' => atom_matches ic a u && star s'
             end in
      match q with
      | Once =>
          match s with
          | EmptyString => false
          | String u s' => atom_matches ic a u && match_here ic p' s'
          end
      | Opt =>
          match_here ic p' s
          || match s with
             | EmptyString => false
             | String u s' => atom_matches ic a u && match_here ic p' s'
             end
      | Star => star s
      | Plus =>
          match s with
          | EmptyString => false
          | String u s' => atom_matches ic a u && star s'
          end
      end
  end.

(** [re.test(s)] for a pattern without anchors: a match may start at any
    position. *)
Fixpoint search (ic : bool) (p : list Term) (s : string) : bool :=
  match_here ic p s
  || match s with
     | EmptyString => false
     | String _ s' => search ic p s'
     end.

Definition test (r : t) (s : string) : bool := search (ignore_case r) (terms r) s.

(** *** The fragment, stated without the parser and the matcher

    What the grammar and the semantics of the specification say of the
    fragment, as relations: which source texts give which terms, and
    which strings a sequence of terms matches from end to end. *)

(** [u] is the upper-case form of the lower-case ASCII letter [c]. *)
Definition upper_of (c u : ascii) : Prop :=
  (97 <= N_of_ascii c)%N /\ (N_of_ascii c <= 122)%N
  /\ (N_of_ascii u + 32 = N_of_ascii c)%N.

(** The code units an atom accepts; with [ic], a letter in either case. *)
Inductive Accepts (ic : bool) : Atom -> ascii -> Prop :=
| accepts_same c : Accepts ic (Lit c) c
| accepts_upper c u : ic = true -> upper_of c u -> Accepts ic (Lit c) u
| accepts_lower c u : ic = true -> upper_of u c -> Accepts ic (Lit c) u
| accepts_any u :
    N_of_ascii u <> 10%N -> N_of_ascii u <> 13%N -> Accepts ic AnyChar u.

Inductive Lang (ic : bool) : list Term -> string -> Prop :=
| lang_end : Lang ic [] EmptyString
| lang_once a p u m :
    Accepts ic a u -> Lang ic p m -> Lang ic ((a, Once) :: p) (String u m)
| lang_opt_none a p m :
    Lang ic p m -> Lang ic ((a, Opt) :: p) m
| lang_opt_one a p u m :
    Accepts ic a u -> Lang ic p m -> Lang ic ((a, Opt) :: p) (String u m)
| lang_star_none a p m :
    Lang ic p m -> Lang ic ((a, Star) :: p) m
| lang_star_more a p u m :
    Accepts ic a u -> Lang ic ((a, Star) :: p) m ->
    Lang ic ((a, Star) :: p) (String u m)
| lang_plus a p u m :
    Accepts ic a u -> Lang ic ((a, Star) :: p) m ->
    Lang ic ((a, Plus) :: p) (String u m).

(** The source text of an atom: a plain character, the dot, or the
    escape of a syntax character or of the slash. *)
Inductive AtomSource : string -> Atom -> Prop :=
| source_char c :
    is_plain c = true -> AtomSource (String c EmptyString) (Lit c)
| source_dot : AtomSource "." AnyChar
| source_escape e :
    is_syntax_char e = true \/ e = "/"%char ->
    AtomSource (String backslash (String e EmptyString)) (Lit e).

(** The source text of a quantifier, greedy or lazy, or of none. *)
Inductive QuantSource : string -> Quant -> Prop :=
| source_once : QuantSource EmptyString Once
| source_star : QuantSource "*" Star
| source_star_lazy : QuantSource "*?" Star
| source_plus : QuantSource "+" Plus
| source_plus_lazy : QuantSource "+?" Plus
| source_opt : QuantSource "?" Opt
| source_opt_lazy : QuantSource "??" Opt.

Inductive Parses : string -> list Term -> Prop :=
| parses_end : Parses EmptyString []
| parses_term sa a sq q rest ts :
    AtomSource sa a -> QuantSource sq q -> Parses rest ts ->
    Parses (sa +:+ sq +:+ rest) ((a, q) :: ts).

(** *** Which sources [new RegExp] accepts

    The whole pattern grammar, for flags without [u] and [v], as
    ECMAScript 2024 and its annex B give it: alternatives, groups,
    look-around, named groups and the references to them, classes and
    their escapes, braced quantifiers. Only whether the source is
    accepted is computed. A code point of 256 or more, which in a group
    name only an escape can write, is taken to be a letter. *)

Definition code (c : ascii) : N := N_of_ascii c.

Definition between (lo hi : N) (c : ascii) : bool :=
  ((lo <=? code c) && (code c <=? hi))%N.

Definition is_decimal_digit (c : ascii) : bool := between 48 57 c.
Definition is_octal_digit (c : ascii) : bool := between 48 55 c.
Definition is_letter (c : ascii) : bool := between 65 90 c || between 97 122 c.
Definition is_hex_digit (c : ascii) : bool :=
  is_decimal_digit c || between 65 70 c || between 97 102 c.

Definition hex_value (c : ascii) : N :=
  (if is_decimal_digit c then code c - 48
   else if between 65 70 c then code c - 55
   else code c - 87)%N.

(** The decimal digits at the head of [s], read after [acc]. *)
Fixpoint digits_from (acc : N) (s : string) : N * string :=
  match s with
  | String c s' =>
      if is_decimal_digit c then digits_from (10 * acc + (code c - 48))%N s'
      else (acc, s)
  | EmptyString => (acc, s)
  end.

(** DecimalDigits: one digit at least. *)
Definition read_number (s : string) : option (N * string) :=
  match s with
  | String c s' =>
      if is_decimal_digit c then Some (digits_from (code c - 48)%N s') else None
  | EmptyString => None
  end.

(** After an opening brace: the rest of a braced quantifier, when it is
    one, with what follows it and whether its bounds are in order. *)
Definition braced (s : string) : option (bool * string) :=
  match read_number s with
  | Some (n, String c r) =>
      if Ascii.eqb c "}" then Some (true, r)
      else if Ascii.eqb c "," then
        match r with
        | String d r' =>
            if Ascii.eqb d "}" then Some (true, r')
            else
              match read_number r with
              | Some (m, String e r'') =>
                  if Ascii.eqb e "}" then Some ((n <=? m)%N, r'') else None
              | _ => None
              end
        | EmptyString => None
        end
      else None
  | _ => None
  end.

(** Exactly [n] hexadecimal digits. *)
Fixpoint hex_digits (n : nat) (acc : N) (s : string) : option (N * string) :=
  match n with
  | O => Some (acc, s)
  | S n' =>
      match s with
      | String c s' =>
          if is_hex_digit c then hex_digits n' (16 * acc + hex_value c)%N s' else None
      | EmptyString => None
      end
  end.

(** The hexadecimal digits at the head of [s]. *)
Fixpoint hex_from (acc : N) (s : string) : N * string :=
  match s with
  | String c s' =>
      if is_hex_digit c then hex_from (16 * acc + hex_value c)%N s' else (acc, s)
  | EmptyString => (acc, s)
  end.

(** LegacyOctalEscapeSequence, after the backslash: at most three octal
    digits, of value 255 at most. *)
Definition octal (e : ascii) (r : string) : N * string :=
  let d := (code e - 48)%N in
  match r with
  | String e1 r1 =>
      if is_octal_digit e1 then
        let d1 := (8 * d + (code e1 - 48))%N in
        if (d <=? 3)%N then
          match r1 with
          | String e2 r2 =>
              if is_octal_digit e2 then ((8 * d1 + (code e2 - 48))%N, r2) else (d1, r1)
          | EmptyString => (d1, r1)
          end
        else (d1, r1)
      else (d, r)
  | EmptyString => (d, r)
  end.

(** ClassEscape, after the backslash and its first character [e]: the
    character value, none for a class such as [\d], and what follows.
    [named] tells that the pattern has named groups. *)
Definition class_escape (named : bool) (e : ascii) (r : string)
  : option (option N * string) :=
  if existsb (Ascii.eqb e) ["d"; "D"; "s"; "S"; "w"; "W"]%char then Some (None, r)
  else if Ascii.eqb e "b" then Some (Some 8%N, r)
  else if Ascii.eqb e "t" then Some (Some 9%N, r)
  else if Ascii.eqb e "n" then Some (Some 10%N, r)
  else if Ascii.eqb e "v" then Some (Some 11%N, r)
  else if Ascii.eqb e "f" then Some (Some 12%N, r)
  else if Ascii.eqb e "r" then Some (Some 13%N, r)
  else if Ascii.eqb e "c" then
    match r with
    | String l r' =>
        if is_letter l || is_decimal_digit l || Ascii.eqb l "_"
        then Some (Some (code l mod 32)%N, r')
        else Some (Some 92%N, String e r)            (* the backslash itself *)
    | EmptyString => Some (Some 92%N, String e r)
    end
  else if Ascii.eqb e "x" then
    match hex_digits 2 0 r with
    | Some (v, r') => Some (Some v, r')
    | None => Some (Some (code e), r)
    end
  else if Ascii.eqb e "u" then
    match hex_digits 4 0 r with
    | Some (v, r') => Some (Some v, r')
    | None => Some (Some (code e), r)
    end
  else if is_octal_digit e then
    let (v, r') := octal e r in Some (Some v, r')
  else if Ascii.eqb e "k" && named then None
  else Some (Some (code e), r).

(** ClassAtom at the head of a non-empty [s] that does not start with
    the closing bracket. *)
Definition class_atom (named : bool) (s : string) : option (option N * string) :=
  match s with
  | EmptyString => None
  | String c r =>
      if Ascii.eqb c backslash then
        match r with
        | String e r' => class_escape named e r'
        | EmptyString => None
        end
      else Some (Some (code c), r)
  end.

(** ClassContents and the closing bracket: what follows the class. A
    range between two characters must be in order. *)
Fixpoint class_body (fuel : nat) (named : bool) (s : string) : option string :=
  match fuel with
  | O => None
  | S fuel' =>
      match s with
      | EmptyString => None
      | String c r =>
          if Ascii.eqb c "]" then Some r
          else
            match class_atom named s with
            | None => None
            | Some (a, r1) =>
                match r1 with
                | String d r2 =>
                    if Ascii.eqb d "-" then
                      match r2 with
                      | EmptyString => None
                      | String c2 r3 =>
                          if Ascii.eqb c2 "]" then Some r3
                          else
                            match class_atom named r2 with
                            | None => None
                            | Some (b, r4) =>
                                match a, b with
                                | Some x, Some y =>
                                    if (y <? x)%N then None
                                    else class_body fuel' named r4
                                | _, _ => class_body fuel' named r4
                                end
                            end
                      end
                    else class_body fuel' named r1
                | EmptyString => None
                end
            end
      end
  end.

(** CharacterClass after its opening bracket. *)
Definition class_end (fuel : nat) (named : bool) (s : string) : option string :=
  match s with
  | String c r => if Ascii.eqb c "^" then class_body fuel named r else class_body fuel named s
  | EmptyString => None
  end.

(** ID_Start and ID_Continue, with [$] and [_], on code points below 256. *)
Definition is_id_start (v : N) : bool :=
  ((65 <=? v) && (v <=? 90) || (97 <=? v) && (v <=? 122) || (v =? 36) || (v =? 95)
   || (v =? 170) || (v =? 181) || (v =? 186)
   || (192 <=? v) && (v <=? 214) || (216 <=? v) && (v <=? 246) || (248 <=? v))%N.

Definition is_id_part (v : N) : bool :=
  (is_id_start v || (48 <=? v) && (v <=? 57) || (v =? 183))%N.

Definition is_lead_surrogate (v : N) : bool := ((55296 <=? v) && (v <=? 56319))%N.
Definition is_trail_surrogate (v : N) : bool := ((56320 <=? v) && (v <=? 57343))%N.

(** [\uXXXX] after the [\u]; a lead surrogate takes the trail surrogate
    that must follow it. *)
Definition unicode_escape (s : string) : option (N * string) :=
  match hex_digits 4 0 s with
  | Some (v, r) =>
      if is_lead_surrogate v then
        match r with
        | String b (String u r1) =>
            if Ascii.eqb b backslash && Ascii.eqb u "u" then
              match hex_digits 4 0 r1 with
              | Some (v', r2) =>
                  if is_trail_surrogate v'
                  then Some ((65536 + (v - 55296) * 1024 + (v' - 56320))%N, r2)
                  else None
              | None => None
              end
            else None
        | _ => None
        end
      else if is_trail_surrogate v then None
      else Some (v, r)
  | None => None
  end.

(** One character of a group name: itself, or a Unicode escape. *)
Definition name_char (s : string) : option (N * string) :=
  match s with
  | EmptyString => None
  | String c r =>
      if Ascii.eqb c backslash then
        match r with
        | String u (String b r2 as r1) =>
            if Ascii.eqb u "u" then
              if Ascii.eqb b "{" then
                match hex_from 0 r2 with
                | (v, String close r3) =>
                    if Ascii.eqb close "}" && negb (String.eqb r2 (String close r3))
                       && (v <=? 1114111)%N && negb (is_lead_surrogate v)
                       && negb (is_trail_surrogate v)
                    then Some (v, r3) else None
                | _ => None
                end
              else unicode_escape r1
            else None
        | _ => None
        end
      else Some (code c, r)
  end.

(** GroupName after its [<]: the name and what follows the [>]. *)
Fixpoint read_name (fuel : nat) (acc : list N) (s : string)
  : option (list N * string) :=
  match fuel with
  | O => None
  | S fuel' =>
      match s with
      | EmptyString => None
      | String c r =>
          if Ascii.eqb c ">" then
            match acc with
            | [] => None
            | _ => Some (rev acc, r)
            end
          else
            match name_char s with
            | Some (v, r') =>
                if match acc with
                   | [] => is_id_start v
                   | _ => is_id_part v
                   end
                then read_name fuel' (v :: acc) r'
                else None
            | None => None
            end
      end
  end.

Fixpoint same_name (a b : list N) : bool :=
  match a, b with
  | [], [] => true
  | x :: a', y :: b' => (x =? y)%N && same_name a' b'
  | _, _ => false
  end.

Definition has_name (n : list N) (names : list (list N)) : bool :=
  existsb (same_name n) names.

(** What a quantifier can follow. *)
Inductive Last : Type :=
| NoTerm                   (* nothing to repeat *)
| Quantifiable             (* an atom, or a group that can be repeated *)
| Quantified.              (* a quantifier, which the lazy mark may follow *)

(** Disjunction. [stack] holds, for each open group, whether it can be
    repeated once closed; [names] the group names met so far; [known],
    on the second reading of a pattern that has named groups, all of
    them. The result is the names met, when the source is accepted. *)
Fixpoint scan (fuel : nat) (known : option (list (list N))) (stack : list bool)
    (last : Last) (names : list (list N)) (s : string) : option (list (list N)) :=
  match fuel with
  | O => None
  | S fuel' =>
      let continue := scan fuel' known in
      match s with
      | EmptyString =>
          match stack with
          | [] => Some names
          | _ => None                                   (* unterminated group *)
          end
      | String c s' =>
          if Ascii.eqb c backslash then
            match s' with
            | EmptyString => None                       (* escape at end of pattern *)
            | String e s'' =>
                if Ascii.eqb e "b" || Ascii.eqb e "B" then continue stack NoTerm names s''
                else if Ascii.eqb e "k" then
                  match known with
                  | None => continue stack Quantifiable names s''
                  | Some all =>
                      match s'' with
                      | String lt s3 =>
                          if Ascii.eqb lt "<" then
                            match read_name fuel' [] s3 with
                            | Some (n, rest) =>
                                if has_name n all
                                then continue stack Quantifiable names rest
                                else None
                            | None => None
                            end
                          else None
                      | EmptyString => None
                      end
                  end
                else continue stack Quantifiable names s''
            end
          else if Ascii.eqb c "(" then
            match s' with
            | String q s2 =>
                if Ascii.eqb q "?" then
                  match s2 with
                  | String k s3 =>
                      if Ascii.eqb k ":" || Ascii.eqb k "=" || Ascii.eqb k "!"
                      then continue (true :: stack) NoTerm names s3
                      else if Ascii.eqb k "<" then
                        match s3 with
                        | String b s4 =>
                            if Ascii.eqb b "=" || Ascii.eqb b "!"
                            then continue (false :: stack) NoTerm names s4
                            else
                              match read_name fuel' [] s3 with
                              | Some (n, rest) =>
                                  if has_name n names then None
                                  else continue (true :: stack) NoTerm (n :: names) rest
                              | None => None
                              end
                        | EmptyString => None
                        end
                      else None                         (* invalid group *)
                  | EmptyString => None
                  end
                else continue (true :: stack) NoTerm names s'
            | EmptyString => None
            end
          else if Ascii.eqb c ")" then
            match stack with
            | q :: stack' =>
                continue stack' (if q : bool then Quantifiable else NoTerm) names s'
            | [] => None                                (* unmatched parenthesis *)
            end
          else if Ascii.eqb c "|" || Ascii.eqb c "^" || Ascii.eqb c "$"
          then continue stack NoTerm names s'
          else if Ascii.eqb c "*" || Ascii.eqb c "+" then
            match last with
            | Quantifiable => continue stack Quantified names s'
            | _ => None                                 (* nothing to repeat *)
            end
          else if Ascii.eqb c "?" then
            match last with
            | Quantifiable => continue stack Quantified names s'
            | Quantified => continue stack NoTerm names s'
            | NoTerm => None
            end
          else if Ascii.eqb c "{" then
            match braced s' with
            | Some (in_order, rest) =>
                match last with
                | Quantifiable =>
                    if in_order then continue stack Quantified names rest else None
                | _ => None
                end
            | None => continue stack Quantifiable names s'
            end
          else if Ascii.eqb c "[" then
            match class_end fuel' (match known with Some _ => true | None => false end) s' with
            | Some rest => continue stack Quantifiable names rest
            | None => None
            end
          else continue stack Quantifiable names s'
      end
  end.

(** The pattern is read once; when it has named groups it is read again
    with the stricter rules for [\k]. *)
Definition well_formed (source : string) : bool :=
  let fuel := S (String.length source) in
  match scan fuel None [] NoTerm [] source with
  | Some [] => true
  | Some names =>
      match scan fuel (Some names) [] NoTerm [] source with
      | Some _ => true
      | None => false
      end
  | None => false
  end.

Fixpoint occurs (c : ascii) (s : string) : nat :=
  match s with
  | EmptyString => 0
  | String c' s' => (if Ascii.eqb c c' then 1 else 0) + occurs c s'
  end.

(** The flags: letters of [dgimsuvy], none twice, not both [u] and [v]. *)
Definition valid_flags (flags : string) : bool :=
  forallb (fun c => Nat.leb (occurs c flags) 1) ["d"; "g"; "i"; "m"; "s"; "u"; "v"; "y"]%char
  && JS.all_chars
       (fun c => existsb (Ascii.eqb c) ["d"; "g"; "i"; "m"; "s"; "u"; "v"; "y"]%char) flags
  && negb (Nat.eqb (occurs "u" flags) 1 && Nat.eqb (occurs "v" flags) 1).

End RegExp.


(** ** The automation driver, as the suite sees it *)
Module Playwright.

Inductive Role : Type := Link | Button.

(** The [name] option of [getByRole]: a string, matched exactly or not,
    or a regular expression given by its source and flags. *)
Inductive NameSpec : Type :=
| NameText (s : string) (exact : bool)
| NameRegExp (source flags : string).

(** Locators are descriptions; building one asks the page nothing. *)
Inductive Locator : Type :=
| Css (selector : string)                          (* page.locator(sel) *)
| ByRole (r : Role) (name : option NameSpec)       (* page.getByRole(r, { name }) *)
| Within (outer inner : Locator).                  (* outer.getByRole(...) *)

(** What a rejected promise or a [throw] carries. *)
Inductive Error : Type :=
| TimeoutError
| AssertionError
| TypeError
| RegExpSyntaxError
| DriverError (msg : string).

Inductive Outcome (A : Type) : Type :=
| Ok (a : A)
| Throw (e : Error).
Arguments Ok {A} a.
Arguments Throw {A} e.

Definition Buffer : Type := list Byte.byte.

Record LaunchOptions : Type :=
  { headless : bool; slowMo : N }.

Record ContextOptions : Type :=
  { viewport_width : N; viewport_height : N; ignoreHTTPSErrors : bool }.

Record ScreenshotOptions : Type :=
  { path : string; fullPage : bool }.

(** The operations the suite calls. [U] is the state of everything on
    the driver's side (browser process, contexts, pages, the site);
    [B], [C] and [P] are the handles of a browser, a browsing context
    and a page. Queries and [expect] assertions read [U]; actions and
    waits may change it. *)
Record Driver (U B C P : Type) : Type := {
  (* chromium / Browser / BrowserContext *)
  launch : LaunchOptions -> U -> Outcome B * U;
  newContext : B -> ContextOptions -> U -> Outcome C * U;
  newPage : C -> U -> Outcome P * U;
  browserClose : B -> U -> Outcome unit * U;
  contextClose : C -> U -> Outcome unit * U;
  (* Page *)
  setDefaultTimeout : P -> N -> U -> U;
  goto : P -> string -> U -> Outcome unit * U;
  waitForTimeout : P -> N -> U -> Outcome unit * U;
  waitForLoadState : P -> string -> U -> Outcome unit * U;
  url : P -> U -> string;
  title : P -> U -> Outcome string;
  screenshot : P -> ScreenshotOptions -> U -> Outcome Buffer * U;
  pageClose : P -> U -> Outcome unit * U;
  (* Locator *)
  isVisible : P -> Locator -> U -> Outcome bool;
  getAttribute : P -> Locator -> string -> U -> Outcome (option string);
  click : P -> Locator -> U -> Outcome unit * U;
  hover : P -> Locator -> U -> Outcome unit * U;
  focus : P -> Locator -> U -> Outcome unit * U;
  (* expect(locator) *)
  toBeVisible : P -> Locator -> U -> Outcome unit;
  toHaveAttribute : P -> Locator -> string -> string -> U -> Outcome unit;
  toBeFocused : P -> Locator -> U -> Outcome unit;
  (* the JavaScript engine under the suite *)
  regexpConstructs : string -> string -> bool;    (* new RegExp(source, flags) returns *)
  dateNow : U -> N                                (* Date.now() *)
}.

Arguments launch {U B C P} _ _ _.
Arguments newContext {U B C P} _ _ _ _.
Arguments newPage {U B C P} _ _ _.
Arguments browserClose {U B C P} _ _ _.
Arguments contextClose {U B C P} _ _ _.
Arguments setDefaultTimeout {U B C P} _ _ _ _.
Arguments goto {U B C P} _ _ _ _.
Arguments waitForTimeout {U B C P} _ _ _ _.
Arguments waitForLoadState {U B C P} _ _ _ _.
Arguments url {U B C P} _ _ _.
Arguments title {U B C P} _ _ _.
Arguments screenshot {U B C P} _ _ _ _.
Arguments pageClose {U B C P} _ _ _.
Arguments isVisible {U B C P} _ _ _ _.
Arguments getAttribute {U B C P} _ _ _ _ _.
Arguments click {U B C P} _ _ _ _.
Arguments hover {U B C P} _ _ _ _.
Arguments focus {U B C P} _ _ _ _.
Arguments toBeVisible {U B C P} _ _ _ _.
Arguments toHaveAttribute {U B C P} _ _ _ _ _ _.
Arguments toBeFocused {U B C P} _ _ _ _.
Arguments regexpConstructs {U B C P} _ _ _.
Arguments dateNow {U B C P} _ _.

(** The driver calls a routine can make, as they are recorded. *)
Inductive Call : Type :=
| CLaunch (o : LaunchOptions)
| CNewContext (o : ContextOptions)
| CNewPage
| CBrowserClose
| CContextClose
| CSetDefaultTimeout (ms : N)
| CGoto (address : string)
| CWaitForTimeout (ms : N)
| CWaitForLoadState (state : string)
| CUrl
| CTitle
| CScreenshot (o : ScreenshotOptions)
| CPageClose
| CIsVisible (l : Locator)
| CGetAttribute (l : Locator) (attr : string)
| CClick (l : Locator)
| CHover (l : Locator)
| CFocus (l : Locator)
| CToBeVisible (l : Locator)
| CToHaveAttribute (l : Locator) (attr value : string)
| CToBeFocused (l : Locator).

(** One recorded call, and whether it returned ([true]) or threw. *)
Record Event : Type := { call : Call; returned : bool }.

(** [page.goto]: the page loads the address. *)
Definition is_goto (c : Call) : bool :=
  match c with
  | CGoto _ => true
  | _ => false
  end.

(** A click: on a link, the page loads the document the link leads to. *)
Definition is_click (c : Call) : bool :=
  match c with
  | CClick _ => true
  | _ => false
  end.

(** The calls by which the suite makes the page load a document. *)
Definition is_navigation (c : Call) : bool := is_goto c || is_click c.

(** The calls that look an element up in the document. *)
Definition is_dom_query (c : Call) : bool :=
  match c with
  | CIsVisible _ | CGetAttribute _ _ | CClick _ | CHover _ | CFocus _
  | CToBeVisible _ | CToHaveAttribute _ _ _ | CToBeFocused _ => true
  | _ => false
  end.

End Playwright.

(** ** The scenario runner's data, as the suite sees it *)
Module Cucumber.

(** [Status] of [@cucumber/cucumber]. *)
Inductive Status : Type :=
| UNKNOWN | PASSED | SKIPPED | PENDING | UNDEFINED | AMBIGUOUS | FAILED.

Definition Status_eqb (a b : Status) : bool :=
  match a, b with
  | UNKNOWN, UNKNOWN | PASSED, PASSED | SKIPPED, SKIPPED | PENDING, PENDING
  | UNDEFINED, UNDEFINED | AMBIGUOUS, AMBIGUOUS | FAILED, FAILED => true
  | _, _ => false
  end.

(** The cells of a data table, header row first. *)
Definition DataTable : Type := list (list string).

(** One object per row below the header; a later column of the same
    name overwrites an earlier one. *)
Definition row_object (keys values : list string) : gmap string string :=
  fold_left (fun (o : gmap string string) (kv : string * string) => <[kv.1 := kv.2]> o)
            (zip keys values) ∅.

(** [dataTable.hashes()] *)
Definition hashes (t : DataTable) : list (gmap string string) :=
  match t with
  | [] => []
  | keys :: rows => map (row_object keys) rows
  end.

(** The support code library the runner builds while it loads the step
    files: the limit for one step or hook, in milliseconds, is 5000
    until [setDefaultTimeout] is called. *)
Record SupportCode : Type := { defaultTimeout : N }.

Definition initial_support : SupportCode := {| defaultTimeout := 5000 |}.

(** [setDefaultTimeout(ms)] of [@cucumber/cucumber] *)
Definition set_default_timeout (ms : N) (_ : SupportCode) : SupportCode :=
  {| defaultTimeout := ms |}.

(** The limit the runner gives a step definition: the [timeout] option
    of the definition, or else the default. *)
Definition limit_of (own : option N) (sc : SupportCode) : N :=
  match own with
  | Some ms => ms
  | None => defaultTimeout sc
  end.

(** What [this.attach(data, mediaType)] records. *)
Record Attachment : Type :=
  { data : Playwright.Buffer; mediaType : string }.

(** The hook argument [{ pickle, result }]; [result] may be absent. *)
Record HookArg : Type :=
  { pickle_name : string; result_status : option Status }.

End Cucumber.

(** ** The world a routine runs in, and the monad of routines

    A routine is an [async function (this: CustomWorld)]: it reads and
    writes the fields of [this], the module variable [browser] of
    [hooks.ts] and, through the driver, the browser; it returns or throws.
    Every driver call is recorded in [trace], oldest first. *)
Module Effects.
Import Playwright Cucumber.

Section World.
Context {U B C P : Type}.

Record World : Type := mkWorld {
  univ : U;                            (* the driver's side *)
  browser : option B;                  (* hooks.ts: let browser *)
  page : option P;                     (* CustomWorld.page *)
  context : option C;                  (* CustomWorld.context *)
  attachments : list Attachment;       (* recorded by this.attach *)
  trace : list Event
}.

Definition M (A : Type) : Type := World -> Outcome A * World.

Definition ret {A} (a : A) : M A := fun w => (Ok a, w).

Definition throw {A} (e : Error) : M A := fun w => (Throw e, w).

Definition bind {A A'} (m : M A) (k : A -> M A') : M A' :=
  fun w =>
    match m w with
    | (Ok a, w') => k a w'
    | (Throw e, w') => (Throw e, w')
    end.

(** [promise.catch(handler)] *)
Definition catch {A} (m : M A) (handler : Error -> M A) : M A :=
  fun w =>
    match m w with
    | (Ok a, w') => (Ok a, w')
    | (Throw e, w') => handler e w'
    end.

Definition set_univ (u : U) (w : World) : World :=
  mkWorld u (browser w) (page w) (context w) (attachments w) (trace w).
Definition set_browser (b : option B) (w : World) : World :=
  mkWorld (univ w) b (page w) (context w) (attachments w) (trace w).
Definition set_page (p : option P) (w : World) : World :=
  mkWorld (univ w) (browser w) p (context w) (attachments w) (trace w).
Definition set_context (c : option C) (w : World) : World :=
  mkWorld (univ w) (browser w) (page w) c (attachments w) (trace w).
Definition set_attachments (a : list Attachment) (w : World) : World :=
  mkWorld (univ w) (browser w) (page w) (context w) a (trace w).
Definition set_trace (t : list Event) (w : World) : World :=
  mkWorld (univ w) (browser w) (page w) (context w) (attachments w) t.

Definition is_ok {A} (r : Outcome A) : bool :=
  match r with
  | Ok _ => true
  | Throw _ => false
  end.

Definition record_call {A} (c : Call) (r : Outcome A) (w : World) : World :=
  set_trace (trace w ++ [{| call := c; returned := is_ok r |}]) w.

(** A driver call that may change the driver's side. *)
Definition action {A} (c : Call) (f : U -> Outcome A * U) : M A :=
  fun w =>
    let (r, u') := f (univ w) in
    (r, record_call c r (set_univ u' w)).

(** A driver call that only reads it. *)
Definition query {A} (c : Call) (f : U -> Outcome A) : M A :=
  action c (fun u => (f u, u)).

(** [this.page], on which the next member access throws when the field
    was never set. *)
Definition this_page : M P :=
  fun w =>
    match page w with
    | Some p => (Ok p, w)
    | None => (Throw TypeError, w)
    end.

(** [for (const x of xs) { await body(x) }] *)
Fixpoint for_of {A} (xs : list A) (body : A -> M unit) : M unit :=
  match xs with
  | [] => ret tt
  | x :: xs' => bind (body x) (fun _ => for_of xs' body)
  end.

(** [expect(actual).toBe(expected)] between an attribute value
    ([null] when absent) and a table cell ([undefined] when absent):
    [Object.is], so [null] and [undefined] never agree. *)
Definition expect_toBe (actual expected : option string) : M unit :=
  match actual, expected with
  | Some a, Some e => if String.eqb a e then ret tt else throw AssertionError
  | _, _ => throw AssertionError
  end.

(** [expect(actual).toContain(sub)] with [actual] a string or [null]. *)
Definition expect_toContain (actual : option string) (sub : string) : M unit :=
  match actual with
  | Some a => if JS.includes sub a then ret tt else throw AssertionError
  | None => throw AssertionError
  end.

End World.

Arguments World : clear implicits.
Arguments M : clear implicits.

Declare Scope suite_scope.
Delimit Scope suite_scope with suite.
Notation "x ← y ; z" := (bind y (fun x => z))
  (at level 20, y at level 100, z at level 200, only parsing) : suite_scope.
Notation "x ;; z" := (bind x (fun _ => z))
  (at level 100, z at level 200, only parsing, right associativity) : suite_scope.

(** The driver operations as routines. *)
Section Calls.
Context {U B C P : Type} (drv : Driver U B C P).
Local Abbreviation M := (M U B C P).

Definition page_goto (p : P) (address : string) : M unit :=
  action (CGoto address) (goto drv p address).
Definition page_waitForTimeout (p : P) (ms : N) : M unit :=
  action (CWaitForTimeout ms) (waitForTimeout drv p ms).
Definition page_waitForLoadState (p : P) (state : string) : M unit :=
  action (CWaitForLoadState state) (waitForLoadState drv p state).
Definition page_url (p : P) : M string :=
  query CUrl (fun u => Ok (url drv p u)).
Definition page_title (p : P) : M string :=
  query CTitle (title drv p).
Definition page_screenshot (p : P) (o : ScreenshotOptions) : M Buffer :=
  action (CScreenshot o) (screenshot drv p o).
Definition page_close (p : P) : M unit :=
  action CPageClose (pageClose drv p).
Definition page_setDefaultTimeout (p : P) (ms : N) : M unit :=
  action (CSetDefaultTimeout ms) (fun u => (Ok tt, setDefaultTimeout drv p ms u)).

Definition locator_isVisible (p : P) (l : Locator) : M bool :=
  query (CIsVisible l) (isVisible drv p l).
Definition locator_getAttribute (p : P) (l : Locator) (attr : string) : M (option string) :=
  query (CGetAttribute l attr) (getAttribute drv p l attr).
Definition locator_click (p : P) (l : Locator) : M unit :=
  action (CClick l) (click drv p l).
Definition locator_hover (p : P) (l : Locator) : M unit :=
  action (CHover l) (hover drv p l).
Definition locator_focus (p : P) (l : Locator) : M unit :=
  action (CFocus l) (focus drv p l).

Definition expect_toBeVisible (p : P) (l : Locator) : M unit :=
  query (CToBeVisible l) (toBeVisible drv p l).
Definition expect_toHaveAttribute (p : P) (l : Locator) (attr value : string) : M unit :=
  query (CToHaveAttribute l attr value) (toHaveAttribute drv p l attr value).
Definition expect_toBeFocused (p : P) (l : Locator) : M unit :=
  query (CToBeFocused l) (toBeFocused drv p l).

Definition chromium_launch (o : LaunchOptions) : M B :=
  action (CLaunch o) (launch drv o).
Definition browser_newContext (b : B) (o : ContextOptions) : M C :=
  action (CNewContext o) (newContext drv b o).
Definition context_newPage (c : C) : M P :=
  action CNewPage (newPage drv c).
Definition browser_close (b : B) : M unit :=
  action CBrowserClose (browserClose drv b).
Definition context_close (c : C) : M unit :=
  action CContextClose (contextClose drv c).

(** [new RegExp(source, flags)] *)
Definition new_RegExp (source flags : string) : M NameSpec :=
  if regexpConstructs drv source flags
  then ret (NameRegExp source flags)
  else throw RegExpSyntaxError.

Definition date_now : M N :=
  fun w => (Ok (dateNow drv (univ w)), w).

(** [this.attach(data, mediaType)] *)
Definition this_attach (d : Buffer) (mt : string) : M unit :=
  fun w => (Ok tt, set_attachments (attachments w ++ [{| data := d; mediaType := mt |}]) w).

End Calls.

End Effects.

(** ** [features/step_definitions/header.steps.ts] *)
Module HeaderSteps.
Import Playwright Cucumber Effects.
Local Open Scope suite_scope.

(** [setDefaultTimeout(30000)]: the runner's limit for one step or hook,
    in milliseconds. *)
Definition default_timeout : N := 30000.

(** What loading the module does to the support code library; the
    registration of the steps is [run_step] below. *)
Definition load (sc : SupportCode) : SupportCode :=
  set_default_timeout default_timeout sc.

(** [page.locator('#header')] *)
Definition header : Locator := Css "#header".

(** [page.locator('#header').getByRole('link', { name, exact: true })];
    [name] is [None] when the expression that gives it is [undefined]. *)
Definition header_link (name : option string) : Locator :=
  Within header (ByRole Link (option_map (fun s => NameText s true) name)).

(** [page.getByRole('link', { name })] *)
Definition link_named (name : option string) : Locator :=
  ByRole Link (option_map (fun s => NameText s false) name).

Definition accept_cookies_button : Locator :=
  ByRole Button (Some (NameText "I Accept Cookies" false)).

(** One double quote, code unit 34, for the selectors that contain it. *)
Definition dq : string := String (ascii_of_N 34) EmptyString.

(** [page.locator('#header img[alt="logo"]')] *)
Definition logo : Locator := Css ("#header img[alt=" +:+ dq +:+ "logo" +:+ dq +:+ "]").

Definition logo_link : Locator :=
  Within header (ByRole Link (Some (NameRegExp "logo" "i"))).

Definition logo_path : string := "/globalassets/images/5_logos/kainos_logo.png".

(** [page.locator('header, [role="banner"]')] *)
Definition landmark : Locator := Css ("header, [role=" +:+ dq +:+ "banner" +:+ dq +:+ "]").

Section Steps.
Context {U B C P : Type} (drv : Driver U B C P).
Local Abbreviation M := (M U B C P).

(** Given('I navigate to the Kainos homepage') *)
Definition navigate_to_homepage : M unit :=
  p ← this_page;
  page_goto drv p "https://www.kainos.com".

(** Given('I accept the cookie consent') *)
Definition accept_cookie_consent : M unit :=
  p ← this_page;
  visible ← catch (locator_isVisible drv p accept_cookies_button) (fun _ => ret false);
  if visible : bool then
    locator_click drv p accept_cookies_button;;
    page_waitForTimeout drv p 1000
  else ret tt.

(** Then('the Kainos logo should be visible') *)
Definition logo_should_be_visible : M unit :=
  p ← this_page;
  expect_toBeVisible drv p logo.

(** Then('the logo should contain the correct image source') *)
Definition logo_should_contain_source : M unit :=
  p ← this_page;
  logoSrc ← locator_getAttribute drv p logo "src";
  expect_toContain logoSrc logo_path.

(** Then('the logo should link to the homepage') *)
Definition logo_should_link_home : M unit :=
  p ← this_page;
  expect_toHaveAttribute drv p logo_link "href" "/".

(** The body of the loop of 'the following navigation items should be
    visible:'. *)
Definition check_navigation_row (row : gmap string string) : M unit :=
  p ← this_page;
  let navLink := header_link (row !! "Navigation Item") in
  expect_toBeVisible drv p navLink;;
  href ← locator_getAttribute drv p navLink "href";
  expect_toBe href (row !! "URL").

(** Then('the following navigation items should be visible:') *)
Definition navigation_items_should_be_visible (dataTable : DataTable) : M unit :=
  let rows := hashes dataTable in
  for_of rows check_navigation_row.

(** Then('the {string} button should be visible') *)
Definition button_should_be_visible (buttonName : string) : M unit :=
  p ← this_page;
  re ← new_RegExp drv buttonName "i";
  expect_toBeVisible drv p (ByRole Button (Some re)).

(** Then('the {string} link should be visible') *)
Definition link_should_be_visible (linkName : string) : M unit :=
  p ← this_page;
  re ← new_RegExp drv linkName "i";
  expect_toBeVisible drv p (ByRole Link (Some re)).

(** Then('the {string} link should point to {string}') *)
Definition link_should_point_to (linkName address : string) : M unit :=
  p ← this_page;
  re ← new_RegExp drv linkName "i";
  expect_toHaveAttribute drv p (ByRole Link (Some re)) "href" address.

(** When('I hover over the {string} navigation item') *)
Definition hover_navigation_item (navItem : string) : M unit :=
  p ← this_page;
  locator_hover drv p (header_link (Some navItem));;
  page_waitForTimeout drv p 500.

(** The loop body shared by the two dropdown steps: the link named by
    column [column] of the row is visible. *)
Definition check_dropdown_row (column : string) (row : gmap string string) : M unit :=
  p ← this_page;
  expect_toBeVisible drv p (link_named (row !! column)).

(** Then('the following services should be visible in the dropdown:') *)
Definition services_should_be_visible (dataTable : DataTable) : M unit :=
  let services := hashes dataTable in
  for_of services (check_dropdown_row "Service").

(** Then('the following impacts should be visible in the dropdown:') *)
Definition impacts_should_be_visible (dataTable : DataTable) : M unit :=
  let impacts := hashes dataTable in
  for_of impacts (check_dropdown_row "Impact").

(** When('I click on the {string} navigation item') *)
Definition click_navigation_item (navItem : string) : M unit :=
  p ← this_page;
  locator_click drv p (header_link (Some navItem));;
  page_waitForLoadState drv p "domcontentloaded".

(** When('I click on the {string} link') *)
Definition click_link (linkText : string) : M unit :=
  p ← this_page;
  locator_click drv p (header_link (Some linkText));;
  page_waitForLoadState drv p "domcontentloaded".

(** Then('I should be navigated to {string}') *)
Definition should_be_navigated_to (address : string) : M unit :=
  p ← this_page;
  currentUrl ← page_url drv p;
  expect_toContain (Some currentUrl) address.

(** Then('the page title should contain {string}') *)
Definition title_should_contain (titleText : string) : M unit :=
  p ← this_page;
  t ← page_title drv p;
  expect_toContain (Some t) titleText.

(** The links of 'all navigation links should be keyboard accessible'. *)
Definition keyboard_links : list Locator :=
  [ header_link (Some "Digital Services");
    header_link (Some "Workday");
    header_link (Some "Industries") ].

(** Then('all navigation links should be keyboard accessible') *)
Definition links_should_be_keyboard_accessible : M unit :=
  p ← this_page;
  let navLinks := keyboard_links in
  for_of navLinks (fun link =>
    locator_focus drv p link;;
    expect_toBeFocused drv p link).

(** Then('the header should have proper ARIA landmarks') *)
Definition header_should_have_landmarks : M unit :=
  p ← this_page;
  expect_toBeVisible drv p landmark.

End Steps.

(** A step of a scenario: the phrase that selects the routine, with the
    arguments taken from the text. *)
Inductive Step : Type :=
| NavigateToHomepage
| AcceptCookieConsent
| LogoVisible
| LogoImageSource
| LogoLinksHome
| NavigationItemsVisible (t : DataTable)
| ButtonVisible (name : string)
| LinkVisible (name : string)
| LinkPointsTo (name address : string)
| HoverNavigationItem (item : string)
| ServicesVisible (t : DataTable)
| ImpactsVisible (t : DataTable)
| ClickNavigationItem (item : string)
| ClickLink (text : string)
| NavigatedTo (address : string)
| TitleContains (text : string)
| KeyboardAccessible
| AriaLandmarks.

(** The registry: which routine a step runs. *)
Definition run_step {U B C P} (drv : Driver U B C P) (s : Step) : M U B C P unit :=
  match s with
  | NavigateToHomepage => navigate_to_homepage drv
  | AcceptCookieConsent => accept_cookie_consent drv
  | LogoVisible => logo_should_be_visible drv
  | LogoImageSource => logo_should_contain_source drv
  | LogoLinksHome => logo_should_link_home drv
  | NavigationItemsVisible t => navigation_items_should_be_visible drv t
  | ButtonVisible name => button_should_be_visible drv name
  | LinkVisible name => link_should_be_visible drv name
  | LinkPointsTo name address => link_should_point_to drv name address
  | HoverNavigationItem item => hover_navigation_item drv item
  | ServicesVisible t => services_should_be_visible drv t
  | ImpactsVisible t => impacts_should_be_visible drv t
  | ClickNavigationItem item => click_navigation_item drv item
  | ClickLink text => click_link drv text
  | NavigatedTo address => should_be_navigated_to drv address
  | TitleContains text => title_should_contain drv text
  | KeyboardAccessible => links_should_be_keyboard_accessible drv
  | AriaLandmarks => header_should_have_landmarks drv
  end.

(** No step is registered with options: none has a limit of its own. *)
Definition own_timeout (s : Step) : option N := None.

End HeaderSteps.

(** ** [features/support/hooks.ts] *)
Module Hooks.
Import Playwright Cucumber Effects.
Local Open Scope suite_scope.

(** The per-page limit set by the Before hook, in milliseconds. *)
Definition page_timeout : N := 30000.

Definition context_options : ContextOptions :=
  {| viewport_width := 1920; viewport_height := 1080; ignoreHTTPSErrors := true |}.

(** [process.env.HEADLESS !== 'false'] *)
Definition headless_of (env_HEADLESS : option string) : bool :=
  match env_HEADLESS with
  | Some v => negb (String.eqb v "false")
  | None => true
  end.

Definition launch_options (env_HEADLESS : option string) : LaunchOptions :=
  let headless := headless_of env_HEADLESS in
  {| headless := headless; slowMo := if headless then 0 else 100 |}.

(** The [path] of the failure screenshot. *)
Definition screenshot_path (pickle_name : string) (now : N) : string :=
  "./screenshots/" +:+ JS.replace_ws_runs "_" pickle_name +:+ "_"
    +:+ JS.number_to_string now +:+ ".png".

Section Hooks.
Context {U B C P : Type} (drv : Driver U B C P).
Local Abbreviation M := (M U B C P).

(** BeforeAll *)
Definition BeforeAll (env_HEADLESS : option string) : M unit :=
  b ← chromium_launch drv (launch_options env_HEADLESS);
  fun w => (Ok tt, set_browser (Some b) w).

(** [browser] of the module, on which [.newContext] throws while it is
    unset. *)
Definition the_browser : M B :=
  fun w =>
    match browser w with
    | Some b => (Ok b, w)
    | None => (Throw TypeError, w)
    end.

(** Before *)
Definition Before : M unit :=
  b ← the_browser;
  c ← browser_newContext drv b context_options;
  (fun w => (Ok tt, set_context (Some c) w));;
  p ← context_newPage drv c;
  (fun w => (Ok tt, set_page (Some p) w));;
  page_setDefaultTimeout drv p page_timeout.

(** [result?.status === Status.FAILED] *)
Definition failed (arg : HookArg) : bool :=
  match result_status arg with
  | Some s => Status_eqb s FAILED
  | None => false
  end.

(** The first statement of After: the screenshot on failure. *)
Definition screenshot_on_failure (arg : HookArg) : M unit :=
  if failed arg then
    p ← this_page;
    now ← date_now drv;
    shot ← page_screenshot drv p
             {| path := screenshot_path (pickle_name arg) now; fullPage := true |};
    this_attach shot "image/png"
  else ret tt.

(** [await this.page?.close()] *)
Definition close_page : M unit :=
  fun w =>
    match page w with
    | Some p => page_close drv p w
    | None => (Ok tt, w)
    end.

(** [await this.context?.close()] *)
Definition close_context : M unit :=
  fun w =>
    match context w with
    | Some c => context_close drv c w
    | None => (Ok tt, w)
    end.

(** After *)
Definition After (arg : HookArg) : M unit :=
  screenshot_on_failure arg;;
  close_page;;
  close_context.

(** AfterAll: [await browser?.close()] *)
Definition AfterAll : M unit :=
  fun w =>
    match browser w with
    | Some b => browser_close drv b w
    | None => (Ok tt, w)
    end.

End Hooks.

End Hooks.

(** ** [cucumber.js] *)
Module Config.

Record Profile : Type := {
  require : list string;
  requireModule : list string;
  format : list string;
  snippetInterface : string;
  appUrl : string;
  parallel : N
}.

Definition default : Profile := {|
  require := ["features/**/*.ts"];
  requireModule := ["ts-node/register"];
  format := ["progress-bar"; "html:cucumber-report.html"; "json:cucumber-report.json"];
  snippetInterface := "async-await";
  appUrl := "https://www.kainos.com";
  parallel := 1
|}.

End Config.

(** ** The feature text *)
Module Feature.
Import Cucumber HeaderSteps.

Record Scenario : Type := { name : string; steps : list Step }.

Definition background : list Step := [NavigateToHomepage; AcceptCookieConsent].

Definition navigation_items : list (string * string) :=
  [ ("Digital Services", "/digital-services");
    ("Workday", "/workday");
    ("Industries", "/industries");
    ("Insights", "/insights");
    ("Careers", "https://careers.kainos.com/gb/en") ].

(** A two-column table: the header row, then one row per pair. *)
Definition pair_table (k1 k2 : string) (rows : list (string * string)) : DataTable :=
  [k1; k2] :: map (fun r => [r.1; r.2]) rows.

(** A one-column table. *)
Definition column_table (k : string) (cells : list string) : DataTable :=
  [k] :: map (fun c => [c]) cells.

Definition navigation_table : DataTable :=
  pair_table "Navigation Item" "URL" navigation_items.

Definition services : list string :=
  [ "Digital Advisory"; "Cloud and engineering"; "Data and AI";
    "AI Business Solutions"; "User-centred design"; "Managed services" ].

Definition impacts : list string :=
  [ "Building digital transformation"; "Driving continuous improvement";
    "Improving business performance"; "Improving customer engagement" ].

Definition services_table : DataTable := column_table "Service" services.
Definition impacts_table : DataTable := column_table "Impact" impacts.

Definition logo_scenario : Scenario :=
  {| name := "Verify logo presence and functionality";
     steps := background ++ [LogoVisible; LogoImageSource; LogoLinksHome] |}.

Definition navigation_scenario : Scenario :=
  {| name := "Verify main navigation menu items";
     steps := background ++ [NavigationItemsVisible navigation_table] |}.

Definition right_side_scenario : Scenario :=
  {| name := "Verify right-side header elements";
     steps := background ++
       [ ButtonVisible "Share icons"; LinkVisible "Get in touch";
         LinkPointsTo "Get in touch" "/contact-us"; ButtonVisible "Search" ] |}.

Definition dropdown_steps : list Step :=
  [ HoverNavigationItem "Digital Services";
    ServicesVisible services_table;
    ImpactsVisible impacts_table ].

Definition dropdown_scenario : Scenario :=
  {| name := "Verify Digital Services dropdown menu";
     steps := background ++ dropdown_steps |}.

Definition click_scenario : Scenario :=
  {| name := "Verify navigation item functionality";
     steps := background ++
       [ ClickNavigationItem "Digital Services"; NavigatedTo "/digital-services";
         TitleContains "Digital Services" ] |}.

Definition accessibility_scenario : Scenario :=
  {| name := "Verify header accessibility";
     steps := background ++ [KeyboardAccessible; AriaLandmarks] |}.

(** One scenario of the outline per row of its examples. *)
Definition outline_scenario (row : string * string) : Scenario :=
  {| name := "Verify individual navigation links";
     steps := background ++ [ClickLink row.1; NavigatedTo row.2] |}.

Definition outline_examples : list (string * string) :=
  [ ("Digital Services", "/digital-services");
    ("Workday", "/workday");
    ("Industries", "/industries");
    ("Insights", "/insights") ].

Definition scenarios : list Scenario :=
  [ logo_scenario; navigation_scenario; right_side_scenario; dropdown_scenario;
    click_scenario; accessibility_scenario ]
  ++ map outline_scenario outline_examples.

End Feature.

(** ** The order in which the scenario runner calls hooks and steps

    One worker of [@cucumber/cucumber]: BeforeAll once, then for each
    scenario a new world object, Before, the steps up to the first that
    throws, After (whatever happened before it), and AfterAll once at the
    end. A BeforeAll that throws ends the run. *)
Module Runner.
Import Playwright Cucumber Effects HeaderSteps Feature.

Record ReportEntry : Type := {
  scenario : string;
  status : Status;
  attached : list Attachment
}.

(** How many scenarios the configuration lets run at the same time. *)
Definition lanes (cfg : Config.Profile) : N := Config.parallel cfg.

(** The time the runner lets a step take, in milliseconds, once the
    step file is loaded. *)
Definition step_limit (s : Step) : N :=
  limit_of (own_timeout s) (HeaderSteps.load initial_support).

Section Runner.
Context {U B C P : Type} (drv : Driver U B C P).
Local Abbreviation World := (World U B C P).

(** [new KainosWorld(options)]: no page, no context, nothing attached. *)
Definition new_world (w : World) : World :=
  set_attachments [] (set_context None (set_page None w)).

(** Before and the steps of a scenario; the result the After hook is
    given is FAILED as soon as one of them threw. *)
Definition run_body (sc : Scenario) : M U B C P unit :=
  bind (Hooks.Before drv) (fun _ => for_of (steps sc) (run_step drv)).

Definition status_of {A} (r : Outcome A) : Status :=
  if is_ok r then PASSED else FAILED.

Definition run_scenario (sc : Scenario) (w0 : World) : ReportEntry * World :=
  let (r1, w1) := run_body sc (new_world w0) in
  let st := status_of r1 in
  let (r2, w2) := Hooks.After drv {| pickle_name := name sc; result_status := Some st |} w1 in
  ({| scenario := name sc;
      status := if is_ok r2 then st else FAILED;
      attached := attachments w2 |}, w2).

Fixpoint run_scenarios (scs : list Scenario) (w : World) : list ReportEntry * World :=
  match scs with
  | [] => ([], w)
  | sc :: scs' =>
      let (e, w1) := run_scenario sc w in
      let (es, w2) := run_scenarios scs' w1 in
      (e :: es, w2)
  end.

Definition run_all (env_HEADLESS : option string) (scs : list Scenario) (w : World)
  : list ReportEntry * World :=
  match Hooks.BeforeAll drv env_HEADLESS w with
  | (Throw _, w1) => ([], w1)
  | (Ok _, w1) =>
      let (es, w2) := run_scenarios scs w1 in
      (es, (Hooks.AfterAll drv w2).2)
  end.

End Runner.

(** Browsing contexts open after a sequence of recorded calls: each
    [newContext] that returned opens one, each [context.close()] that
    returned closes one. *)
Definition live_contexts_step (n : nat) (e : Event) : nat :=
  match call e, returned e with
  | CNewContext _, true => S n
  | CContextClose, true => pred n
  | _, _ => n
  end.

Definition live_contexts (t : list Event) : nat := fold_left live_contexts_step t 0.

End Runner.

(** ** A reference driver: one site whose document does not change by itself

    Enough of a browser to run the routines on concrete pages. The
    document is a flat list of elements, each carrying its role, accessible
    name (already trimmed), the CSS selectors, among the suite's, that
    select it or one of its ancestors, and the names of the links that
    enclose it. *)
Module Sim.
Import Playwright.

Record Element : Type := {
  role : option Role;
  name : string;
  visible : bool;
  enabled : bool;                       (* a click can land on it *)
  focusable : bool;
  attrs : list (string * string);
  selected_by : list string;            (* selectors that select the element *)
  inside : list string;                 (* selectors that select an ancestor *)
  enclosing_links : list string         (* names of the links among the ancestors *)
}.

Record Site : Type := {
  document : list Element;
  site_title : string
}.

(** What can be made to go wrong. *)
Record Faults : Type := {
  launch_throws : bool;
  newPage_throws : bool;
  screenshot_throws : bool;
  pageClose_throws : bool;
  contextClose_throws : bool
}.

Definition no_faults : Faults :=
  {| launch_throws := false; newPage_throws := false; screenshot_throws := false;
     pageClose_throws := false; contextClose_throws := false |}.

Record PageState : Type := {
  address : string;
  focused : option nat;                 (* position of the focused element *)
  timeout : N
}.

Record Universe : Type := {
  next_handle : nat;
  browsers : list nat;                  (* running browser processes *)
  contexts : list nat;                  (* open browsing contexts *)
  pages : list (nat * PageState);       (* open pages *)
  clock : N
}.

Definition initial (now : N) : Universe :=
  {| next_handle := 0; browsers := []; contexts := []; pages := []; clock := now |}.

Definition role_eqb (a b : Role) : bool :=
  match a, b with
  | Link, Link | Button, Button => true
  | _, _ => false
  end.

(** How [getByRole] compares an accessible name with its [name] option. *)
Definition name_test (n : option NameSpec) : Outcome (string -> bool) :=
  match n with
  | None => Ok (fun _ => true)
  | Some (NameText s true) => Ok (String.eqb s)
  | Some (NameText s false) => Ok (JS.includes_ci s)
  | Some (NameRegExp source flags) =>
      match RegExp.compile source flags with
      | RegExp.Parsed r => Ok (RegExp.test r)
      | _ => Throw (DriverError "pattern outside the fragment")
      end
  end.

Definition has_role (r : Role) (e : Element) : bool :=
  match role e with
  | Some r' => role_eqb r r'
  | None => false
  end.

Definition mem (s : string) (l : list string) : bool := existsb (String.eqb s) l.

(** The elements a locator selects, with their positions. *)
Definition select (l : Locator) (doc : list Element) : Outcome (list (nat * Element)) :=
  let numbered := imap (fun i e => (i, e)) doc in
  match l with
  | Css sel => Ok (List.filter (fun ie => mem sel (selected_by ie.2)) numbered)
  | ByRole r n =>
      match name_test n with
      | Ok f => Ok (List.filter (fun ie => has_role r ie.2 && f (name ie.2)) numbered)
      | Throw e => Throw e
      end
  | Within (Css sel) (ByRole r n) =>
      match name_test n with
      | Ok f =>
          Ok (List.filter
                (fun ie => mem sel (inside ie.2) && has_role r ie.2 && f (name ie.2))
                numbered)
      | Throw e => Throw e
      end
  | Within _ _ => Throw (DriverError "locator chain outside the fragment")
  end.

(** Strictness: an operation on a locator needs exactly one element. *)
Definition the_element (l : Locator) (doc : list Element) : Outcome (nat * Element) :=
  match select l doc with
  | Ok [ie] => Ok ie
  | Ok [] => Throw TimeoutError
  | Ok _ => Throw (DriverError "strict mode violation")
  | Throw e => Throw e
  end.

Fixpoint assoc {A} (k : string) (l : list (string * A)) : option A :=
  match l with
  | [] => None
  | (k', v) :: l' => if String.eqb k k' then Some v else assoc k l'
  end.

Fixpoint page_state (p : nat) (ps : list (nat * PageState)) : option PageState :=
  match ps with
  | [] => None
  | (q, s) :: ps' => if Nat.eqb p q then Some s else page_state p ps'
  end.

Definition set_page_state (p : nat) (s : PageState) (u : Universe) : Universe :=
  {| next_handle := next_handle u; browsers := browsers u; contexts := contexts u;
     pages := (p, s) :: List.filter (fun qs => negb (Nat.eqb p qs.1)) (pages u);
     clock := clock u |}.

Definition closed {A} : Outcome A := Throw (DriverError "target closed").

(** Run [f] on the state of an open page. *)
Definition on_page {A} (p : nat) (u : Universe) (f : PageState -> Outcome A) : Outcome A :=
  match page_state p (pages u) with
  | Some s => f s
  | None => closed
  end.

Definition origin : string := "https://www.kainos.com".

(** Where a link leads: a path is resolved against the origin. *)
Definition target (href : string) : string :=
  if String.prefix "/" href then origin +:+ href else href.

Definition png : Buffer := [Byte.x89; Byte.x50; Byte.x4e; Byte.x47].

Section Driver.
Variable faults : Faults.
Variable site : Site.

Definition fresh (u : Universe) : Universe :=
  {| next_handle := S (next_handle u); browsers := browsers u; contexts := contexts u;
     pages := pages u; clock := clock u |}.

Definition sim_launch (_ : LaunchOptions) (u : Universe) : Outcome nat * Universe :=
  if launch_throws faults then (Throw (DriverError "launch"), u)
  else (Ok (next_handle u),
        {| next_handle := S (next_handle u); browsers := next_handle u :: browsers u;
           contexts := contexts u; pages := pages u; clock := clock u |}).

Definition sim_newContext (b : nat) (_ : ContextOptions) (u : Universe)
  : Outcome nat * Universe :=
  if existsb (Nat.eqb b) (browsers u)
  then (Ok (next_handle u),
        {| next_handle := S (next_handle u); browsers := browsers u;
           contexts := next_handle u :: contexts u; pages := pages u; clock := clock u |})
  else (closed, u).

Definition sim_newPage (c : nat) (u : Universe) : Outcome nat * Universe :=
  if newPage_throws faults then (Throw (DriverError "newPage"), u)
  else if existsb (Nat.eqb c) (contexts u)
  then (Ok (next_handle u),
        set_page_state (next_handle u)
          {| address := "about:blank"; focused := None; timeout := 0 |} (fresh u))
  else (closed, u).

Definition sim_browserClose (b : nat) (u : Universe) : Outcome unit * Universe :=
  (Ok tt,
   {| next_handle := next_handle u;
      browsers := List.filter (fun b' => negb (Nat.eqb b b')) (browsers u);
      contexts := []; pages := []; clock := clock u |}).

Definition sim_contextClose (c : nat) (u : Universe) : Outcome unit * Universe :=
  if contextClose_throws faults then (Throw (DriverError "context.close"), u)
  else (Ok tt,
        {| next_handle := next_handle u; browsers := browsers u;
           contexts := List.filter (fun c' => negb (Nat.eqb c c')) (contexts u);
           pages := pages u; clock := clock u |}).

Definition sim_pageClose (p : nat) (u : Universe) : Outcome unit * Universe :=
  if pageClose_throws faults then (Throw (DriverError "page.close"), u)
  else (Ok tt,
        {| next_handle := next_handle u; browsers := browsers u; contexts := contexts u;
           pages := List.filter (fun qs => negb (Nat.eqb p qs.1)) (pages u);
           clock := clock u |}).

Definition sim_setDefaultTimeout (p : nat) (ms : N) (u : Universe) : Universe :=
  match page_state p (pages u) with
  | Some s => set_page_state p {| address := address s; focused := focused s; timeout := ms |} u
  | None => u
  end.

Definition sim_goto (p : nat) (a : string) (u : Universe) : Outcome unit * Universe :=
  match page_state p (pages u) with
  | Some s =>
      (Ok tt, set_page_state p {| address := a; focused := None; timeout := timeout s |} u)
  | None => (closed, u)
  end.

Definition tick (ms : N) (u : Universe) : Universe :=
  {| next_handle := next_handle u; browsers := browsers u; contexts := contexts u;
     pages := pages u; clock := (clock u + ms)%N |}.

Definition sim_waitForTimeout (p : nat) (ms : N) (u : Universe) : Outcome unit * Universe :=
  match page_state p (pages u) with
  | Some _ => (Ok tt, tick ms u)
  | None => (closed, u)
  end.

Definition sim_waitForLoadState (p : nat) (_ : string) (u : Universe)
  : Outcome unit * Universe :=
  match page_state p (pages u) with
  | Some _ => (Ok tt, u)
  | None => (closed, u)
  end.

Definition sim_url (p : nat) (u : Universe) : string :=
  match page_state p (pages u) with
  | Some s => address s
  | None => EmptyString
  end.

Definition sim_title (p : nat) (u : Universe) : Outcome string :=
  on_page p u (fun _ => Ok (site_title site)).

Definition sim_screenshot (p : nat) (_ : ScreenshotOptions) (u : Universe)
  : Outcome Buffer * Universe :=
  if screenshot_throws faults then (Throw (DriverError "screenshot"), u)
  else (on_page p u (fun _ => Ok png), u).

Definition sim_isVisible (p : nat) (l : Locator) (u : Universe) : Outcome bool :=
  on_page p u (fun _ =>
    match select l (document site) with
    | Ok [] => Ok false
    | Ok [ie] => Ok (visible ie.2)
    | Ok _ => Throw (DriverError "strict mode violation")
    | Throw e => Throw e
    end).

Definition sim_getAttribute (p : nat) (l : Locator) (a : string) (u : Universe)
  : Outcome (option string) :=
  on_page p u (fun _ =>
    match the_element l (document site) with
    | Ok ie => Ok (assoc a (attrs ie.2))
    | Throw e => Throw e
    end).

(** An element a pointer action can reach: one, visible and enabled. *)
Definition actionable (l : Locator) : Outcome (nat * Element) :=
  match the_element l (document site) with
  | Ok ie => if visible ie.2 && enabled ie.2 then Ok ie else Throw TimeoutError
  | Throw e => Throw e
  end.

Definition sim_click (p : nat) (l : Locator) (u : Universe) : Outcome unit * Universe :=
  match page_state p (pages u), actionable l with
  | Some s, Ok ie =>
      match assoc "href" (attrs ie.2) with
      | Some h =>
          (Ok tt, set_page_state p
                    {| address := target h; focused := None; timeout := timeout s |} u)
      | None => (Ok tt, u)
      end
  | Some _, Throw e => (Throw e, u)
  | None, _ => (closed, u)
  end.

Definition sim_hover (p : nat) (l : Locator) (u : Universe) : Outcome unit * Universe :=
  match page_state p (pages u), actionable l with
  | Some _, Ok _ => (Ok tt, u)
  | Some _, Throw e => (Throw e, u)
  | None, _ => (closed, u)
  end.

Definition sim_focus (p : nat) (l : Locator) (u : Universe) : Outcome unit * Universe :=
  match page_state p (pages u), the_element l (document site) with
  | Some s, Ok ie =>
      if focusable ie.2
      then (Ok tt, set_page_state p
                     {| address := address s; focused := Some ie.1; timeout := timeout s |} u)
      else (Ok tt, u)
  | Some _, Throw e => (Throw e, u)
  | None, _ => (closed, u)
  end.

Definition sim_toBeVisible (p : nat) (l : Locator) (u : Universe) : Outcome unit :=
  on_page p u (fun _ =>
    match the_element l (document site) with
    | Ok ie => if visible ie.2 then Ok tt else Throw AssertionError
    | Throw TimeoutError => Throw AssertionError
    | Throw e => Throw e
    end).

Definition sim_toHaveAttribute (p : nat) (l : Locator) (a v : string) (u : Universe)
  : Outcome unit :=
  on_page p u (fun _ =>
    match the_element l (document site) with
    | Ok ie =>
        match assoc a (attrs ie.2) with
        | Some v' => if String.eqb v v' then Ok tt else Throw AssertionError
        | None => Throw AssertionError
        end
    | Throw TimeoutError => Throw AssertionError
    | Throw e => Throw e
    end).

Definition sim_toBeFocused (p : nat) (l : Locator) (u : Universe) : Outcome unit :=
  on_page p u (fun s =>
    match the_element l (document site) with
    | Ok ie =>
        match focused s with
        | Some i => if Nat.eqb i ie.1 then Ok tt else Throw AssertionError
        | None => Throw AssertionError
        end
    | Throw TimeoutError => Throw AssertionError
    | Throw e => Throw e
    end).

(** Whether [new RegExp(source, flags)] returns: the flags are flags
    and the grammar accepts the source. With [u] or [v] the engine
    reads a stricter grammar, which is not modelled; the suite passes
    [i] alone. *)
Definition sim_regexpConstructs (source flags : string) : bool :=
  RegExp.valid_flags flags && RegExp.well_formed source.

Definition driver : Driver Universe nat nat nat := {|
  launch := sim_launch;
  newContext := sim_newContext;
  newPage := sim_newPage;
  browserClose := sim_browserClose;
  contextClose := sim_contextClose;
  setDefaultTimeout := sim_setDefaultTimeout;
  goto := sim_goto;
  waitForTimeout := sim_waitForTimeout;
  waitForLoadState := sim_waitForLoadState;
  url := sim_url;
  title := sim_title;
  screenshot := sim_screenshot;
  pageClose := sim_pageClose;
  isVisible := sim_isVisible;
  getAttribute := sim_getAttribute;
  click := sim_click;
  hover := sim_hover;
  focus := sim_focus;
  toBeVisible := sim_toBeVisible;
  toHaveAttribute := sim_toHaveAttribute;
  toBeFocused := sim_toBeFocused;
  regexpConstructs := sim_regexpConstructs;
  dateNow := clock
|}.

End Driver.

(** The world before the run starts. *)
Definition start (now : N) : Effects.World Universe nat nat nat :=
  Effects.mkWorld (initial now) None None None [] [].

End Sim.

(** ** Concrete pages for the reference driver *)
Module Pages.
Import Playwright Sim.

Definition header_selectors : list string :=
  match HeaderSteps.header with
  | Css s => [s]
  | _ => []
  end.

Definition css_of (l : Locator) : list string :=
  match l with
  | Css s => [s]
  | _ => []
  end.

Definition header_element : Element :=
  {| role := None; name := EmptyString; visible := true; enabled := true;
     focusable := false; attrs := [("id", "header")];
     selected_by := header_selectors ++ css_of HeaderSteps.landmark; inside := [];
     enclosing_links := [] |}.

(** The logo image, inside the links called [links]. *)
Definition logo_image_in (links : list string) : Element :=
  {| role := None; name := "logo"; visible := true; enabled := true; focusable := false;
     attrs := [("alt", "logo");
               ("src", "/globalassets/images/5_logos/kainos_logo.png?width=180")];
     selected_by := css_of HeaderSteps.logo; inside := header_selectors;
     enclosing_links := links |}.

(** The logo of the site: the image is the content of a link, which
    takes its accessible name from the image. *)
Definition logo_image : Element := logo_image_in ["logo"].

Definition header_link (label href : string) : Element :=
  {| role := Some Link; name := label; visible := true; enabled := true; focusable := true;
     attrs := [("href", href)]; selected_by := []; inside := header_selectors;
     enclosing_links := [] |}.

Definition header_button (label : string) : Element :=
  {| role := Some Button; name := label; visible := true; enabled := true;
     focusable := true; attrs := []; selected_by := []; inside := header_selectors;
     enclosing_links := [] |}.

Definition slug_link (label : string) : Element :=
  header_link label ("/digital-services/" +:+ JS.replace_ws_runs "-" label).

(** The cookie banner's button; [can_click] is false when something
    covers it. *)
Definition cookie_button (can_click : bool) : Element :=
  {| role := Some Button; name := "I Accept Cookies"; visible := true; enabled := can_click;
     focusable := true; attrs := []; selected_by := []; inside := [];
     enclosing_links := [] |}.

(** The header as the feature text expects it, without a cookie banner. *)
Definition header_document : list Element :=
  [ header_element; logo_image; header_link "logo" "/" ]
  ++ map (fun r => header_link r.1 r.2) Feature.navigation_items
  ++ [ header_button "Open Share icons modal window";
       header_link "Get in touch" "/contact-us";
       header_button "Search" ]
  ++ map slug_link Feature.services
  ++ map slug_link Feature.impacts.

Definition kainos : Site :=
  {| document := header_document; site_title := "Digital Services | Kainos" |}.

Definition kainos_with_banner (can_click : bool) : Site :=
  {| document := cookie_button can_click :: header_document;
     site_title := "Digital Services | Kainos" |}.

(** A header whose Workday link points somewhere else. *)
Definition moved_workday : Site :=
  {| document :=
       [ header_element; header_link "Digital Services" "/digital-services";
         header_link "Workday" "/workday-services" ];
     site_title := "Kainos" |}.

(** A header whose logo is a bare image, with a text link to the home
    page next to it whose name happens to contain "logo". *)
Definition catalogue : Site :=
  {| document := [ header_element; logo_image_in []; header_link "Catalogo" "/" ];
     site_title := "Kainos" |}.

Definition broken_screenshot : Faults :=
  {| launch_throws := false; newPage_throws := false; screenshot_throws := true;
     pageClose_throws := false; contextClose_throws := false |}.

Definition broken_page_close : Faults :=
  {| launch_throws := false; newPage_throws := false; screenshot_throws := false;
     pageClose_throws := true; contextClose_throws := false |}.

(** The hook argument of a scenario called [title] that ended with [s]. *)
Definition ended (title : string) (s : Cucumber.Status) : Cucumber.HookArg :=
  {| Cucumber.pickle_name := title; Cucumber.result_status := Some s |}.

(** The world of a scenario on [site] once BeforeAll and Before have
    run: browser 0, context 1, page 2. *)
Definition ready (f : Faults) (site : Site) : Effects.World Universe nat nat nat :=
  let drv := driver f site in
  (Hooks.Before drv (Hooks.BeforeAll drv None (start 1000)).2).2.

(** The reference page on a browser without faults, and the world of a
    scenario on it. *)
Definition good : Driver Universe nat nat nat := driver no_faults kainos.
Definition opened : Effects.World Universe nat nat nat := ready no_faults kainos.

End Pages.

(** ** What is observed of a run: the calls a routine adds to the trace *)
Module Observe.
Import Playwright Cucumber Effects HeaderSteps.

Definition ev (c : Call) (ok : bool) : Event := {| call := c; returned := ok |}.

Section Observe.
Context {U B C P : Type}.
Local Abbreviation World := (World U B C P).

(** [w] with [evs] added to its trace. *)
Definition appended (w : World) (evs : list Event) : World :=
  set_trace (trace w ++ evs) w.

(** The fields of the world object and of the hooks module that no
    step routine assigns. *)
Definition same_handles (w w' : World) : Prop :=
  browser w' = browser w /\ page w' = page w /\ context w' = context w
  /\ attachments w' = attachments w.
End Observe.

Definition count_calls (f : Call -> bool) (evs : list Event) : nat :=
  length (List.filter (fun e => f (call e)) evs).

(** Calls made on the page or on a locator of the page. *)
Definition is_page_call (c : Call) : bool :=
  match c with
  | CLaunch _ | CNewContext _ | CNewPage | CBrowserClose | CContextClose
  | CScreenshot _ | CPageClose | CSetDefaultTimeout _ => false
  | _ => true
  end.

Definition is_screenshot (c : Call) : bool :=
  match c with
  | CScreenshot _ => true
  | _ => false
  end.

(** The calls that release a page or a browsing context. *)
Definition is_release (c : Call) : bool :=
  match c with
  | CPageClose | CContextClose => true
  | _ => false
  end.

(** No call after one that threw, and a routine that returned had no
    call that threw: [ok] tells whether the routine returned. *)
Fixpoint fail_fast (ok : bool) (evs : list Event) : bool :=
  match evs with
  | [] => true
  | [e] => returned e || negb ok
  | e :: rest => returned e && fail_fast ok rest
  end.

(** The result of a loop whose iterations give [verdict]: the first
    throw, if any. *)
Fixpoint first_throw {A} (verdict : A -> Outcome unit) (xs : list A) : Outcome unit :=
  match xs with
  | [] => Ok tt
  | x :: xs' =>
      match verdict x with
      | Ok _ => first_throw verdict xs'
      | Throw e => Throw e
      end
  end.

(** The iterations such a loop runs: up to and including the first that
    throws. *)
Fixpoint iterations {A} (verdict : A -> Outcome unit) (xs : list A) : list A :=
  match xs with
  | [] => []
  | x :: xs' => x :: (if is_ok (verdict x) then iterations verdict xs' else [])
  end.

Section Rows.
Context {U B C P : Type} (drv : Driver U B C P) (p : P) (u : U).

(** What one iteration of the navigation loop gives for the row
    (label, address), and the calls it makes. *)
Definition navigation_row_verdict (it : string * string) : Outcome unit :=
  let l := header_link (Some it.1) in
  match toBeVisible drv p l u with
  | Throw e => Throw e
  | Ok _ =>
      match getAttribute drv p l "href" u with
      | Throw e => Throw e
      | Ok (Some h) => if String.eqb h it.2 then Ok tt else Throw AssertionError
      | Ok None => Throw AssertionError
      end
  end.

Definition navigation_row_events (it : string * string) : list Event :=
  let l := header_link (Some it.1) in
  match toBeVisible drv p l u with
  | Throw _ => [ev (CToBeVisible l) false]
  | Ok _ =>
      [ev (CToBeVisible l) true;
       ev (CGetAttribute l "href") (is_ok (getAttribute drv p l "href" u))]
  end.

(** The same for a dropdown row holding [label]. *)
Definition dropdown_row_verdict (label : string) : Outcome unit :=
  toBeVisible drv p (link_named (Some label)) u.

Definition dropdown_row_events (label : string) : list Event :=
  [ev (CToBeVisible (link_named (Some label)))
      (is_ok (toBeVisible drv p (link_named (Some label)) u))].
End Rows.

(** [goto] calls a step may make. *)
Definition goto_bound (s : Step) : nat :=
  match s with
  | NavigateToHomepage => 1
  | _ => 0
  end.

(** Clicks a step may make. *)
Definition click_bound (s : Step) : nat :=
  match s with
  | AcceptCookieConsent | ClickNavigationItem _ | ClickLink _ => 1
  | _ => 0
  end.

(** Page loads a step may cause, by a [goto] or by a click. *)
Definition navigation_bound (s : Step) : nat := goto_bound s + click_bound s.

(** Element lookups a step may make. *)
Definition dom_query_bound (s : Step) : nat :=
  match s with
  | NavigateToHomepage | NavigatedTo _ | TitleContains _ => 0
  | AcceptCookieConsent => 2
  | NavigationItemsVisible t => 2 * length (hashes t)
  | ServicesVisible t | ImpactsVisible t => length (hashes t)
  | KeyboardAccessible => 2 * length keyboard_links
  | _ => 1
  end.

Definition is_cookie_step (s : Step) : bool :=
  match s with
  | AcceptCookieConsent => true
  | _ => false
  end.

(** A routine that only adds page calls to the trace, at most [ng]
    [goto] calls, [nc] clicks and [nq] element lookups, and leaves the
    handles and the attachments alone; when [strict], it also stops at
    the first call that throws and throws itself. *)
Definition well_behaved {U B C P} (ng nc nq : nat) (strict : bool)
    (m : M U B C P unit) : Prop :=
  forall w, exists evs,
    trace (m w).2 = trace w ++ evs
    /\ same_handles w (m w).2
    /\ Forall (fun e => is_page_call (call e) = true) evs
    /\ count_calls is_goto evs <= ng
    /\ count_calls is_click evs <= nc
    /\ count_calls is_dom_query evs <= nq
    /\ (strict = true -> fail_fast (is_ok (m w).1) evs = true).

(** Open browsing contexts along a trace, starting from [n]. *)
Definition live_from (n : nat) (t : list Event) : nat :=
  fold_left Runner.live_contexts_step t n.

(** The largest number of browsing contexts open at once along a trace. *)
Fixpoint peak_contexts (n : nat) (t : list Event) : nat :=
  match t with
  | [] => n
  | e :: t' => Nat.max n (peak_contexts (Runner.live_contexts_step n e) t')
  end.

Definition is_launch (c : Call) : bool :=
  match c with
  | CLaunch _ => true
  | _ => false
  end.

Definition is_browser_close (c : Call) : bool :=
  match c with
  | CBrowserClose => true
  | _ => false
  end.

(** The calls between the opening of a context and its release on
    which the release depends: obtaining the page, the screenshot, and
    the two closes. *)
Definition is_lifecycle (c : Call) : bool :=
  match c with
  | CNewPage | CScreenshot _ | CPageClose | CContextClose => true
  | _ => false
  end.

(** None of those calls threw. *)
Definition lifecycle_returned (t : list Event) : bool :=
  forallb (fun e => negb (is_lifecycle (call e)) || returned e) t.

End Observe.

(** ** [tests/header.spec.ts]

    The same checks written as tests of the driver's own runner: each
    test is given the page, [beforeEach] runs before every one. *)
Module HeaderSpec.
Import Playwright Effects.
Local Open Scope suite_scope.

Definition home : string := "https://www.kainos.com".

(** [page.getByRole('link', { name })] and [page.getByRole('button', { name })] *)
Definition link (name : string) : Locator := ByRole Link (Some (NameText name false)).
Definition button (name : string) : Locator := ByRole Button (Some (NameText name false)).

Definition cookies_button : Locator := button "I Accept Cookies".

Definition logo : Locator := Css ".header__logo img".
Definition logo_link : Locator := Css ".header__logo".
Definition logo_path : string := "/globalassets/images/5_logos/kainos_logo.png".

Definition navItems : list (string * string) :=
  [ ("Digital Services", "/digital-services");
    ("Workday", "/workday");
    ("Industries", "/industries");
    ("Insights", "/insights");
    ("Careers", "https://careers.kainos.com/gb/en") ].

Definition services : list string :=
  [ "Digital Advisory"; "Cloud and engineering"; "Data and AI";
    "AI Business Solutions"; "User-centred design"; "Managed services" ].

Definition impacts : list string :=
  [ "Building digital transformation"; "Driving continuous improvement";
    "Improving business performance"; "Improving customer engagement" ].

(** [page.locator('nav[aria-label="Main navigation"]')] *)
Definition navigation : Locator :=
  Css ("nav[aria-label=" +:+ HeaderSteps.dq +:+ "Main navigation" +:+ HeaderSteps.dq +:+ "]").

Definition interactiveElements : list Locator :=
  [ link "Digital Services"; link "Workday"; button "Search" ].

Section Tests.
Context {U B C P : Type} (drv : Driver U B C P).
Local Abbreviation M := (M U B C P).

(** test.beforeEach *)
Definition beforeEach (p : P) : M unit :=
  page_goto drv p home;;
  visible ← locator_isVisible drv p cookies_button;
  if visible : bool then locator_click drv p cookies_button else ret tt.

(** test('should verify logo presence and functionality') *)
Definition logo_test (p : P) : M unit :=
  expect_toBeVisible drv p logo;;
  logoSrc ← locator_getAttribute drv p logo "src";
  expect_toContain logoSrc logo_path;;
  expect_toHaveAttribute drv p logo_link "href" "/".

(** The body of the loop of 'should verify main navigation items'. *)
Definition check_item (p : P) (item : string * string) : M unit :=
  let navLink := link item.1 in
  expect_toBeVisible drv p navLink;;
  expect_toHaveAttribute drv p navLink "href" item.2.

(** test('should verify main navigation items') *)
Definition navigation_test (p : P) : M unit :=
  for_of navItems (check_item p).

(** test('should verify right-side header elements') *)
Definition right_side_test (p : P) : M unit :=
  expect_toBeVisible drv p (button "Open Share icons modal window");;
  expect_toBeVisible drv p (link "Get in touch");;
  expect_toHaveAttribute drv p (link "Get in touch") "href" "/contact-us";;
  expect_toBeVisible drv p (button "Search").

(** test('should verify Digital Services dropdown menu') *)
Definition dropdown_test (p : P) : M unit :=
  locator_hover drv p (link "Digital Services");;
  for_of services (fun service => expect_toBeVisible drv p (link service));;
  for_of impacts (fun impact => expect_toBeVisible drv p (link impact)).

(** test('should verify header accessibility') *)
Definition accessibility_test (p : P) : M unit :=
  expect_toBeVisible drv p navigation;;
  for_of interactiveElements (fun element =>
    locator_focus drv p element;;
    expect_toBeFocused drv p element).

End Tests.

End HeaderSpec.

(** ** Decimal digits *)
Module Digits.

(** The code units 0 to 9. *)
Definition is_digit (c : ascii) : bool :=
  let n := N_of_ascii c in ((48 <=? n) && (n <=? 57))%N.

End Digits.

(** * Properties *)

(** ** Strings *)
Section StringFacts.

Lemma append_cons (c : ascii) (s1 s2 : string) :
  String c s1 +:+ s2 = String c (s1 +:+ s2).
Proof. reflexivity. Qed.

Lemma append_nil (s : string) : EmptyString +:+ s = s.
Proof. reflexivity. Qed.

Lemma string_prefix_app (p s : string) :
  String.prefix p s = true <-> exists post, s = p +:+ post.
Proof.
  revert s. induction p as [|a p IH]; intros s; simpl.
  - split; [intros _; exists s; reflexivity | destruct s; reflexivity].
  - destruct s as [|b s]; simpl.
    + split; [discriminate | intros [post H]; rewrite append_cons in H; discriminate].
    + destruct (ascii_dec a b) as [->|Hne].
      * rewrite IH. split; intros [post H]; exists post; rewrite append_cons in *; congruence.
      * split; [discriminate | intros [post H]; rewrite append_cons in H; congruence].
Qed.

(** [includes] finds exactly the substrings. *)
Lemma includes_app (sub s : string) :
  JS.includes sub s = true <-> exists pre post, s = pre +:+ sub +:+ post.
Proof.
  induction s as [|c s IH].
  - change (JS.includes sub EmptyString) with (String.prefix sub EmptyString || false).
    rewrite orb_false_r, string_prefix_app. split.
    + intros [post H]. exists EmptyString, post. exact H.
    + intros [pre [post H]]. destruct pre; [eauto | rewrite append_cons in H; discriminate].
  - change (JS.includes sub (String c s))
      with (String.prefix sub (String c s) || JS.includes sub s).
    rewrite orb_true_iff, IH, string_prefix_app. split.
    + intros [[post H] | [pre [post H]]].
      * exists EmptyString, post. exact H.
      * exists (String c pre), post. rewrite append_cons. congruence.
    + intros [pre [post H]]. destruct pre as [|c' pre].
      * left. eauto.
      * right. exists pre, post. rewrite append_cons in H. congruence.
Qed.

Lemma all_chars_app f s1 s2 :
  JS.all_chars f (s1 +:+ s2) = JS.all_chars f s1 && JS.all_chars f s2.
Proof.
  induction s1 as [|c s1 IH]; [reflexivity|].
  rewrite append_cons. simpl. rewrite IH, andb_assoc. reflexivity.
Qed.

(** After the replacement no white space is left, when the replacement
    itself has none. *)
Lemma replace_ws_from_clean (r : string) :
  JS.no_white_space r = true ->
  forall s b, JS.no_white_space (JS.replace_ws_from b r s) = true.
Proof.
  unfold JS.no_white_space. intros Hr. induction s as [|c s IH]; intros b; simpl; [reflexivity|].
  destruct (JS.is_white_space c) eqn:Hc.
  - destruct b; [apply IH|]. rewrite all_chars_app, Hr, IH. reflexivity.
  - simpl. rewrite Hc, IH. reflexivity.
Qed.

(** A string without white space is left as it is. *)
Lemma replace_ws_from_id (r s : string) :
  JS.no_white_space s = true ->
  forall b, JS.replace_ws_from b r s = s.
Proof.
  unfold JS.no_white_space. induction s as [|c s IH]; simpl; [reflexivity|].
  intros H b. apply andb_true_iff in H as [Hc Hs].
  destruct (JS.is_white_space c); [discriminate|]. rewrite IH by assumption. reflexivity.
Qed.

End StringFacts.

(** ** Regular expressions *)
Section RegExpFacts.
Import RegExp.

Lemma plain_cases (c : ascii) :
  is_plain c = true ->
  Ascii.eqb c backslash = false /\ Ascii.eqb c "." = false /\ Ascii.eqb c "*" = false
  /\ Ascii.eqb c "+" = false /\ Ascii.eqb c "?" = false
  /\ is_syntax_char c = false /\ JS.is_ascii c = true.
Proof.
  unfold is_plain. intros H. apply andb_true_iff in H as [Hs Ha].
  apply negb_true_iff in Hs. repeat split; try assumption;
    unfold is_syntax_char in Hs; simpl in Hs;
    repeat (apply orb_false_iff in Hs as [? Hs]); assumption.
Qed.

Lemma parse_plain (s : string) :
  JS.all_chars is_plain s = true ->
  forall st acc, parse_from st acc s = Some (Some (rev acc ++ literal_terms s)).
Proof.
  induction s as [|c s IH]; simpl; intros H st acc.
  - rewrite app_nil_r. reflexivity.
  - apply andb_true_iff in H as [Hc Hs].
    destruct (plain_cases c Hc) as (-> & -> & -> & -> & -> & -> & ->).
    rewrite IH by assumption. simpl. rewrite <- app_assoc. reflexivity.
Qed.

Lemma match_here_literal (p s : string) :
  match_here true (literal_terms p) s = JS.prefix_ci p s.
Proof.
  revert s. induction p as [|a p IH]; intros s; simpl; [reflexivity|].
  destruct s as [|b s]; [reflexivity|]. rewrite IH. reflexivity.
Qed.

Lemma search_literal (p s : string) :
  search true (literal_terms p) s = JS.includes_ci p s.
Proof.
  induction s as [|c s IH]; simpl; rewrite match_here_literal; [reflexivity|].
  rewrite IH. reflexivity.
Qed.

(** A pattern of plain characters with the flag [i] tests for a
    case-insensitive substring. *)
Lemma plain_pattern_is_substring (p : string) :
  JS.all_chars is_plain p = true ->
  exists r, compile p "i" = Parsed r /\ forall s, test r s = JS.includes_ci p s.
Proof.
  intros H. exists (mk (literal_terms p) true). split.
  - unfold compile. rewrite (parse_plain p H). reflexivity.
  - intros s. apply search_literal.
Qed.

End RegExpFacts.

(** ** The fragment of the pattern language against its grammar and meaning *)
Section FragmentFacts.
Import RegExp.

Lemma upper_code (c : ascii) :
  N_of_ascii (JS.ascii_upper c)
  = (if ((97 <=? N_of_ascii c) && (N_of_ascii c <=? 122))%N
     then N_of_ascii c - 32 else N_of_ascii c)%N.
Proof.
  unfold JS.ascii_upper.
  destruct ((97 <=? N_of_ascii c) && (N_of_ascii c <=? 122))%N eqn:H; [|reflexivity].
  apply N_ascii_embedding. pose proof (N_ascii_bounded c). lia.
Qed.

Lemma same_code (c u : ascii) : N_of_ascii c = N_of_ascii u -> c = u.
Proof.
  intros H. rewrite <- (ascii_N_embedding c), <- (ascii_N_embedding u), H. reflexivity.
Qed.

Ltac codes :=
  repeat match goal with
         | H : (_ && _)%bool = true |- _ => apply andb_true_iff in H as [? ?]
         | H : (_ && _)%bool = false |- _ => apply andb_false_iff in H as [?|?]
         | H : (_ <=? _)%N = true |- _ => apply N.leb_le in H
         | H : (_ <=? _)%N = false |- _ => apply N.leb_gt in H
         end.

(** The matcher's test of one code unit is the relation [Accepts]. *)
Lemma atom_matches_accepts (ic : bool) (a : Atom) (u : ascii) :
  atom_matches ic a u = true <-> Accepts ic a u.
Proof.
  destruct a as [c|]; cbn [atom_matches].
  - destruct ic.
    + rewrite Ascii.eqb_eq. split.
      * intros H. apply (f_equal N_of_ascii) in H. rewrite !upper_code in H.
        destruct ((97 <=? N_of_ascii c) && (N_of_ascii c <=? 122))%N eqn:Hc;
          destruct ((97 <=? N_of_ascii u) && (N_of_ascii u <=? 122))%N eqn:Hu; codes;
          first [ assert (c = u) as -> by (apply same_code; lia); constructor
                | apply accepts_upper; [reflexivity|]; unfold upper_of; lia
                | apply accepts_lower; [reflexivity|]; unfold upper_of; lia ].
      * intros H. apply same_code. rewrite !upper_code.
        inversion H as [c0 | c0 u0 _ (H1 & H2 & H3) | c0 u0 _ (H1 & H2 & H3) |]; subst;
          [reflexivity | |];
          destruct ((97 <=? N_of_ascii c) && (N_of_ascii c <=? 122))%N eqn:Hc;
          destruct ((97 <=? N_of_ascii u) && (N_of_ascii u <=? 122))%N eqn:Hu; codes; lia.
    + rewrite Ascii.eqb_eq. split.
      * intros ->. constructor.
      * intros H. inversion H; subst; [reflexivity | discriminate | discriminate].
  - unfold is_line_terminator. rewrite negb_true_iff, orb_false_iff, !N.eqb_neq. split.
    + intros [H1 H2]. constructor; assumption.
    + intros H. inversion H. split; assumption.
Qed.

Lemma match_here_star_cons (ic : bool) (a : Atom) (p : list Term) (u : ascii) (s : string) :
  match_here ic ((a, Star) :: p) (String u s)
  = match_here ic p (String u s)
    || atom_matches ic a u && match_here ic ((a, Star) :: p) s.
Proof. reflexivity. Qed.

Lemma match_here_star_nil (ic : bool) (a : Atom) (p : list Term) :
  match_here ic ((a, Star) :: p) EmptyString = match_here ic p EmptyString.
Proof. cbn. apply orb_false_r. Qed.

Lemma match_here_plus_cons (ic : bool) (a : Atom) (p : list Term) (u : ascii) (s : string) :
  match_here ic ((a, Plus) :: p) (String u s)
  = atom_matches ic a u && match_here ic ((a, Star) :: p) s.
Proof. reflexivity. Qed.

Local Abbreviation Matches ic p s := (exists m rest, s = m +:+ rest /\ Lang ic p m).

Lemma star_spec (ic : bool) (a : Atom) (p : list Term) :
  (forall s, match_here ic p s = true <-> Matches ic p s) ->
  forall s, match_here ic ((a, Star) :: p) s = true <-> Matches ic ((a, Star) :: p) s.
Proof.
  intros IHp s. split.
  - induction s as [|u s IHs].
    + rewrite match_here_star_nil. intros H. apply IHp in H as (m & rest & Hs & Hm).
      exists m, rest. split; [exact Hs | apply lang_star_none, Hm].
    + rewrite match_here_star_cons. intros H. apply orb_true_iff in H as [H|H].
      * apply IHp in H as (m & rest & Hs & Hm).
        exists m, rest. split; [exact Hs | apply lang_star_none, Hm].
      * apply andb_true_iff in H as [Ha H]. apply IHs in H as (m & rest & -> & Hm).
        exists (String u m), rest. split; [reflexivity|].
        apply lang_star_more; [apply atom_matches_accepts, Ha | exact Hm].
  - intros (m & rest & -> & Hm).
    remember ((a, Star) :: p) as q eqn:Hq.
    induction Hm as [| | | | a0 p0 m Hm _ | a0 p0 u m Ha Hm IH |]; try discriminate Hq.
    + injection Hq as -> ->.
      assert (H : match_here ic p (m +:+ rest) = true) by (apply IHp; eauto).
      destruct (m +:+ rest) as [|u s].
      * rewrite match_here_star_nil. exact H.
      * rewrite match_here_star_cons, H. reflexivity.
    + injection Hq as -> ->. rewrite append_cons, match_here_star_cons.
      apply atom_matches_accepts in Ha. rewrite Ha, (IH eq_refl). apply orb_true_r.
Qed.

(** The matcher accepts a prefix of [s] exactly when the terms match
    one. *)
Lemma match_here_spec (ic : bool) (p : list Term) (s : string) :
  match_here ic p s = true <-> Matches ic p s.
Proof.
  revert s. induction p as [|[a q] p IH]; intros s.
  - split; [intros _; exists EmptyString, s; split; [reflexivity | constructor] | reflexivity].
  - destruct q.
    + (* once *)
      destruct s as [|u s]; cbn [match_here].
      * split; [discriminate|]. intros (m & rest & Hs & Hm). inversion Hm; subst.
        rewrite append_cons in Hs. discriminate.
      * rewrite andb_true_iff, atom_matches_accepts, IH. split.
        -- intros (Ha & m & rest & -> & Hm). exists (String u m), rest.
           split; [reflexivity | constructor; assumption].
        -- intros (m & rest & Hs & Hm). inversion Hm; subst.
           rewrite append_cons in Hs. injection Hs as -> ->. eauto.
    + apply star_spec, IH.
    + (* plus *)
      destruct s as [|u s].
      * split; [discriminate|]. intros (m & rest & Hs & Hm). inversion Hm; subst.
        rewrite append_cons in Hs. discriminate.
      * rewrite match_here_plus_cons, andb_true_iff, atom_matches_accepts, (star_spec ic a p IH).
        split.
        -- intros (Ha & m & rest & -> & Hm). exists (String u m), rest.
           split; [reflexivity | constructor; assumption].
        -- intros (m & rest & Hs & Hm). inversion Hm; subst.
           rewrite append_cons in Hs. injection Hs as -> ->. eauto.
    + (* optional *)
      change (match_here ic p s
              || match s with
                 | EmptyString => false
                 | String u s' => atom_matches ic a u && match_here ic p s'
                 end = true
              <-> Matches ic ((a, Opt) :: p) s).
      rewrite orb_true_iff, IH. split.
      * intros [(m & rest & Hs & Hm) | H].
        -- exists m, rest. split; [exact Hs | apply lang_opt_none, Hm].
        -- destruct s as [|u s]; [discriminate|].
           apply andb_true_iff in H as [Ha H]. apply IH in H as (m & rest & -> & Hm).
           exists (String u m), rest. split; [reflexivity|].
           apply lang_opt_one; [apply atom_matches_accepts, Ha | exact Hm].
      * intros (m & rest & Hs & Hm). inversion Hm; subst.
        -- left. eauto.
        -- right. rewrite append_cons. apply andb_true_iff. split.
           ++ apply atom_matches_accepts. assumption.
           ++ apply IH. eauto.
Qed.

(** [test] looks for a match anywhere in the string. *)
Lemma search_spec (ic : bool) (p : list Term) (s : string) :
  search ic p s = true <-> exists pre m post, s = pre +:+ m +:+ post /\ Lang ic p m.
Proof.
  induction s as [|c s IH].
  - cbn [search]. rewrite orb_false_r, match_here_spec. split.
    + intros (m & rest & Hs & Hm). exists EmptyString, m, rest. split; assumption.
    + intros (pre & m & post & Hs & Hm). destruct pre; [|rewrite append_cons in Hs; discriminate].
      exists m, post. split; assumption.
  - cbn [search]. rewrite orb_true_iff, match_here_spec, IH. split.
    + intros [(m & rest & Hs & Hm) | (pre & m & post & Hs & Hm)].
      * exists EmptyString, m, rest. split; assumption.
      * exists (String c pre), m, post. rewrite append_cons, Hs. split; [reflexivity | exact Hm].
    + intros (pre & m & post & Hs & Hm). destruct pre as [|c' pre].
      * left. exists m, post. split; assumption.
      * right. rewrite append_cons in Hs. injection Hs as -> ->. eauto.
Qed.

(** *** The parser against the grammar *)

Lemma escaped_cases (e : ascii) :
  is_syntax_char e = true \/ e = "/"%char ->
  is_syntax_char e || Ascii.eqb e "/" = true.
Proof. intros [->| ->]; [reflexivity | apply orb_true_r]. Qed.

(** After the source of an atom the parser has the atom, unquantified,
    on top of what it had. *)
Lemma parse_atom (sa : string) (a : Atom) :
  AtomSource sa a ->
  forall st acc rest,
    parse_from st acc (sa +:+ rest) = parse_from AfterAtom ((a, Once) :: acc) rest.
Proof.
  intros Ha st acc rest. destruct Ha as [c Hc | | e He].
  - destruct (plain_cases c Hc) as (H1 & H2 & H3 & H4 & H5 & H6 & H7).
    rewrite append_cons, append_nil. cbn [parse_from].
    rewrite H1, H2, H3, H4, H5, H6, H7. reflexivity.
  - reflexivity.
  - rewrite !append_cons, append_nil. cbn [parse_from].
    rewrite Ascii.eqb_refl, (escaped_cases e He). reflexivity.
Qed.

(** The grammar's reading of a source is the parser's. *)
Lemma parse_from_parses (s : string) (ts : list Term) :
  Parses s ts ->
  forall st acc, parse_from st acc s = Some (Some (rev acc ++ ts)).
Proof.
  induction 1 as [|sa a sq q rest ts Ha Hq _ IH]; intros st acc.
  - cbn. rewrite app_nil_r. reflexivity.
  - rewrite (parse_atom sa a Ha).
    destruct Hq; rewrite ?append_cons, ?append_nil; cbn [parse_from Ascii.eqb];
      cbn; rewrite IH; cbn [rev set_quant]; rewrite <- ?app_assoc; reflexivity.
Qed.

Lemma plain_parses (s : string) :
  JS.all_chars is_plain s = true -> Parses s (literal_terms s).
Proof.
  induction s as [|c s IH]; cbn [JS.all_chars literal_terms]; intros H; [constructor|].
  apply andb_true_iff in H as [Hc Hs].
  apply (parses_term (String c EmptyString) (Lit c) EmptyString Once s (literal_terms s)).
  - constructor. exact Hc.
  - constructor.
  - apply IH, Hs.
Qed.

(** A pattern of plain characters matches, from end to end, the strings
    that have its characters one by one, a letter in either case. *)
Lemma lang_literal (p m : string) :
  Lang true (literal_terms p) m
  <-> Forall2 (fun c u => c = u \/ upper_of c u \/ upper_of u c)
        (list_ascii_of_string p) (list_ascii_of_string m).
Proof.
  revert m. induction p as [|c p IH]; intros m; cbn [literal_terms list_ascii_of_string].
  - split.
    + intros H. inversion H. constructor.
    + intros H. inversion H as [Hm|]. destruct m; [constructor | discriminate].
  - split.
    + intros H. inversion H as [|a p0 u m0 Ha Hm| | | | |]; subst.
      cbn [list_ascii_of_string]. constructor; [|apply IH, Hm].
      inversion Ha; subst; auto.
    + intros H. destruct m as [|u m]; cbn [list_ascii_of_string] in H; inversion H; subst.
      constructor; [|apply IH; assumption].
      match goal with Hc : _ \/ _ |- _ => destruct Hc as [->|[Hc|Hc]] end;
        [apply accepts_same | apply accepts_upper | apply accepts_lower]; auto.
Qed.

(** Where no quantifier can stand the state of the parser is not
    consulted. *)
Lemma parse_boundary (st : ParseState) (acc : list Term) (s : string) (ts : list Term) :
  parse_from st acc s = Some (Some ts) ->
  match s with
  | EmptyString => True
  | String c _ => c <> "*"%char /\ c <> "+"%char /\ c <> "?"%char
  end ->
  parse_from Start acc s = Some (Some ts).
Proof.
  destruct s as [|c s]; [intros H _; exact H|].
  intros H (H1 & H2 & H3). cbn [parse_from] in *.
  apply Ascii.eqb_neq in H1, H2, H3. rewrite H1, H2, H3 in *. exact H.
Qed.

(** A parse that succeeds after a lazy mark, or after a quantifier not
    followed by the mark, goes on as from the start. *)
Lemma parse_after_lazy (acc : list Term) (s : string) (ts : list Term) :
  parse_from AfterLazy acc s = Some (Some ts) -> parse_from Start acc s = Some (Some ts).
Proof.
  intros H. apply (parse_boundary AfterLazy); [exact H|].
  destruct s as [|c s]; [exact I|].
  repeat split; intros ->; cbn in H; discriminate.
Qed.

Lemma parse_after_quant (acc : list Term) (s : string) (ts : list Term) :
  parse_from AfterQuant acc s = Some (Some ts) ->
  match s with
  | String c _ => c <> "?"%char
  | EmptyString => True
  end ->
  parse_from Start acc s = Some (Some ts).
Proof.
  intros H Hq. apply (parse_boundary AfterQuant); [exact H|].
  destruct s as [|c s]; [exact I|].
  repeat split; try exact Hq; intros ->; cbn in H; discriminate.
Qed.

(** What the parser reads after an atom: a quantifier, lazy or not, or
    none; then it goes on as from the start. *)
Lemma parse_quant (a : Atom) (acc : list Term) (s : string) (ts : list Term) :
  parse_from AfterAtom ((a, Once) :: acc) s = Some (Some ts) ->
  exists sq q rest,
    s = sq +:+ rest /\ QuantSource sq q
    /\ String.length rest <= String.length s
    /\ parse_from Start ((a, q) :: acc) rest = Some (Some ts).
Proof.
  intros H.
  assert (Hnone :
    match s with
    | String c _ => c <> "*"%char /\ c <> "+"%char /\ c <> "?"%char
    | EmptyString => True
    end ->
    exists sq q rest,
      s = sq +:+ rest /\ QuantSource sq q
      /\ String.length rest <= String.length s
      /\ parse_from Start ((a, q) :: acc) rest = Some (Some ts)).
  { intros Hs. exists EmptyString, Once, s. split; [reflexivity|]. split; [constructor|].
    split; [lia|]. apply (parse_boundary AfterAtom); assumption. }
  destruct s as [|c s]; [apply Hnone; exact I|].
  destruct (Ascii.eqb_spec c "*") as [->|H1];
    [|destruct (Ascii.eqb_spec c "+") as [->|H2];
      [|destruct (Ascii.eqb_spec c "?") as [->|H3]; [|apply Hnone; auto]]];
    clear Hnone; cbn [parse_from Ascii.eqb] in H; cbn in H;
    (destruct s as [|c2 s2];
     [ eexists (String _ EmptyString), _, EmptyString;
       split; [reflexivity|]; split; [constructor|]; split; [cbn; lia | exact H]
     | destruct (Ascii.eqb_spec c2 "?") as [->|Hc2];
       [ cbn in H; apply parse_after_lazy in H;
         eexists (String _ (String "?" EmptyString)), _, s2;
         split; [reflexivity|]; split; [constructor|]; split; [cbn; lia | exact H]
       | apply parse_after_quant in H; [|exact Hc2];
         eexists (String _ EmptyString), _, (String c2 s2);
         split; [reflexivity|]; split; [constructor|]; split; [cbn; lia | exact H] ] ]).
Qed.

Lemma parse_sound_within (n : nat) :
  forall s, String.length s <= n ->
  forall acc ts,
    parse_from Start acc s = Some (Some ts) ->
    exists ts', Parses s ts' /\ ts = rev acc ++ ts'.
Proof.
  induction n as [|n IH]; intros s Hn acc ts H.
  - destruct s; [|cbn in Hn; lia]. cbn in H. injection H as <-.
    exists []. split; [constructor | rewrite app_nil_r; reflexivity].
  - destruct s as [|c s].
    { cbn in H. injection H as <-.
      exists []. split; [constructor | rewrite app_nil_r; reflexivity]. }
    cbn [String.length] in Hn. cbn [parse_from] in H.
    assert (Hitem : forall (sa : string) (a : Atom) (s1 : string),
               AtomSource sa a -> String.length s1 <= n ->
               parse_from AfterAtom ((a, Once) :: acc) s1 = Some (Some ts) ->
               exists ts', Parses (sa +:+ s1) ts' /\ ts = rev acc ++ ts').
    { intros sa a s1 Ha Hlen Hs1.
      apply parse_quant in Hs1 as (sq & q & rest & -> & Hq & Hrest & Hs1).
      apply IH in Hs1 as (ts' & Hp & ->); [|lia].
      exists ((a, q) :: ts'). split; [constructor; assumption|].
      cbn [rev]. rewrite <- app_assoc. reflexivity. }
    destruct (Ascii.eqb_spec c backslash) as [->|Hb].
    + destruct s as [|e s]; [discriminate|].
      destruct (is_syntax_char e || Ascii.eqb e "/") eqn:He; [|discriminate].
      apply (Hitem (String backslash (String e EmptyString)) (Lit e) s);
        [|cbn [String.length] in Hn; lia | exact H].
      constructor. apply orb_true_iff in He as [He|He]; [left; exact He|].
      right. apply Ascii.eqb_eq, He.
    + destruct (Ascii.eqb_spec c ".") as [->|Hd].
      { apply (Hitem "." AnyChar s); [constructor | lia | exact H]. }
      destruct (Ascii.eqb c "*"); [discriminate|].
      destruct (Ascii.eqb c "+"); [discriminate|].
      destruct (Ascii.eqb c "?"); [discriminate|].
      destruct (is_syntax_char c) eqn:Hs; [discriminate|].
      destruct (JS.is_ascii c) eqn:Ha; [|discriminate].
      apply (Hitem (String c EmptyString) (Lit c) s); [|lia | exact H].
      constructor. unfold is_plain. rewrite Hs, Ha. reflexivity.
Qed.

(** With the flag [i], a source is in the fragment exactly when the
    grammar reads it, and the pattern has the terms the grammar gives. *)
Lemma compile_parses (source : string) (r : t) :
  compile source "i" = Parsed r <-> Parses source (terms r) /\ ignore_case r = true.
Proof.
  unfold compile. cbn. split.
  - destruct (parse_from Start [] source) as [[ts|]|] eqn:H; try discriminate.
    intros Hr. injection Hr as <-. cbn. split; [|reflexivity].
    destruct (parse_sound_within (String.length source) source (le_n _) [] ts H)
      as (ts' & Hp & ->).
    exact Hp.
  - intros [Hp Hi]. rewrite (parse_from_parses _ _ Hp Start []).
    destruct r as [ts ic]. cbn in *. subst ic. reflexivity.
Qed.

End FragmentFacts.

(** ** The whole grammar against the fragment *)
Section GrammarFacts.
Import RegExp.

Lemma syntax_char_cases (c : ascii) :
  is_syntax_char c = false ->
  Ascii.eqb c backslash = false /\ Ascii.eqb c "(" = false /\ Ascii.eqb c ")" = false
  /\ Ascii.eqb c "|" = false /\ Ascii.eqb c "^" = false /\ Ascii.eqb c "$" = false
  /\ Ascii.eqb c "*" = false /\ Ascii.eqb c "+" = false /\ Ascii.eqb c "?" = false
  /\ Ascii.eqb c "{" = false /\ Ascii.eqb c "[" = false /\ Ascii.eqb c "." = false.
Proof.
  unfold is_syntax_char. cbn [existsb]. intros H.
  repeat (apply orb_false_iff in H as [? H]). repeat split; assumption.
Qed.

Lemma escaped_not_special (e : ascii) :
  is_syntax_char e || Ascii.eqb e "/" = true ->
  Ascii.eqb e "b" || Ascii.eqb e "B" = false /\ Ascii.eqb e "k" = false.
Proof.
  unfold is_syntax_char. cbn [existsb]. intros H.
  repeat (apply orb_true_iff in H as [H|H]); try discriminate H;
    apply Ascii.eqb_eq in H; subst e; split; reflexivity.
Qed.

(** On a source the fragment reads, or rejects, the whole grammar
    agrees with it. *)
Lemma scan_fragment (fuel : nat) :
  forall s st acc,
    String.length s < fuel ->
    match parse_from st acc s with
    | Some (Some _) =>
        scan fuel None []
          match st with
          | AfterAtom => Quantifiable
          | AfterQuant => Quantified
          | Start | AfterLazy => NoTerm
          end [] s = Some []
    | Some None =>
        scan fuel None []
          match st with
          | AfterAtom => Quantifiable
          | AfterQuant => Quantified
          | Start | AfterLazy => NoTerm
          end [] s = None
    | None => True
    end.
Proof.
  induction fuel as [|fuel IH]; intros s st acc Hfuel; [lia|].
  destruct s as [|c s]; [reflexivity|].
  cbn [String.length] in Hfuel. apply PeanoNat.lt_S_n in Hfuel.
  cbn [parse_from scan].
  destruct (Ascii.eqb_spec c backslash) as [->|Hb].
  { destruct s as [|e s]; [reflexivity|].
    destruct (is_syntax_char e || Ascii.eqb e "/") eqn:He; [|exact I].
    destruct (escaped_not_special e He) as [-> ->].
    cbn [String.length] in Hfuel.
    apply (IH s AfterAtom). lia. }
  destruct (Ascii.eqb_spec c ".") as [->|Hd].
  { apply (IH s AfterAtom). lia. }
  destruct (Ascii.eqb_spec c "*") as [->|Hstar].
  { cbn. destruct st; try reflexivity. apply (IH s AfterQuant). lia. }
  destruct (Ascii.eqb_spec c "+") as [->|Hplus].
  { cbn. destruct st; try reflexivity. apply (IH s AfterQuant). lia. }
  destruct (Ascii.eqb_spec c "?") as [->|Hopt].
  { cbn. destruct st; try reflexivity;
      [apply (IH s AfterQuant) | apply (IH s AfterLazy)]; lia. }
  destruct (is_syntax_char c) eqn:Hs; [exact I|].
  destruct (JS.is_ascii c); [|exact I].
  destruct (syntax_char_cases c Hs)
    as (_ & H1 & H2 & H3 & H4 & H5 & _ & _ & _ & H6 & H7 & _).
  rewrite H1, H2, H3, H4, H5, H6, H7. cbn. apply (IH s AfterAtom). lia.
Qed.

Lemma well_formed_fragment (source flags : string) :
  match compile source flags with
  | Parsed _ => well_formed source = true
  | SyntaxError => well_formed source = false
  | Unsupported => True
  end.
Proof.
  pose proof (scan_fragment (S (String.length source)) source Start []
                (PeanoNat.Nat.lt_succ_diag_r _)) as H.
  unfold compile, well_formed.
  destruct (parse_from Start [] source) as [[ts|]|].
  - rewrite H. destruct (if String.eqb flags "i" then _ else _); exact I || reflexivity.
  - rewrite H. destruct (if String.eqb flags "i" then _ else _); reflexivity.
  - destruct (if String.eqb flags "i" then _ else _); exact I.
Qed.
End GrammarFacts.

(** ** Running the routines *)

Import Playwright Cucumber Effects HeaderSteps Observe.

Ltac unfold_calls :=
  unfold page_goto, page_waitForTimeout, page_waitForLoadState, page_url, page_title,
    page_screenshot, page_close, page_setDefaultTimeout, locator_isVisible,
    locator_getAttribute, locator_click, locator_hover, locator_focus,
    expect_toBeVisible, expect_toHaveAttribute, expect_toBeFocused, chromium_launch,
    browser_newContext, context_newPage, browser_close, context_close, new_RegExp,
    date_now, this_attach in *.

Ltac unfold_monad :=
  unfold expect_toBe, expect_toContain in *;
  unfold bind, ret, throw, catch, this_page, query in *;
  unfold action in *; unfold record_call, appended in *;
  unfold set_univ, set_browser, set_page, set_context, set_attachments in *;
  unfold set_trace in *.

Ltac unfold_steps :=
  unfold run_step, navigate_to_homepage, accept_cookie_consent, logo_should_be_visible,
    logo_should_contain_source, logo_should_link_home, navigation_items_should_be_visible,
    check_navigation_row, button_should_be_visible, link_should_be_visible,
    link_should_point_to, hover_navigation_item, services_should_be_visible,
    impacts_should_be_visible, check_dropdown_row, click_navigation_item, click_link,
    should_be_navigated_to, title_should_contain, links_should_be_keyboard_accessible,
    header_should_have_landmarks in *.

(** Case analysis on the next driver answer the goal depends on. *)
Ltac next_answer :=
  match goal with
  | |- context [match ?x with _ => _ end] =>
      lazymatch x with
      | context [match _ with _ => _ end] => fail
      | _ => destruct x as [] eqn:?
      end
  | |- context [if ?x then _ else _] =>
      lazymatch x with
      | context [match _ with _ => _ end] => fail
      | context [if _ then _ else _] => fail
      | _ => destruct x eqn:?
      end
  end; simpl in *.

Section RunFacts.
Context {U B C P : Type} (drv : Driver U B C P).
Local Abbreviation World := (World U B C P).

Lemma ok_unit (r : Outcome unit) : is_ok r = true <-> r = Ok tt.
Proof. destruct r as [[]|e]; simpl; split; congruence. Qed.

(** *** Loops *)

Lemma for_of_map {A A'} (f : A -> A') (body : A' -> M U B C P unit) (xs : list A) :
  for_of (map f xs) body = for_of xs (fun x => body (f x)).
Proof. induction xs as [|x xs IH]; simpl; [reflexivity | rewrite IH; reflexivity]. Qed.

(** A loop whose body only adds calls to the trace. *)
Lemma for_of_readonly {A} (body : A -> M U B C P unit) (verdict : A -> Outcome unit)
    (evs : A -> list Event) u b pg c a :
  (forall x t, body x (mkWorld u b pg c a t) = (verdict x, mkWorld u b pg c a (t ++ evs x))) ->
  forall xs t,
    for_of xs body (mkWorld u b pg c a t)
    = (first_throw verdict xs,
       mkWorld u b pg c a (t ++ flat_map evs (iterations verdict xs))).
Proof.
  intros Hbody. induction xs as [|x xs IH]; intros t; simpl.
  - unfold ret. rewrite app_nil_r. reflexivity.
  - unfold bind. rewrite Hbody. destruct (verdict x) as [[]|e]; simpl.
    + rewrite IH, <- app_assoc. reflexivity.
    + rewrite app_nil_r. reflexivity.
Qed.

Lemma first_throw_ok {A} (verdict : A -> Outcome unit) (xs : list A) :
  first_throw verdict xs = Ok tt <-> Forall (fun x => verdict x = Ok tt) xs.
Proof.
  induction xs as [|x xs IH]; simpl.
  - split; [constructor | reflexivity].
  - destruct (verdict x) as [[]|e] eqn:Hx.
    + rewrite IH. split; [intros H; constructor; assumption | intros H; inversion H; assumption].
    + split; [discriminate | intros H; inversion H; congruence].
Qed.

Lemma iterations_all {A} (verdict : A -> Outcome unit) (xs : list A) :
  first_throw verdict xs = Ok tt -> iterations verdict xs = xs.
Proof.
  induction xs as [|x xs IH]; simpl; [reflexivity|].
  destruct (verdict x) as [[]|e]; simpl; [intros H; rewrite IH by assumption; reflexivity|].
  discriminate.
Qed.

(** The calls of a loop follow the list: they are a prefix of the calls
    of all the iterations. *)
Lemma iterations_prefix {A} (verdict : A -> Outcome unit) (evs : A -> list Event)
    (calls : A -> list Call) (xs : list A) :
  (forall x, map call (evs x) `prefix_of` calls x) ->
  (forall x, is_ok (verdict x) = true -> map call (evs x) = calls x) ->
  map call (flat_map evs (iterations verdict xs)) `prefix_of` flat_map calls xs.
Proof.
  intros Hpre Hall. induction xs as [|x xs IH]; simpl; [reflexivity|].
  rewrite map_app. destruct (is_ok (verdict x)) eqn:Hx.
  - rewrite (Hall x Hx). apply prefix_app, IH.
  - simpl. rewrite app_nil_r. etransitivity; [apply Hpre|]. apply prefix_app_r. reflexivity.
Qed.

(** *** Data tables *)

Lemma hashes_pair_table (k1 k2 : string) (items : list (string * string)) :
  hashes (Feature.pair_table k1 k2 items)
  = map (fun it => row_object [k1; k2] [it.1; it.2]) items.
Proof. unfold hashes, Feature.pair_table. rewrite map_map. reflexivity. Qed.

Lemma hashes_column_table (k : string) (cells : list string) :
  hashes (Feature.column_table k cells) = map (fun c => row_object [k] [c]) cells.
Proof. unfold hashes, Feature.column_table. rewrite map_map. reflexivity. Qed.

Lemma row_object_pair (k1 k2 v1 v2 : string) :
  k1 <> k2 ->
  row_object [k1; k2] [v1; v2] !! k1 = Some v1
  /\ row_object [k1; k2] [v1; v2] !! k2 = Some v2.
Proof.
  intros Hne. unfold row_object. simpl. split.
  - rewrite lookup_insert_ne by congruence. apply lookup_insert_eq.
  - apply lookup_insert_eq.
Qed.

Lemma row_object_single (k v : string) : row_object [k] [v] !! k = Some v.
Proof. unfold row_object. simpl. apply lookup_insert_eq. Qed.

(** *** The loop bodies *)

Lemma check_navigation_row_run (it : string * string) u b p c a t :
  check_navigation_row drv (row_object ["Navigation Item"; "URL"] [it.1; it.2])
    (mkWorld u b (Some p) c a t)
  = (navigation_row_verdict drv p u it,
     mkWorld u b (Some p) c a (t ++ navigation_row_events drv p u it)).
Proof.
  destruct (row_object_pair "Navigation Item" "URL" it.1 it.2) as [H1 H2]; [discriminate|].
  unfold check_navigation_row, navigation_row_verdict, navigation_row_events.
  rewrite H1, H2. unfold_calls. unfold_monad. simpl.
  destruct (toBeVisible drv p (header_link (Some it.1)) u) as [[]|e]; simpl; [|reflexivity].
  destruct (getAttribute drv p (header_link (Some it.1)) "href" u) as [[h|]|e]; simpl;
    rewrite <- ?app_assoc; simpl; try reflexivity.
  destruct (String.eqb h it.2); reflexivity.
Qed.

Lemma check_dropdown_row_run (k label : string) u b p c a t :
  check_dropdown_row drv k (row_object [k] [label]) (mkWorld u b (Some p) c a t)
  = (dropdown_row_verdict drv p u label,
     mkWorld u b (Some p) c a (t ++ dropdown_row_events drv p u label)).
Proof.
  unfold check_dropdown_row, dropdown_row_verdict, dropdown_row_events.
  rewrite row_object_single. unfold_calls. unfold_monad. simpl.
  destruct (toBeVisible drv p (link_named (Some label)) u) as [[]|e]; reflexivity.
Qed.

Lemma navigation_row_verdict_ok (p : P) (u : U) (it : string * string) :
  navigation_row_verdict drv p u it = Ok tt
  <-> toBeVisible drv p (header_link (Some it.1)) u = Ok tt
      /\ getAttribute drv p (header_link (Some it.1)) "href" u = Ok (Some it.2).
Proof.
  unfold navigation_row_verdict.
  destruct (toBeVisible drv p (header_link (Some it.1)) u) as [[]|e];
    [|split; [discriminate | intros [H _]; discriminate]].
  destruct (getAttribute drv p (header_link (Some it.1)) "href" u) as [[h|]|e];
    try (split; [discriminate | intros [_ H]; discriminate]).
  destruct (String.eqb_spec h it.2) as [->|Hne].
  - split; auto.
  - split; [discriminate | intros [_ H]; congruence].
Qed.

(** C6, as amended. The three logo steps pass exactly when the image
    selected by [#header img[alt="logo"]] is visible, its [src] contains
    the literal path of the logo, and the link of the header whose
    accessible name matches [/logo/i] has the [href] ["/"]. The link is
    found by its name: nothing asks that it enclose the image. *)
Theorem logo_steps_assert (w : World) (p : P) :
  page w = Some p ->
  let image :=
    Css ("#header img[alt=" +:+ String (ascii_of_N 34) "logo"
           +:+ String (ascii_of_N 34) "]") in
  let named_link := Within (Css "#header") (ByRole Link (Some (NameRegExp "logo" "i"))) in
  (for_of [LogoVisible; LogoImageSource; LogoLinksHome] (run_step drv) w).1 = Ok tt
  <->
  toBeVisible drv p image (univ w) = Ok tt
  /\ (exists src pre post,
        getAttribute drv p image "src" (univ w) = Ok (Some src)
        /\ src = pre +:+ "/globalassets/images/5_logos/kainos_logo.png" +:+ post)
  /\ toHaveAttribute drv p named_link "href" "/" (univ w) = Ok tt.
Proof.
  intros Hp image named_link. destruct w as [u b pg c a t]. simpl in Hp. subst pg.
  change named_link with logo_link. change image with logo. clear image named_link.
  change "/globalassets/images/5_logos/kainos_logo.png" with logo_path.
  unfold for_of. unfold_steps. unfold_calls. unfold_monad. simpl.
  repeat next_answer;
    repeat match goal with x : unit |- _ => destruct x end;
    (split;
     [ intros H; try discriminate H
     | intros (H1 & (src & pre & post & H2 & H3) & H4); try congruence ]).
  - repeat split; try reflexivity.
    match goal with H : JS.includes _ _ = true |- _ => apply includes_app in H as (pre & post & ->) end.
    eauto.
  - exfalso. injection H2 as ->.
    assert (JS.includes logo_path src = true) by (apply includes_app; eauto).
    congruence.
Qed.

Lemma navigation_events_all (p : P) (u : U) (items : list (string * string)) :
  first_throw (navigation_row_verdict drv p u) items = Ok tt ->
  flat_map (navigation_row_events drv p u) (iterations (navigation_row_verdict drv p u) items)
  = flat_map (fun it : string * string =>
                [ev (CToBeVisible (header_link (Some it.1))) true;
                 ev (CGetAttribute (header_link (Some it.1)) "href") true]) items.
Proof.
  intros Hok. rewrite (iterations_all _ _ Hok).
  apply first_throw_ok in Hok. induction Hok as [|it its Hit _ IH]; [reflexivity|].
  cbn [flat_map]. rewrite IH. apply navigation_row_verdict_ok in Hit as [Hv Hh].
  unfold navigation_row_events. rewrite Hv, Hh. reflexivity.
Qed.

Lemma navigation_items_run (items : list (string * string)) u b p c a t :
  navigation_items_should_be_visible drv
    (Feature.pair_table "Navigation Item" "URL" items) (mkWorld u b (Some p) c a t)
  = (first_throw (navigation_row_verdict drv p u) items,
     mkWorld u b (Some p) c a
       (t ++ flat_map (navigation_row_events drv p u)
               (iterations (navigation_row_verdict drv p u) items))).
Proof.
  unfold navigation_items_should_be_visible.
  rewrite hashes_pair_table, for_of_map.
  apply for_of_readonly. intros x t0. apply check_navigation_row_run.
Qed.

(** C1. For every row (label, address) of the navigation table, in table
    order, the step asserts that the link of the header whose accessible
    name is exactly the label is visible and reads its [href], which
    must be the address: the step passes exactly when this holds for all
    the rows, and its calls follow the rows. *)
Theorem navigation_items_checked_in_order (w : World) (p : P)
    (items : list (string * string)) :
  page w = Some p ->
  let link label := Within (Css "#header") (ByRole Link (Some (NameText label true))) in
  let calls (it : string * string) :=
    [CToBeVisible (link it.1); CGetAttribute (link it.1) "href"] in
  let run :=
    navigation_items_should_be_visible drv
      (Feature.pair_table "Navigation Item" "URL" items) w in
  (run.1 = Ok tt <->
     Forall (fun it : string * string =>
               toBeVisible drv p (link it.1) (univ w) = Ok tt
               /\ getAttribute drv p (link it.1) "href" (univ w) = Ok (Some it.2))
            items)
  /\ (exists evs,
        trace run.2 = trace w ++ evs
        /\ map call evs `prefix_of` flat_map calls items
        /\ (run.1 = Ok tt ->
            map call evs = flat_map calls items /\ Forall (fun e => returned e = true) evs)).
Proof.
  intros Hp link calls run. destruct w as [u b pg c a t]. simpl in Hp. subst pg.
  assert (Hrun : run = (first_throw (navigation_row_verdict drv p u) items,
                        mkWorld u b (Some p) c a
                          (t ++ flat_map (navigation_row_events drv p u)
                                   (iterations (navigation_row_verdict drv p u) items)))).
  { apply navigation_items_run. }
  rewrite Hrun. cbn [fst snd trace univ]. clear Hrun run. split.
  - rewrite first_throw_ok. apply Forall_iff. intros it. apply navigation_row_verdict_ok.
  - eexists. split; [reflexivity|]. split.
    + apply iterations_prefix.
      * intros it. unfold navigation_row_events, calls.
        destruct (toBeVisible drv p (header_link (Some it.1)) u); simpl.
        -- reflexivity.
        -- exists [CGetAttribute (link it.1) "href"]. reflexivity.
      * intros it. unfold navigation_row_events, navigation_row_verdict, calls.
        destruct (toBeVisible drv p (header_link (Some it.1)) u); simpl;
          [reflexivity | discriminate].
    + intros Hok. rewrite (navigation_events_all _ _ _ Hok). clear Hok.
      induction items as [|it its IH]; [split; constructor|].
      destruct IH as [IH1 IH2]. cbn [flat_map map app]. rewrite IH1.
      split; [reflexivity|]. repeat constructor. exact IH2.
Qed.

Lemma dropdown_loop_run (k : string) (cells : list string) u b p c a t :
  for_of (hashes (Feature.column_table k cells)) (check_dropdown_row drv k)
    (mkWorld u b (Some p) c a t)
  = (first_throw (dropdown_row_verdict drv p u) cells,
     mkWorld u b (Some p) c a
       (t ++ flat_map (dropdown_row_events drv p u)
               (iterations (dropdown_row_verdict drv p u) cells))).
Proof.
  rewrite hashes_column_table, for_of_map.
  apply for_of_readonly. intros x t1. apply check_dropdown_row_run.
Qed.

Lemma dropdown_events_all (p : P) (u : U) (cells : list string) :
  first_throw (dropdown_row_verdict drv p u) cells = Ok tt ->
  flat_map (dropdown_row_events drv p u) (iterations (dropdown_row_verdict drv p u) cells)
  = map (fun label => ev (CToBeVisible (link_named (Some label))) true) cells.
Proof.
  intros Hok. rewrite (iterations_all _ _ Hok).
  apply first_throw_ok in Hok. induction Hok as [|x xs Hx _ IH]; [reflexivity|].
  cbn [flat_map map]. rewrite IH.
  unfold dropdown_row_events. unfold dropdown_row_verdict in Hx.
  rewrite Hx. reflexivity.
Qed.

Lemma hover_navigation_item_run (item : string) u b p c a t :
  hover_navigation_item drv item (mkWorld u b (Some p) c a t)
  = let l := header_link (Some item) in
    match hover drv p l u with
    | (Throw e, u1) => (Throw e, mkWorld u1 b (Some p) c a (t ++ [ev (CHover l) false]))
    | (Ok _, u1) =>
        let (r, u2) := waitForTimeout drv p 500 u1 in
        (r, mkWorld u2 b (Some p) c a
              (t ++ [ev (CHover l) true; ev (CWaitForTimeout 500) (is_ok r)]))
    end.
Proof.
  unfold hover_navigation_item. unfold_calls. unfold_monad. simpl.
  destruct (hover drv p (header_link (Some item)) u) as [[[]|e] u1]; simpl; [|reflexivity].
  destruct (waitForTimeout drv p 500 u1) as [r u2]; simpl.
  rewrite <- app_assoc. reflexivity.
Qed.

(** C7. After the hover over "Digital Services" and its wait, the two
    dropdown steps assert, label by label, that each of the six services
    and each of the four impacts of the feature text names a visible
    link: they pass exactly when all ten do, and then all ten were
    checked, in order. *)
Theorem dropdown_labels_all_checked (w : World) (p : P) :
  page w = Some p ->
  let link label := ByRole Link (Some (NameText label false)) in
  let item := Within (Css "#header") (ByRole Link (Some (NameText "Digital Services" true))) in
  let hovered := hover drv p item (univ w) in
  let waited := waitForTimeout drv p 500 hovered.2 in
  let labels := Feature.services ++ Feature.impacts in
  let run := for_of Feature.dropdown_steps (run_step drv) w in
  length Feature.services = 6 /\ length Feature.impacts = 4
  /\ (run.1 = Ok tt <->
        hovered.1 = Ok tt /\ waited.1 = Ok tt
        /\ Forall (fun label => toBeVisible drv p (link label) waited.2 = Ok tt) labels)
  /\ (run.1 = Ok tt ->
        trace run.2
        = trace w ++ [ev (CHover item) true; ev (CWaitForTimeout 500) true]
            ++ map (fun label => ev (CToBeVisible (link label)) true) labels).
Proof.
  intros Hp link item hovered waited labels run.
  split; [reflexivity|]. split; [reflexivity|].
  destruct w as [u b pg c a t]. cbn [page] in Hp. subst pg.
  assert (Hrun : run =
    bind (hover_navigation_item drv "Digital Services")
      (fun _ => bind (for_of (hashes (Feature.column_table "Service" Feature.services))
                        (check_dropdown_row drv "Service"))
         (fun _ => bind (for_of (hashes (Feature.column_table "Impact" Feature.impacts))
                           (check_dropdown_row drv "Impact"))
            (fun _ => ret tt))) (mkWorld u b (Some p) c a t)) by reflexivity.
  clearbody run. subst hovered waited. cbn [univ trace] in *.
  change (header_link (Some "Digital Services")) with item in *.
  unfold bind at 1 in Hrun. rewrite hover_navigation_item_run in Hrun.
  change (header_link (Some "Digital Services")) with item in Hrun. cbv zeta in Hrun.
  destruct (hover drv p item u) as [[[]|e] u1]; cbn [fst snd] in *;
    [|subst run; split; [split; [discriminate | intros [H _]; discriminate] | discriminate]].
  destruct (waitForTimeout drv p 500 u1) as [[[]|e] u2]; cbn [fst snd is_ok] in *;
    [|subst run; split; [split; [discriminate | intros (_ & H & _); discriminate]
                        | discriminate]].
  unfold bind at 1 in Hrun. rewrite dropdown_loop_run in Hrun.
  destruct (first_throw (dropdown_row_verdict drv p u2) Feature.services) as [[]|e] eqn:Hs.
  - unfold bind at 1 in Hrun. rewrite dropdown_loop_run in Hrun. unfold ret in Hrun.
    destruct (first_throw (dropdown_row_verdict drv p u2) Feature.impacts) as [[]|e] eqn:Hi;
      subst run; cbn [fst snd trace].
    + split.
      * split; [intros _ | reflexivity]. repeat split; try reflexivity.
        unfold labels. apply Forall_app. split; apply first_throw_ok; assumption.
      * intros _. rewrite (dropdown_events_all _ _ _ Hs), (dropdown_events_all _ _ _ Hi).
        unfold labels. rewrite map_app, <- !app_assoc. reflexivity.
    + split; [|discriminate]. split; [discriminate|]. intros (_ & _ & H).
      unfold labels in H. apply Forall_app in H as [_ H].
      apply (first_throw_ok (dropdown_row_verdict drv p u2)) in H. congruence.
  - subst run. cbn [fst snd]. split; [|discriminate]. split; [discriminate|].
    intros (_ & _ & H).
    unfold labels in H. apply Forall_app in H as [H _].
    apply (first_throw_ok (dropdown_row_verdict drv p u2)) in H. congruence.
Qed.

(** C9, as amended. In 'I accept the cookie consent' an error of the
    visibility check counts as "not visible"; the click and the wait of
    one second happen exactly when the check answered true; when it did
    not, the step returns without touching the page. The step throws
    exactly when the click or the wait throws. *)
Theorem cookie_consent_outcome (w : World) (p : P) :
  page w = Some p ->
  let button := ByRole Button (Some (NameText "I Accept Cookies" false)) in
  let checked := isVisible drv p button (univ w) in
  let visible := match checked with Ok v => v | Throw _ => false end in
  let run := accept_cookie_consent drv w in
  (visible = false ->
     run.1 = Ok tt /\ univ run.2 = univ w
     /\ trace run.2 = trace w ++ [ev (CIsVisible button) (is_ok checked)])
  /\ (visible = true ->
       let clicked := click drv p button (univ w) in
       let waited := waitForTimeout drv p 1000 clicked.2 in
       match clicked.1 with
       | Throw e =>
           run.1 = Throw e
           /\ trace run.2
              = trace w ++ [ev (CIsVisible button) true; ev (CClick button) false]
       | Ok _ =>
           run.1 = waited.1 /\ univ run.2 = waited.2
           /\ trace run.2
              = trace w ++ [ev (CIsVisible button) true; ev (CClick button) true;
                            ev (CWaitForTimeout 1000) (is_ok waited.1)]
       end).
Proof.
  intros Hp button checked visible run.
  destruct w as [u b pg c a t]. cbn [page] in Hp. subst pg.
  subst run visible checked. unfold accept_cookie_consent.
  change accept_cookies_button with button.
  unfold_calls. unfold_monad. cbn -[button].
  destruct (isVisible drv p button u) as [[|]|e]; cbn -[button].
  - split; [discriminate|]. intros _.
    destruct (click drv p button u) as [[[]|e] u1]; cbn -[button].
    + destruct (waitForTimeout drv p 1000 u1) as [r u2]; cbn -[button].
      rewrite <- !app_assoc. repeat split.
    + rewrite <- !app_assoc. repeat split.
  - split; [|discriminate]. intros _. repeat split.
  - split; [|discriminate]. intros _. repeat split.
Qed.

(** C2, as amended. After attaches a screenshot only for a result
    FAILED, and then exactly one when the capture returns: a full-page
    capture, saved under the scenario title with each run of white
    space replaced by an underscore and the time appended, attached as
    image/png. When the capture throws nothing is attached and After
    throws; for any other result no capture is made. *)
Theorem failure_screenshot_attached (w : World) (arg : HookArg) :
  let run := Hooks.After drv arg w in
  let title := JS.replace_ws_runs "_" (pickle_name arg) in
  let options :=
    {| path := "./screenshots/" +:+ title +:+ "_"
                 +:+ JS.number_to_string (dateNow drv (univ w)) +:+ ".png";
       fullPage := true |} in
  JS.no_white_space title = true
  /\ (exists evs,
        trace run.2 = trace w ++ evs
        /\ (result_status arg <> Some FAILED ->
            attachments run.2 = attachments w /\ count_calls is_screenshot evs = 0)
        /\ (result_status arg = Some FAILED ->
            forall p, page w = Some p ->
              match (screenshot drv p options (univ w)).1 with
              | Ok shot =>
                  attachments run.2
                  = attachments w ++ [{| data := shot; mediaType := "image/png" |}]
                  /\ count_calls is_screenshot evs = 1
                  /\ head evs = Some (ev (CScreenshot options) true)
              | Throw e =>
                  attachments run.2 = attachments w /\ run.1 = Throw e
              end)).
Proof.
  intros run title options. split.
  { apply replace_ws_from_clean. reflexivity. }
  assert (Hfailed : Hooks.failed arg = true <-> result_status arg = Some FAILED).
  { unfold Hooks.failed. destruct (result_status arg) as [[]|]; simpl;
      split; congruence. }
  destruct w as [u b pg c a t]. subst run. cbn [univ trace attachments page] in *.
  unfold Hooks.After, Hooks.screenshot_on_failure, Hooks.close_page, Hooks.close_context.
  change (Hooks.screenshot_path (pickle_name arg) ?n)
    with ("./screenshots/" +:+ title +:+ "_" +:+ JS.number_to_string n +:+ ".png").
  destruct (Hooks.failed arg) eqn:Hf.
  - assert (Hst : result_status arg = Some FAILED) by (apply Hfailed; reflexivity).
    unfold_calls. unfold_monad. cbn -[title JS.number_to_string append].
    destruct pg as [p|]; cbn -[title JS.number_to_string append].
    + fold options.
      destruct (screenshot drv p options u) as [[shot|e] u1] eqn:Hshot;
        cbn -[title JS.number_to_string append options].
      * destruct (pageClose drv p u1) as [[[]|e] u2];
          cbn -[title JS.number_to_string append options].
        -- destruct c as [c|]; cbn -[title JS.number_to_string append options].
           ++ destruct (contextClose drv c u2) as [r u3];
                cbn -[title JS.number_to_string append options].
              eexists. split; [rewrite <- !app_assoc; reflexivity|].
              split; [congruence|]. intros _ p' Hp'. injection Hp' as <-.
              rewrite Hshot. cbn -[options]. repeat split.
           ++ eexists. split; [rewrite <- !app_assoc; reflexivity|].
              split; [congruence|]. intros _ p' Hp'. injection Hp' as <-.
              rewrite Hshot. cbn -[options]. repeat split.
        -- eexists. split; [rewrite <- !app_assoc; reflexivity|].
           split; [congruence|]. intros _ p' Hp'. injection Hp' as <-.
           rewrite Hshot. cbn -[options]. repeat split.
      * eexists. split; [reflexivity|].
        split; [congruence|]. intros _ p' Hp'. injection Hp' as <-.
        rewrite Hshot. cbn -[options]. repeat split.
    + exists []. split; [rewrite app_nil_r; reflexivity|].
      split; [congruence|]. intros _ p' Hp'. discriminate.
  - assert (Hst : result_status arg <> Some FAILED).
    { intros H. apply Hfailed in H. congruence. }
    unfold_calls. unfold_monad. cbn.
    destruct pg as [p|]; cbn.
    + destruct (pageClose drv p u) as [[[]|e] u2]; cbn.
      * destruct c as [c|]; cbn.
        -- destruct (contextClose drv c u2) as [r u3]; cbn.
           eexists. split; [rewrite <- !app_assoc; reflexivity|].
           split; [intros _; split; reflexivity | congruence].
        -- eexists. split; [reflexivity|].
           split; [intros _; split; reflexivity | congruence].
      * eexists. split; [reflexivity|].
        split; [intros _; split; reflexivity | congruence].
    + destruct c as [c|]; cbn.
      * destruct (contextClose drv c u) as [r u3]; cbn.
        eexists. split; [reflexivity|].
        split; [intros _; split; reflexivity | congruence].
      * exists []. split; [rewrite app_nil_r; reflexivity|].
        split; [intros _; split; reflexivity | congruence].
Qed.

(** C3, as amended. After releases the page and the context only once
    its screenshot statement has returned: then the page is closed, and
    the context is closed when closing the page returned. An error of
    the screenshot statement or of either release is thrown on to the
    caller, and ends the hook where it happens. *)
Theorem teardown_after_screenshot (w : World) (arg : HookArg) (p : P) (c : C) :
  page w = Some p ->
  context w = Some c ->
  let shot := Hooks.screenshot_on_failure drv arg w in
  let run := Hooks.After drv arg w in
  (exists shots, trace shot.2 = trace w ++ shots /\ count_calls is_release shots = 0)
  /\ match shot.1 with
     | Throw e => run = (Throw e, shot.2)
     | Ok _ =>
         let closed_page := pageClose drv p (univ shot.2) in
         match closed_page.1 with
         | Throw e =>
             run.1 = Throw e
             /\ trace run.2 = trace shot.2 ++ [ev CPageClose false]
         | Ok _ =>
             let closed_context := contextClose drv c closed_page.2 in
             run.1 = closed_context.1
             /\ trace run.2
                = trace shot.2
                  ++ [ev CPageClose true; ev CContextClose (is_ok closed_context.1)]
         end
     end.
Proof.
  intros Hp Hc shot run. destruct w as [u b pg cx a t]. cbn [page context] in Hp, Hc.
  subst pg cx.
  assert (Hrun : run = match shot with
                       | (Ok _, w1) =>
                           bind (Hooks.close_page drv) (fun _ => Hooks.close_context drv) w1
                       | (Throw e, w1) => (Throw e, w1)
                       end) by reflexivity.
  assert (Hshot :
    (exists shots, trace shot.2 = t ++ shots /\ count_calls is_release shots = 0)
    /\ page shot.2 = Some p /\ context shot.2 = Some c).
  { clear Hrun. subst shot. unfold Hooks.screenshot_on_failure.
    destruct (Hooks.failed arg).
    - unfold_calls. unfold_monad. cbn -[Hooks.screenshot_path].
      destruct (screenshot drv p _ u) as [[s|e] u1]; cbn -[Hooks.screenshot_path];
        (split; [eexists; split; [reflexivity|reflexivity] | split; reflexivity]).
    - unfold ret. cbn. split; [|split; reflexivity].
      exists []. rewrite app_nil_r. split; reflexivity. }
  destruct Hshot as (Hshots & Hp & Hc). split; [exact Hshots|].
  clearbody run shot. subst run.
  destruct shot as [[[]|e] [u1 b1 pg cx a1 t1]]; cbn [fst snd page context univ trace] in *;
    [|reflexivity].
  subst pg cx. unfold bind, Hooks.close_page, Hooks.close_context.
  unfold_calls. unfold_monad. cbn.
  destruct (pageClose drv p u1) as [[[]|e] u2]; cbn; [|split; reflexivity].
  destruct (contextClose drv c u2) as [r u3]; cbn.
  rewrite <- app_assoc. split; reflexivity.
Qed.

(** *** What every step adds to the trace *)

Lemma count_calls_app (f : Call -> bool) (l1 l2 : list Event) :
  count_calls f (l1 ++ l2) = count_calls f l1 + count_calls f l2.
Proof. unfold count_calls. rewrite List.filter_app, length_app. reflexivity. Qed.

Lemma fail_fast_returned (evs : list Event) :
  fail_fast true evs = true -> Forall (fun e => returned e = true) evs.
Proof.
  induction evs as [|e evs IH]; [constructor|].
  destruct evs as [|e' evs].
  - simpl. rewrite orb_false_r. intros H. repeat constructor. exact H.
  - intros H. change (returned e && fail_fast true (e' :: evs) = true) in H.
    apply andb_true_iff in H as [He H]. constructor; [exact He | apply IH, H].
Qed.

Lemma fail_fast_app (ok : bool) (l1 l2 : list Event) :
  Forall (fun e => returned e = true) l1 ->
  fail_fast ok l2 = true -> fail_fast ok (l1 ++ l2) = true.
Proof.
  intros H1 H2. induction H1 as [|e l1 He _ IH]; [exact H2|].
  destruct (l1 ++ l2) as [|e' l] eqn:Hl.
  - simpl. rewrite Hl. simpl. rewrite He. reflexivity.
  - change (fail_fast ok ((e :: l1) ++ l2)) with (fail_fast ok (e :: l1 ++ l2)).
    rewrite Hl. change (returned e && fail_fast ok (e' :: l) = true).
    rewrite He, IH. reflexivity.
Qed.

(** What [fail_fast] says: a call that threw is the last one, and the
    routine threw. *)
Lemma fail_fast_last (ok : bool) (evs : list Event) :
  fail_fast ok evs = true ->
  forall pre e post, evs = pre ++ e :: post -> returned e = false ->
    post = [] /\ ok = false.
Proof.
  induction evs as [|e0 evs IH]; intros H pre e post Heq He.
  - destruct pre; discriminate.
  - destruct evs as [|e1 evs].
    + destruct pre as [|x pre]; [|destruct pre; discriminate].
      injection Heq as -> <-. simpl in H. rewrite He in H. simpl in H.
      split; [reflexivity|]. destruct ok; [discriminate | reflexivity].
    + change (returned e0 && fail_fast ok (e1 :: evs) = true) in H.
      apply andb_true_iff in H as [H0 H].
      destruct pre as [|x pre].
      * injection Heq as -> _. congruence.
      * injection Heq as -> Heq. exact (IH H pre e post Heq He).
Qed.

Lemma same_handles_trans (w1 w2 w3 : World) :
  same_handles w1 w2 -> same_handles w2 w3 -> same_handles w1 w3.
Proof. unfold same_handles. intros (?&?&?&?) (?&?&?&?). repeat split; congruence. Qed.

Lemma for_of_well_behaved {A} (body : A -> M U B C P unit) (nq : nat) (xs : list A) :
  (forall x, well_behaved 0 0 nq true (body x)) ->
  well_behaved 0 0 (length xs * nq) true (for_of xs body).
Proof.
  intros Hbody. induction xs as [|x xs IH]; intros w.
  - exists []. cbn. rewrite app_nil_r. repeat split; auto.
  - cbn [for_of length]. unfold bind.
    destruct (Hbody x w) as (evs1 & Ht1 & Hh1 & Hp1 & Hn1 & Hc1 & Hq1 & Hf1).
    destruct (body x w) as [[[]|e] w1]; cbn [fst snd is_ok] in *.
    + destruct (IH w1) as (evs2 & Ht2 & Hh2 & Hp2 & Hn2 & Hc2 & Hq2 & Hf2).
      exists (evs1 ++ evs2). rewrite Ht2, Ht1, app_assoc.
      split; [reflexivity|]. split; [eapply same_handles_trans; eassumption|].
      split; [apply Forall_app; split; assumption|].
      rewrite !count_calls_app. split; [lia|]. split; [lia|]. split; [simpl; lia|].
      intros _. apply fail_fast_app; [apply fail_fast_returned|]; auto.
    + exists evs1. repeat split; try apply Hh1; auto; simpl; lia.
Qed.

Ltac straight_line :=
  intros w; destruct w as [u b pg c a t]; destruct pg as [p|];
  unfold well_behaved, same_handles;
  unfold_steps;
  repeat match goal with
         | |- context [@lookup ?K ?A ?M ?H ?k ?r] =>
             generalize (@lookup K A M H k r); intro
         end;
  unfold_calls; unfold_monad; cbn;
  repeat next_answer;
  (eexists; split;
   [ first [ rewrite <- !app_assoc; reflexivity
           | symmetry; apply app_nil_r
           | reflexivity ] | ]);
  (split; [repeat split|]);
  (split; [repeat constructor|]);
  (split; [cbn; lia|]);
  (split; [cbn; lia|]);
  (split;
   [ cbn; lia
   | intros H;
     first [ discriminate H
           | repeat match goal with
                    | |- context [is_ok ?x] =>
                        lazymatch x with
                        | Ok _ => fail
                        | Throw _ => fail
                        | _ => destruct x as [?|?]
                        end
                    end; reflexivity ] ]).

Lemma check_navigation_row_well_behaved (row : gmap string string) :
  well_behaved 0 0 2 true (check_navigation_row drv row).
Proof. straight_line. Qed.

Lemma check_dropdown_row_well_behaved (k : string) (row : gmap string string) :
  well_behaved 0 0 1 true (check_dropdown_row drv k row).
Proof. straight_line. Qed.

Lemma keyboard_body_well_behaved (p0 : P) (link : Locator) :
  well_behaved 0 0 2 true
    (bind (locator_focus drv p0 link) (fun _ => expect_toBeFocused drv p0 link)).
Proof. straight_line. Qed.

Lemma keyboard_well_behaved :
  well_behaved 0 0 6 true (links_should_be_keyboard_accessible drv).
Proof.
  intros w. destruct (page w) as [p|] eqn:Hp.
  - assert (Heq : links_should_be_keyboard_accessible drv w
                  = for_of keyboard_links
                      (fun link => bind (locator_focus drv p link)
                                     (fun _ => expect_toBeFocused drv p link)) w).
    { unfold links_should_be_keyboard_accessible, bind at 1, this_page.
      rewrite Hp. reflexivity. }
    rewrite Heq.
    apply (for_of_well_behaved
             (fun link => bind (locator_focus drv p link)
                            (fun _ => expect_toBeFocused drv p link)) 2 keyboard_links).
    intros link. apply keyboard_body_well_behaved.
  - assert (Heq : links_should_be_keyboard_accessible drv w = (Throw TypeError, w)).
    { unfold links_should_be_keyboard_accessible, bind at 1, this_page.
      rewrite Hp. reflexivity. }
    rewrite Heq. exists []. cbn [fst snd]. rewrite app_nil_r.
    unfold same_handles. repeat split; auto; cbn; lia.
Qed.

Lemma navigation_loop_well_behaved (tbl : DataTable) :
  well_behaved 0 0 (2 * length (hashes tbl)) true
    (navigation_items_should_be_visible drv tbl).
Proof.
  rewrite Nat.mul_comm. apply for_of_well_behaved, check_navigation_row_well_behaved.
Qed.

Lemma dropdown_loop_well_behaved (k : string) (tbl : DataTable) :
  well_behaved 0 0 (length (hashes tbl)) true
    (for_of (hashes tbl) (check_dropdown_row drv k)).
Proof.
  rewrite <- (Nat.mul_1_r (length (hashes tbl))).
  apply for_of_well_behaved. intros row. apply check_dropdown_row_well_behaved.
Qed.

(** Every step stays on the page, within its bounds, and all but the
    cookie step stop at the first call that throws. *)
Lemma run_step_well_behaved (s : Step) :
  well_behaved (goto_bound s) (click_bound s) (dom_query_bound s)
    (negb (is_cookie_step s)) (run_step drv s).
Proof.
  destruct s;
    cbn [goto_bound click_bound dom_query_bound is_cookie_step negb run_step];
    first [ apply navigation_loop_well_behaved
          | apply dropdown_loop_well_behaved
          | apply keyboard_well_behaved
          | straight_line ].
Qed.

(** *** Timeouts, assertions and the scenario *)

Lemma before_sets_page_timeout (w : World) :
  let ready := Hooks.Before drv w in
  ready.1 = Ok tt ->
  exists p u pre,
    page ready.2 = Some p
    /\ univ ready.2 = setDefaultTimeout drv p 30000 u
    /\ trace ready.2 = trace w ++ pre ++ [ev (CSetDefaultTimeout 30000) true].
Proof.
  destruct w as [u b pg c a t]. unfold Hooks.Before, Hooks.the_browser.
  unfold_calls. unfold_monad. cbn.
  destruct b as [b|]; cbn; [|discriminate].
  destruct (newContext drv b Hooks.context_options u) as [[cx|e] u1]; cbn; [|discriminate].
  destruct (newPage drv cx u1) as [[p|e] u2]; cbn; [|discriminate].
  intros _. exists p, u2, [ev (CNewContext Hooks.context_options) true; ev CNewPage true].
  split; [reflexivity|]. split; [reflexivity|]. rewrite <- !app_assoc. reflexivity.
Qed.

Lemma first_throw_stops {A} (verdict : A -> Outcome unit) (before after : list A)
    (x : A) (e : Error) :
  Forall (fun y => verdict y = Ok tt) before ->
  verdict x = Throw e ->
  first_throw verdict (before ++ x :: after) = Throw e
  /\ iterations verdict (before ++ x :: after) = before ++ [x].
Proof.
  intros Hb Hx. induction Hb as [|y ys Hy _ [IH1 IH2]]; cbn [app first_throw iterations].
  - rewrite Hx. split; reflexivity.
  - rewrite Hy, IH1, IH2. split; reflexivity.
Qed.

(** The steps that follow a step that throws are not run. *)
Lemma for_of_stops {A} (body : A -> M U B C P unit) (before after : list A) (x : A)
    (w0 w : World) :
  for_of before body w0 = (Ok tt, w) ->
  forall e, (body x w).1 = Throw e ->
    for_of (before ++ x :: after) body w0 = (Throw e, (body x w).2).
Proof.
  revert w0. induction before as [|y ys IH]; intros w0 Hb e Hx; cbn [app for_of] in *.
  - unfold ret in Hb. injection Hb as ->. unfold bind.
    destruct (body x w) as [[[]|e'] w']; cbn [fst snd] in *; congruence.
  - unfold bind in *. destruct (body y w0) as [[[]|e'] w1]; [|discriminate].
    apply IH; assumption.
Qed.

Lemma page_call_not_timeout (evs : list Event) :
  Forall (fun e => is_page_call (call e) = true) evs ->
  Forall (fun e => forall ms, call e <> CSetDefaultTimeout ms) evs.
Proof.
  intros H. eapply Forall_impl; [exact H|].
  intros e He ms Hc. cbn beta in He. rewrite Hc in He. discriminate.
Qed.

(** C4, as amended. Thirty seconds, 30000 ms, is the limit the runner
    gives every step once the step file is loaded, and the default
    timeout that Before sets on the page; no step changes it. Whatever
    fails in a step other than 'I accept the cookie consent' ends the
    step there, with no call repeated and none after it: a driver call
    that throws (an element not found, or an assertion that does not
    hold within the window, as the driver reports them), or an assertion
    made by the routine itself on what a call returned. The step then
    throws, the steps that follow it in the scenario are not run, and
    the scenario is FAILED. The cookie step returns when its button is
    not visible, or when the check of its visibility throws. *)
Theorem steps_fail_at_first_failure (s : Step) (w : World) :
  let run := run_step drv s w in
  let image :=
    Css ("#header img[alt=" +:+ String (ascii_of_N 34) "logo"
           +:+ String (ascii_of_N 34) "]") in
  let link label := Within (Css "#header") (ByRole Link (Some (NameText label true))) in
  let calls (it : string * string) :=
    [CToBeVisible (link it.1); CGetAttribute (link it.1) "href"] in
  (* the window *)
  (Runner.step_limit s = (30 * 1000)%N
   /\ (forall library,
        limit_of (own_timeout s) (HeaderSteps.load library) = (30 * 1000)%N)
   /\ (let ready := Hooks.Before drv w in
       ready.1 = Ok tt ->
       exists p u pre,
         page ready.2 = Some p
         /\ univ ready.2 = setDefaultTimeout drv p (30 * 1000)%N u
         /\ trace ready.2
            = trace w ++ pre ++ [ev (CSetDefaultTimeout (30 * 1000)%N) true])
   /\ exists evs,
        trace run.2 = trace w ++ evs
        /\ Forall (fun e => forall ms, call e <> CSetDefaultTimeout ms) evs)
  (* a driver call that throws *)
  /\ (s <> AcceptCookieConsent ->
      exists evs,
        trace run.2 = trace w ++ evs
        /\ forall pre e post,
             evs = pre ++ e :: post -> returned e = false ->
             post = [] /\ exists err, run.1 = Throw err)
  (* an assertion of the routine itself *)
  /\ (forall p, page w = Some p ->
      match s with
      | LogoImageSource =>
          forall v,
            getAttribute drv p image "src" (univ w) = Ok v ->
            (forall src pre post,
               v = Some src ->
               src <> pre +:+ "/globalassets/images/5_logos/kainos_logo.png" +:+ post) ->
            run.1 = Throw AssertionError
            /\ trace run.2 = trace w ++ [ev (CGetAttribute image "src") true]
      | NavigationItemsVisible t =>
          forall before it after h,
            t = Feature.pair_table "Navigation Item" "URL" (before ++ it :: after) ->
            Forall (fun r : string * string =>
                      toBeVisible drv p (link r.1) (univ w) = Ok tt
                      /\ getAttribute drv p (link r.1) "href" (univ w) = Ok (Some r.2))
                   before ->
            toBeVisible drv p (link it.1) (univ w) = Ok tt ->
            getAttribute drv p (link it.1) "href" (univ w) = Ok h ->
            h <> Some it.2 ->
            run.1 = Throw AssertionError
            /\ exists evs,
                 trace run.2 = trace w ++ evs
                 /\ map call evs = flat_map calls (before ++ [it])
      | NavigatedTo address =>
          (forall pre post, url drv p (univ w) <> pre +:+ address +:+ post) ->
          run.1 = Throw AssertionError
          /\ trace run.2 = trace w ++ [ev CUrl true]
      | TitleContains text =>
          forall t,
            title drv p (univ w) = Ok t ->
            (forall pre post, t <> pre +:+ text +:+ post) ->
            run.1 = Throw AssertionError
            /\ trace run.2 = trace w ++ [ev CTitle true]
      | _ => True
      end)
  (* the scenario *)
  /\ (forall err, run.1 = Throw err ->
      forall sc before after w0,
        Feature.steps sc = before ++ s :: after ->
        bind (Hooks.Before drv) (fun _ => for_of before (run_step drv)) (Runner.new_world w0)
        = (Ok tt, w) ->
        Runner.run_body drv sc (Runner.new_world w0) = (Throw err, run.2)
        /\ Runner.status (Runner.run_scenario drv sc w0).1 = FAILED)
  (* the cookie step *)
  /\ (s = AcceptCookieConsent ->
      forall p, page w = Some p ->
        isVisible drv p (ByRole Button (Some (NameText "I Accept Cookies" false))) (univ w)
        <> Ok true ->
        run.1 = Ok tt).
Proof.
  intros run image link calls.
  destruct (run_step_well_behaved s w) as (evs & Ht & _ & Hpage & _ & _ & _ & Hf).
  fold run in Ht, Hf.
  split; [|split; [|split; [|split]]].
  - split; [reflexivity|]. split; [reflexivity|]. split.
    + intros ready Hready.
      destruct (before_sets_page_timeout w Hready) as (p & u & pre & H1 & H2 & H3).
      exists p, u, pre. repeat split; assumption.
    + exists evs. split; [exact Ht | apply page_call_not_timeout, Hpage].
  - intros Hs. exists evs. split; [exact Ht|]. intros pre e post Heq He.
    assert (Hstrict : negb (is_cookie_step s) = true) by (destruct s; try reflexivity; congruence).
    specialize (Hf Hstrict).
    destruct (fail_fast_last _ _ Hf pre e post Heq He) as [Hpost Hok].
    split; [exact Hpost|].
    destruct run.1 as [x|err]; [discriminate | eauto].
  - intros p Hp. clear evs Ht Hpage Hf.
    destruct w as [u b pg c a t]. cbn [page] in Hp. subst pg. cbn [univ trace] in *.
    destruct s; try exact I; subst run; cbn [run_step].
    + (* the source of the logo *)
      change image with logo. intros v Hv Hnot.
      unfold logo_should_contain_source. unfold_calls. unfold_monad. cbn.
      rewrite Hv. cbn. destruct v as [src|]; cbn; [|split; reflexivity].
      destruct (JS.includes logo_path src) eqn:Hin; [|split; reflexivity].
      apply includes_app in Hin as (pre & post & Hsrc).
      exfalso. exact (Hnot src pre post eq_refl Hsrc).
    + (* the rows of the navigation table *)
      intros before it after h -> Hbefore Hvis Hhref Hne.
      rewrite navigation_items_run. cbn [fst snd trace].
      assert (Hit : navigation_row_verdict drv p u it = Throw AssertionError).
      { unfold navigation_row_verdict. change (header_link (Some it.1)) with (link it.1).
        rewrite Hvis, Hhref. destruct h as [h|]; [|reflexivity].
        destruct (String.eqb_spec h it.2) as [->|_]; [congruence | reflexivity]. }
      assert (Hb : Forall (fun y => navigation_row_verdict drv p u y = Ok tt) before).
      { eapply Forall_impl; [exact Hbefore|]. intros r Hr.
        apply navigation_row_verdict_ok. exact Hr. }
      destruct (first_throw_stops _ before after it AssertionError Hb Hit) as [-> ->].
      split; [reflexivity|]. eexists. split; [reflexivity|].
      rewrite !flat_map_app, map_app. f_equal.
      * clear Hit. induction Hbefore as [|r rs [Hr1 Hr2] _ IH]; [reflexivity|].
        inversion Hb; subst. cbn [flat_map map app]. rewrite map_app, IH by assumption.
        unfold navigation_row_events. change (header_link (Some r.1)) with (link r.1).
        rewrite Hr1, Hr2. reflexivity.
      * cbn [flat_map]. rewrite !app_nil_r. unfold navigation_row_events.
        change (header_link (Some it.1)) with (link it.1). rewrite Hvis. reflexivity.
    + (* the address *)
      intros Hnot. unfold should_be_navigated_to. unfold_calls. unfold_monad. cbn.
      destruct (JS.includes address (url drv p u)) eqn:Hin; [|split; reflexivity].
      apply includes_app in Hin as (pre & post & Hurl).
      exfalso. exact (Hnot pre post Hurl).
    + (* the title *)
      intros t0 Ht0 Hnot. unfold title_should_contain. unfold_calls. unfold_monad. cbn.
      rewrite Ht0. cbn.
      destruct (JS.includes text t0) eqn:Hin; [|split; reflexivity].
      apply includes_app in Hin as (pre & post & Htitle).
      exfalso. exact (Hnot pre post Htitle).
  - intros err Herr sc before after w0 Hsteps Hbefore.
    assert (Hbody : Runner.run_body drv sc (Runner.new_world w0) = (Throw err, run.2)).
    { unfold Runner.run_body. rewrite Hsteps. unfold bind in *.
      destruct (Hooks.Before drv (Runner.new_world w0)) as [[[]|e0] w1]; [|discriminate].
      apply (for_of_stops (run_step drv) before after s w1 w Hbefore err Herr). }
    split; [exact Hbody|].
    unfold Runner.run_scenario. rewrite Hbody.
    destruct (Hooks.After drv _ run.2) as [r2 w2]. cbn.
    destruct (is_ok r2); reflexivity.
  - intros -> p Hp Hvis. clear evs Ht Hpage Hf.
    destruct w as [u b pg c a t]. cbn [page] in Hp. subst pg. cbn [univ] in Hvis.
    subst run. cbn [run_step]. unfold accept_cookie_consent, accept_cookies_button.
    unfold_calls. unfold_monad. cbn.
    destruct (isVisible drv p _ u) as [[|]|e]; cbn; [congruence | reflexivity | reflexivity].
Qed.

Lemma count_navigation_pairs (items : list (string * string)) :
  count_calls is_dom_query
    (flat_map (fun it : string * string =>
                 [ev (CToBeVisible (header_link (Some it.1))) true;
                  ev (CGetAttribute (header_link (Some it.1)) "href") true]) items)
  = 2 * length items.
Proof.
  induction items as [|it its IH]; [reflexivity|].
  cbn [flat_map length]. rewrite count_calls_app, IH. cbn. lia.
Qed.

Lemma keyboard_passed_six (w : World) (evs : list Event) :
  (links_should_be_keyboard_accessible drv w).1 = Ok tt ->
  trace (links_should_be_keyboard_accessible drv w).2 = trace w ++ evs ->
  count_calls is_dom_query evs = 6.
Proof.
  destruct w as [u b pg c a t]. destruct pg as [p|];
    unfold links_should_be_keyboard_accessible, keyboard_links, for_of;
    unfold_calls; unfold_monad; cbn; [|discriminate].
  repeat next_answer; try discriminate.
  intros _ H. rewrite <- !app_assoc in H. apply app_inv_head in H. subst evs. reflexivity.
Qed.

Lemma navigation_is_goto_or_click (evs : list Event) :
  count_calls is_navigation evs = count_calls is_goto evs + count_calls is_click evs.
Proof.
  unfold count_calls. induction evs as [|e evs IH]; [reflexivity|].
  cbn [List.filter]. unfold is_navigation at 1.
  destruct (call e); cbn [is_goto is_click orb length]; rewrite ?IH; lia.
Qed.

(** A homepage step that returned made its one [goto]; a click step
    that returned made its one click. *)
Lemma passed_step_loaded (s : Step) (w : World) (evs : list Event) :
  (run_step drv s w).1 = Ok tt ->
  trace (run_step drv s w).2 = trace w ++ evs ->
  (s = NavigateToHomepage -> count_calls is_goto evs = 1)
  /\ (forall item, s = ClickNavigationItem item \/ s = ClickLink item ->
      count_calls is_click evs = 1).
Proof.
  intros Hok Ht. split.
  - intros ->. revert Hok Ht. destruct w as [u b pg c a t]. destruct pg as [p|];
      cbn [run_step]; unfold navigate_to_homepage; unfold_calls; unfold_monad; cbn;
      [|discriminate].
    repeat next_answer; try discriminate.
    intros _ H. rewrite <- ?app_assoc in H. apply app_inv_head in H. subst evs. reflexivity.
  - intros item [-> | ->]; revert Hok Ht; destruct w as [u b pg c a t]; destruct pg as [p|];
      cbn [run_step]; unfold click_navigation_item, click_link; unfold_calls; unfold_monad;
      cbn; try discriminate;
      repeat next_answer; try discriminate;
      intros _ H; rewrite <- ?app_assoc in H; apply app_inv_head in H; subst evs; reflexivity.
Qed.

(** C5, as amended. A step changes nothing but what the driver holds
    and the trace: the handles and the attachments stay as they were.
    It makes only page calls. At most one of them makes the page load a
    document: the one [goto] of the homepage step, or the one click of
    'I click on the ... navigation item', of 'I click on the ... link'
    and of the cookie step; no other step calls [goto] or clicks. The
    element lookups are bounded: at most two for each row of the
    navigation table (exactly two for each row when the step passes),
    one for each row of a dropdown table, six for the keyboard step
    (exactly six when it passes), two for the cookie step, none for the
    homepage, address and title steps, and one for any other. *)
Theorem step_effects_bounded (s : Step) (w : World) :
  let run := run_step drv s w in
  let gotos := count_calls (fun c => match c with CGoto _ => true | _ => false end) in
  let clicks := count_calls (fun c => match c with CClick _ => true | _ => false end) in
  (browser run.2 = browser w /\ page run.2 = page w /\ context run.2 = context w
   /\ attachments run.2 = attachments w)
  /\ exists evs,
       trace run.2 = trace w ++ evs
       /\ Forall (fun e => is_page_call (call e) = true) evs
       /\ count_calls is_navigation evs = gotos evs + clicks evs
       /\ count_calls is_navigation evs <= navigation_bound s
       /\ navigation_bound s <= 1
       /\ gotos evs <= match s with
                       | NavigateToHomepage => 1
                       | _ => 0
                       end
       /\ clicks evs <= match s with
                        | AcceptCookieConsent | ClickNavigationItem _ | ClickLink _ => 1
                        | _ => 0
                        end
       /\ count_calls is_dom_query evs
          <= match s with
             | NavigateToHomepage | NavigatedTo _ | TitleContains _ => 0
             | AcceptCookieConsent => 2
             | NavigationItemsVisible t => 2 * length (hashes t)
             | ServicesVisible t | ImpactsVisible t => length (hashes t)
             | KeyboardAccessible => 6
             | _ => 1
             end
       /\ (run.1 = Ok tt ->
           (s = NavigateToHomepage -> gotos evs = 1)
           /\ (forall item, s = ClickNavigationItem item \/ s = ClickLink item ->
               clicks evs = 1)
           /\ (forall items,
                 s = NavigationItemsVisible (Feature.pair_table "Navigation Item" "URL" items) ->
                 count_calls is_dom_query evs = 2 * length items)
           /\ (s = KeyboardAccessible -> count_calls is_dom_query evs = 6)).
Proof.
  intros run gotos clicks.
  change gotos with (count_calls is_goto). change clicks with (count_calls is_click).
  clear gotos clicks.
  destruct (run_step_well_behaved s w) as (evs & Ht & Hh & Hp & Hg & Hc & Hq & _).
  fold run in Ht, Hh.
  split; [exact Hh|]. exists evs.
  split; [exact Ht|]. split; [exact Hp|].
  split; [apply navigation_is_goto_or_click|].
  split; [rewrite navigation_is_goto_or_click; unfold navigation_bound; lia|].
  split; [destruct s; cbn; lia|].
  split; [exact Hg|]. split; [exact Hc|]. split; [exact Hq|].
  intros Hok.
  destruct (passed_step_loaded s w evs Hok Ht) as [Hgo Hclick].
  split; [exact Hgo|]. split; [exact Hclick|]. split.
  - intros items ->. subst run. cbn [run_step] in *.
    destruct w as [u b pg c a t]. destruct pg as [p|].
    + rewrite navigation_items_run in *. cbn [fst snd trace] in *.
      apply app_inv_head in Ht. subst evs.
      rewrite (navigation_events_all _ _ _ Hok). apply count_navigation_pairs.
    + unfold navigation_items_should_be_visible in *.
      rewrite hashes_pair_table in *. destruct items as [|it its].
      * cbn [map for_of] in Ht. unfold ret in Ht. cbn [snd trace] in Ht.
        rewrite <- (app_nil_r t) in Ht at 1.
        apply app_inv_head in Ht. subst evs. reflexivity.
      * cbn [map for_of] in Hok. unfold bind at 1, check_navigation_row in Hok.
        unfold bind at 1, this_page in Hok. cbn [page fst] in Hok. discriminate Hok.
  - intros ->. subst run. cbn [run_step] in *. eapply keyboard_passed_six; eassumption.
Qed.

End RunFacts.

(** The logo steps pass on the reference page. *)
Lemma logo_steps_assert_witness :
  page (Pages.ready Sim.no_faults Pages.kainos) = Some 2
  /\ (for_of [LogoVisible; LogoImageSource; LogoLinksHome]
        (run_step (Sim.driver Sim.no_faults Pages.kainos))
        (Pages.ready Sim.no_faults Pages.kainos)).1 = Ok tt.
Proof.
  split; [reflexivity|].
  apply (logo_steps_assert (Sim.driver Sim.no_faults Pages.kainos)
           (Pages.ready Sim.no_faults Pages.kainos) 2 eq_refl).
  split; [reflexivity|]. split; [|reflexivity].
  exists "/globalassets/images/5_logos/kainos_logo.png?width=180", EmptyString, "?width=180".
  split; reflexivity.
Defined.

(** ** The run as a whole *)
Section RunnerFacts.
Context {U B C P : Type} (drv : Driver U B C P).
Local Abbreviation World := (World U B C P).

Lemma live_from_app (n : nat) (t1 t2 : list Event) :
  live_from n (t1 ++ t2) = live_from (live_from n t1) t2.
Proof. unfold live_from. apply fold_left_app. Qed.

Lemma peak_contexts_app (n : nat) (t1 t2 : list Event) :
  peak_contexts n (t1 ++ t2)
  = Nat.max (peak_contexts n t1) (peak_contexts (live_from n t1) t2).
Proof.
  revert n. induction t1 as [|e t1 IH]; intros n.
  - cbn. pose proof (Nat.le_max_l n 0).
    assert (n <= peak_contexts n t2) by (destruct t2; cbn; lia). lia.
  - cbn [app peak_contexts]. rewrite IH. unfold live_from. cbn [fold_left]. lia.
Qed.

Lemma peak_contexts_ge (n : nat) (t : list Event) : n <= peak_contexts n t.
Proof. destruct t; cbn; lia. Qed.

(** The contexts open after any prefix of a trace never exceed its peak. *)
Lemma prefix_live (t' t : list Event) (n : nat) :
  t' `prefix_of` t -> live_from n t' <= peak_contexts n t.
Proof.
  intros [k ->]. rewrite peak_contexts_app.
  assert (H : forall m l, live_from m l <= peak_contexts m l).
  { intros m l. revert m. induction l as [|e l IH]; intros m; [reflexivity|].
    unfold live_from in *. cbn [fold_left peak_contexts]. specialize (IH (Runner.live_contexts_step m e)). lia. }
  specialize (H n t'). lia.
Qed.

Lemma page_calls_contexts (n : nat) (evs : list Event) :
  Forall (fun e => is_page_call (call e) = true) evs ->
  live_from n evs = n /\ peak_contexts n evs = n
  /\ count_calls is_launch evs = 0 /\ count_calls is_browser_close evs = 0
  /\ lifecycle_returned evs = true.
Proof.
  induction 1 as [|e evs He _ IH]; [repeat split; cbn; lia|].
  destruct IH as (IH1 & IH2 & IH3 & IH4 & IH5).
  unfold live_from, count_calls, lifecycle_returned in *.
  cbn [fold_left peak_contexts List.filter forallb].
  assert (Hstep : Runner.live_contexts_step n e = n).
  { unfold Runner.live_contexts_step. destruct (call e); try discriminate He; reflexivity. }
  rewrite Hstep, IH1, IH2, IH5.
  destruct (call e); try discriminate He; cbn; repeat split; auto; lia.
Qed.

Lemma lifecycle_returned_app (t1 t2 : list Event) :
  lifecycle_returned (t1 ++ t2) = lifecycle_returned t1 && lifecycle_returned t2.
Proof. apply forallb_app. Qed.

Lemma steps_page_calls (ss : list Step) (w : World) :
  exists evs,
    trace (for_of ss (run_step drv) w).2 = trace w ++ evs
    /\ same_handles w (for_of ss (run_step drv) w).2
    /\ Forall (fun e => is_page_call (call e) = true) evs.
Proof.
  revert w. induction ss as [|s ss IH]; intros w.
  - exists []. cbn. rewrite app_nil_r. repeat split; auto.
  - cbn [for_of]. unfold bind.
    destruct (run_step_well_behaved drv s w) as (evs1 & Ht1 & Hh1 & Hp1 & _).
    destruct (run_step drv s w) as [[[]|e] w1]; cbn [fst snd] in *.
    + destruct (IH w1) as (evs2 & Ht2 & Hh2 & Hp2).
      exists (evs1 ++ evs2). rewrite Ht2, Ht1, app_assoc.
      split; [reflexivity|]. split; [eapply same_handles_trans; eassumption|].
      apply Forall_app; split; assumption.
    + exists evs1. repeat split; try apply Hh1; auto.
Qed.

Lemma before_cases u (b : option B) a t :
  Hooks.Before drv (mkWorld u b None None a t)
  = match b with
    | None => (Throw TypeError, mkWorld u b None None a t)
    | Some bh =>
        match newContext drv bh Hooks.context_options u with
        | (Throw e, u1) =>
            (Throw e,
             mkWorld u1 b None None a (t ++ [ev (CNewContext Hooks.context_options) false]))
        | (Ok c, u1) =>
            match newPage drv c u1 with
            | (Throw e, u2) =>
                (Throw e,
                 mkWorld u2 b None (Some c) a
                   (t ++ [ev (CNewContext Hooks.context_options) true; ev CNewPage false]))
            | (Ok p, u2) =>
                (Ok tt,
                 mkWorld (setDefaultTimeout drv p Hooks.page_timeout u2) b (Some p) (Some c) a
                   (t ++ [ev (CNewContext Hooks.context_options) true; ev CNewPage true;
                          ev (CSetDefaultTimeout Hooks.page_timeout) true]))
            end
        end
    end.
Proof.
  unfold Hooks.Before, Hooks.the_browser. unfold_calls. unfold_monad. cbn.
  destruct b as [bh|]; cbn; [|reflexivity].
  destruct (newContext drv bh Hooks.context_options u) as [[c|e] u1]; cbn; [|reflexivity].
  destruct (newPage drv c u1) as [[p|e] u2]; cbn; rewrite <- ?app_assoc; reflexivity.
Qed.

(** What one scenario adds to the trace: no launch, no browser close,
    and, when none of its lifecycle calls threw, one context opened and
    closed again. *)
Lemma run_scenario_events (sc : Feature.Scenario) (w : World) (n : nat) :
  exists evs,
    trace (Runner.run_scenario drv sc w).2 = trace w ++ evs
    /\ browser (Runner.run_scenario drv sc w).2 = browser w
    /\ count_calls is_launch evs = 0
    /\ count_calls is_browser_close evs = 0
    /\ (lifecycle_returned evs = true ->
        live_from n evs = n /\ peak_contexts n evs <= S n).
Proof.
  destruct w as [u b pg0 c0 a0 t].
  remember (Runner.run_scenario drv sc (mkWorld u b pg0 c0 a0 t)) as R eqn:HR.
  unfold Runner.run_scenario, Runner.run_body, Runner.new_world in HR.
  unfold bind at 1 in HR. unfold set_page, set_context, set_attachments in HR.
  cbn [univ browser page context attachments trace] in HR.
  rewrite before_cases in HR. cbn [browser trace].
  destruct b as [bh|].
  2:{ unfold Hooks.After, Hooks.screenshot_on_failure in HR. unfold_monad. cbn in HR.
      subst R. cbn [snd trace browser].
      exists []. rewrite app_nil_r. repeat split; cbn; lia. }
  destruct (newContext drv bh Hooks.context_options u) as [[c|e] u1].
  2:{ unfold Hooks.After, Hooks.screenshot_on_failure in HR. unfold_monad. cbn in HR.
      subst R. cbn [snd trace browser].
      eexists. split; [reflexivity|]. repeat split; cbn; lia. }
  destruct (newPage drv c u1) as [[p|e] u2].
  2:{ unfold Hooks.After, Hooks.screenshot_on_failure in HR. unfold_monad. cbn in HR.
      subst R. cbn [snd trace browser].
      eexists. split; [reflexivity|]. repeat split; cbn; try lia; discriminate. }
  set (w1 := mkWorld _ _ _ _ _ _) in HR.
  destruct (steps_page_calls (Feature.steps sc) w1) as (evs & Ht & Hh & Hp).
  destruct (page_calls_contexts (S n) evs Hp) as (Hl & Hk & Hc1 & Hc2 & Hr).
  destruct (for_of (Feature.steps sc) (run_step drv) w1) as [r2 w2].
  destruct w2 as [u3 b3 pg3 c3 a3 t3]. unfold same_handles in Hh. subst w1.
  cbn [fst snd univ browser page context attachments trace] in *.
  destruct Hh as (-> & -> & -> & ->). subst t3.
  revert HR.
  unfold Hooks.After, Hooks.screenshot_on_failure, Hooks.close_page, Hooks.close_context.
  unfold Runner.status_of.
  destruct r2 as [[]|e2]; unfold_calls; unfold_monad;
    cbn -[Hooks.screenshot_path Hooks.context_options Hooks.page_timeout];
    repeat (next_answer; cbn -[Hooks.screenshot_path Hooks.context_options Hooks.page_timeout]);
    intros ->; cbn [snd trace browser];
    (eexists; split; [rewrite <- !app_assoc; reflexivity|]);
    (split; [reflexivity|]);
    rewrite !count_calls_app, !lifecycle_returned_app, !live_from_app, !peak_contexts_app,
      ?Hc1, ?Hc2, ?Hr;
    cbn -[Hooks.screenshot_path Hooks.context_options Hooks.page_timeout];
    rewrite ?Hl, ?Hk; cbn;
    (split; [reflexivity|]); (split; [reflexivity|]);
    intros Hret; try discriminate Hret; (split; [reflexivity | lia]).
Qed.

Lemma run_scenarios_events (scs : list Feature.Scenario) (w : World) (n : nat) :
  exists evs,
    trace (Runner.run_scenarios drv scs w).2 = trace w ++ evs
    /\ browser (Runner.run_scenarios drv scs w).2 = browser w
    /\ count_calls is_launch evs = 0
    /\ count_calls is_browser_close evs = 0
    /\ (lifecycle_returned evs = true ->
        live_from n evs = n /\ peak_contexts n evs <= S n).
Proof.
  revert w. induction scs as [|sc scs IH]; intros w.
  - exists []. cbn. rewrite app_nil_r. repeat split; lia.
  - cbn [Runner.run_scenarios].
    destruct (run_scenario_events sc w n) as (evs1 & Ht1 & Hb1 & Hl1 & Hc1 & Hr1).
    destruct (Runner.run_scenario drv sc w) as [entry w1]. cbn [snd] in *.
    destruct (IH w1) as (evs2 & Ht2 & Hb2 & Hl2 & Hc2 & Hr2).
    destruct (Runner.run_scenarios drv scs w1) as [entries w2]. cbn [snd] in *.
    exists (evs1 ++ evs2). rewrite Ht2, Ht1, app_assoc. split; [reflexivity|].
    split; [congruence|]. rewrite !count_calls_app, Hl1, Hl2, Hc1, Hc2.
    split; [reflexivity|]. split; [reflexivity|].
    rewrite lifecycle_returned_app, live_from_app, peak_contexts_app.
    intros H. apply andb_true_iff in H as [H1 H2].
    destruct (Hr1 H1) as [Hlive1 Hpeak1]. rewrite Hlive1.
    destruct (Hr2 H2) as [Hlive2 Hpeak2]. split; [exact Hlive2 | lia].
Qed.

(** C8, as amended. The configuration gives the run one lane. The run
    launches the browser once, as its first call, and closes it once,
    as its last call, when the launch returned. As long as no page
    acquisition, screenshot or close throws, at most one browsing
    context is open at any time of the run. *)
Theorem one_lane_one_browser_one_context (env : option string)
    (scs : list Feature.Scenario) (w : World) :
  trace w = [] ->
  let run := Runner.run_all drv env scs w in
  Runner.lanes Config.default = 1%N
  /\ (exists launched rest,
        trace run.2 = ev (CLaunch (Hooks.launch_options env)) launched :: rest
        /\ count_calls is_launch rest = 0
        /\ (if launched
            then exists middle closed,
                   rest = middle ++ [ev CBrowserClose closed]
                   /\ count_calls is_browser_close middle = 0
            else rest = []))
  /\ (lifecycle_returned (trace run.2) = true ->
      forall t', t' `prefix_of` trace run.2 -> Runner.live_contexts t' <= 1).
Proof.
  intros Ht run. split; [reflexivity|].
  destruct w as [u b pg c a t]. cbn [trace] in Ht. subst t. subst run.
  unfold Runner.run_all, Hooks.BeforeAll. unfold_calls. unfold_monad. cbn.
  destruct (launch drv (Hooks.launch_options env) u) as [[bh|e] u1]; cbn.
  - set (w1 := mkWorld _ _ _ _ _ _).
    destruct (run_scenarios_events scs w1 0) as (evs & Ht & Hb & Hl & Hc & Hr).
    destruct (Runner.run_scenarios drv scs w1) as [entries w2]. cbn [snd] in *.
    destruct w2 as [u2 b2 pg2 c2 a2 t2]. subst w1. cbn [trace browser] in *. subst b2 t2.
    unfold Hooks.AfterAll. unfold_calls. unfold_monad. cbn.
    destruct (browserClose drv bh u2) as [r u3]. cbn.
    split.
    + exists true, (evs ++ [ev CBrowserClose (is_ok r)]). split; [reflexivity|].
      rewrite count_calls_app, Hl. split; [reflexivity|].
      exists evs, (is_ok r). split; [reflexivity | exact Hc].
    + intros Hret t' Hpre.
      change (live_from 0 t' <= 1). etransitivity; [apply prefix_live; exact Hpre|].
      assert (Hevs : lifecycle_returned evs = true).
      { change (lifecycle_returned
                  ([ev (CLaunch (Hooks.launch_options env)) true]
                     ++ evs ++ [ev CBrowserClose (is_ok r)]) = true) in Hret.
        rewrite !lifecycle_returned_app in Hret.
        apply andb_true_iff in Hret as [_ Hret].
        apply andb_true_iff in Hret as [Hret _]. exact Hret. }
      destruct (Hr Hevs) as [Hlive Hpeak].
      change (peak_contexts 0
                ([ev (CLaunch (Hooks.launch_options env)) true]
                   ++ evs ++ [ev CBrowserClose (is_ok r)]) <= 1).
      rewrite !peak_contexts_app, ?live_from_app.
      assert (H1 : live_from 0 [ev (CLaunch (Hooks.launch_options env)) true] = 0)
        by reflexivity.
      assert (H2 : peak_contexts 0 [ev (CLaunch (Hooks.launch_options env)) true] = 0)
        by reflexivity.
      rewrite H1, H2, Hlive.
      assert (H3 : peak_contexts 0 [ev CBrowserClose (is_ok r)] = 0) by reflexivity.
      rewrite H3. lia.
  - split.
    + exists false, []. repeat split.
    + intros _ t' Hpre. change (live_from 0 t' <= 1).
      etransitivity; [apply prefix_live; exact Hpre|]. cbn. lia.
Qed.

(** C10. The three parameterized steps hand the driver the pattern
    [new RegExp(name, 'i')] as the accessible name to look for, not the
    string itself; when the pattern does not construct they throw before
    any call. What such a pattern matches, where the fragment reads
    it: the grammar gives its terms, and it matches a name exactly when
    some part of the name, anywhere in it, is matched by the terms, a
    letter standing for itself in either case, the dot for any code
    unit but a line end, a quantifier for the repetitions it allows. A
    name without syntax characters therefore matches whatever contains
    it, in any case: "Share icons" matches "Open Share icons modal
    window", which is not equal to it, and not "Search"; and on the
    reference page the step passes where the exact name finds nothing.
    A syntax character is not taken literally: "S.arch" matches "Search"
    and not "Sarch", the escaped dot matches the dot alone, "a*", "a+"
    and "a?" differ on how many "a" they allow, and a pattern that does
    not construct makes the step throw with no call made. *)
Theorem name_argument_is_a_pattern (w : World) (p : P) (name address : string) :
  page w = Some p ->
  let pattern := Some (NameRegExp name "i") in
  let part_of (s : string) (matched : string -> Prop) :=
    exists pre m post, s = pre +:+ m +:+ post /\ matched m in
  (if regexpConstructs drv name "i"
   then (button_should_be_visible drv name w).1
          = toBeVisible drv p (ByRole Button pattern) (univ w)
        /\ (link_should_be_visible drv name w).1
          = toBeVisible drv p (ByRole Link pattern) (univ w)
        /\ (link_should_point_to drv name address w).1
          = toHaveAttribute drv p (ByRole Link pattern) "href" address (univ w)
   else button_should_be_visible drv name w = (Throw RegExpSyntaxError, w)
        /\ link_should_be_visible drv name w = (Throw RegExpSyntaxError, w)
        /\ link_should_point_to drv name address w = (Throw RegExpSyntaxError, w))
  (* the pattern, by the grammar and the meaning of its terms *)
  /\ (forall r,
        RegExp.compile name "i" = RegExp.Parsed r
        <-> RegExp.Parses name (RegExp.terms r) /\ RegExp.ignore_case r = true)
  /\ (forall r s,
        RegExp.compile name "i" = RegExp.Parsed r ->
        (RegExp.test r s = true <-> part_of s (RegExp.Lang true (RegExp.terms r))))
  (* a name without syntax characters *)
  /\ (JS.all_chars RegExp.is_plain name = true ->
      exists r,
        RegExp.compile name "i" = RegExp.Parsed r
        /\ (forall s,
              RegExp.test r s = true
              <-> part_of s (fun m =>
                    Forall2 (fun c u => c = u \/ RegExp.upper_of c u \/ RegExp.upper_of u c)
                      (list_ascii_of_string name) (list_ascii_of_string m)))
        /\ (forall s, RegExp.test r s = JS.includes_ci name s))
  (* the reference driver constructs it and looks elements up with it *)
  /\ (forall faults site,
        match RegExp.compile name "i" with
        | RegExp.Parsed _ => regexpConstructs (Sim.driver faults site) name "i" = true
        | RegExp.SyntaxError => regexpConstructs (Sim.driver faults site) name "i" = false
        | RegExp.Unsupported => True
        end)
  /\ (forall r role doc,
        RegExp.compile name "i" = RegExp.Parsed r ->
        Sim.select (ByRole role pattern) doc
        = Ok (List.filter
                (fun ie : nat * Sim.Element =>
                   Sim.has_role role ie.2 && RegExp.test r (Sim.name ie.2))
                (imap (fun i e => (i, e)) doc)))
  (* examples *)
  /\ (exists r,
        RegExp.compile "Share icons" "i" = RegExp.Parsed r
        /\ RegExp.test r "Open Share icons modal window" = true
        /\ RegExp.test r "open SHARE ICONS modal window" = true
        /\ RegExp.test r "Share" = false
        /\ RegExp.test r "Search" = false
        /\ String.eqb "Share icons" "Open Share icons modal window" = false)
  /\ (exists r,
        RegExp.compile "S.arch" "i" = RegExp.Parsed r
        /\ RegExp.test r "Search" = true
        /\ RegExp.test r "Sarch" = false
        /\ JS.includes_ci "S.arch" "Search" = false)
  /\ (exists r,
        RegExp.compile ("S" +:+ String RegExp.backslash ".arch") "i" = RegExp.Parsed r
        /\ RegExp.test r "Search" = false
        /\ RegExp.test r "S.arch" = true)
  /\ (exists star plus opt,
        RegExp.compile "Sea*rch" "i" = RegExp.Parsed star
        /\ RegExp.compile "Sea+rch" "i" = RegExp.Parsed plus
        /\ RegExp.compile "Sea?rch" "i" = RegExp.Parsed opt
        /\ map (RegExp.test star) ["Serch"; "Search"; "Seaarch"; "Seerch"] = [true; true; true; false]
        /\ map (RegExp.test plus) ["Serch"; "Search"; "Seaarch"; "Seerch"] = [false; true; true; false]
        /\ map (RegExp.test opt) ["Serch"; "Search"; "Seaarch"; "Seerch"] = [true; true; false; false])
  /\ (let sim := Sim.driver Sim.no_faults Pages.kainos in
      let ready := Pages.ready Sim.no_faults Pages.kainos in
      (button_should_be_visible sim "Share icons" ready).1 = Ok tt
      /\ toBeVisible sim 2 (ByRole Button (Some (NameText "Share icons" true))) (univ ready)
         = Throw AssertionError
      /\ (button_should_be_visible sim "Shore icons" ready).1 = Throw AssertionError
      /\ (button_should_be_visible sim "S.arch" ready).1 = Ok tt
      /\ toBeVisible sim 2 (ByRole Button (Some (NameText "S.arch" false))) (univ ready)
         = Throw AssertionError
      /\ button_should_be_visible sim "*" ready = (Throw RegExpSyntaxError, ready)
      /\ button_should_be_visible sim "(" ready = (Throw RegExpSyntaxError, ready)
      /\ button_should_be_visible sim "Search (" ready = (Throw RegExpSyntaxError, ready)
      /\ map (fun source => regexpConstructs sim source "i")
           ["("; "["; "a)"; "*"; "C++"; "a{2,1}"; "(a)"; "[a-z]+"; "a{1,2}"; "Share icons"]
         = [false; false; false; false; false; false; true; true; true; true]).
Proof.
  intros Hp pattern part_of.
  split; [|split; [|split; [|split; [|split; [|split; [|split; [|split; [|split; [|split]]]]]]]]].
  - destruct w as [u b pg c a t]. cbn [page] in Hp. subst pg.
    unfold button_should_be_visible, link_should_be_visible, link_should_point_to.
    unfold_calls. unfold_monad. cbn.
    destruct (regexpConstructs drv name "i"); cbn; repeat split.
  - intros r. apply compile_parses.
  - intros r s Hr. apply compile_parses in Hr as [_ Hi].
    unfold RegExp.test. rewrite Hi. apply search_spec.
  - intros Hplain. exists (RegExp.mk (RegExp.literal_terms name) true). split.
    + apply compile_parses. split; [apply plain_parses, Hplain | reflexivity].
    + split.
      * intros s. unfold RegExp.test. cbn [RegExp.ignore_case RegExp.terms].
        rewrite search_spec. unfold part_of.
        split; intros (pre & m & post & Hs & Hm); exists pre, m, post; (split; [exact Hs|]);
          apply lang_literal; exact Hm.
      * intros s. apply search_literal.
  - intros faults site. pose proof (well_formed_fragment name "i") as H.
    cbn [regexpConstructs Sim.driver]. unfold Sim.sim_regexpConstructs.
    destruct (RegExp.compile name "i"); [rewrite H | rewrite H | exact I]; reflexivity.
  - intros r role doc Hr. unfold Sim.select, pattern, Sim.name_test. rewrite Hr. reflexivity.
  - eexists. repeat split.
  - eexists. repeat split.
  - eexists. repeat split.
  - eexists _, _, _. repeat split.
  - repeat split.
Qed.

End RunnerFacts.

(** ** The routines on concrete pages *)
Section OnThePage.
Import Sim Pages.

(** The navigation step passes on the reference page with the table of
    the feature text. *)
Lemma navigation_items_checked_in_order_witness :
  page opened = Some 2
  /\ (navigation_items_should_be_visible good Feature.navigation_table opened).1 = Ok tt.
Proof.
  split; [reflexivity|].
  apply (proj2 (proj1 (navigation_items_checked_in_order good opened 2
                         Feature.navigation_items eq_refl))).
  repeat constructor.
Defined.

(** The dropdown steps pass on the reference page. *)
Lemma dropdown_labels_all_checked_witness :
  page opened = Some 2
  /\ (for_of Feature.dropdown_steps (run_step good) opened).1 = Ok tt.
Proof.
  split; [reflexivity|].
  apply (proj2 (proj1 (proj2 (proj2 (dropdown_labels_all_checked good opened 2 eq_refl))))).
  split; [reflexivity|]. split; [reflexivity|]. repeat constructor.
Defined.

(** A failed scenario on a working browser gets its one screenshot. *)
Lemma failure_screenshot_attached_witness :
  attachments (Hooks.After good (ended "Verify  logo presence" FAILED) opened).2
  = [{| data := png; mediaType := "image/png" |}].
Proof.
  destruct (failure_screenshot_attached good opened (ended "Verify  logo presence" FAILED))
    as (_ & evs & _ & _ & Hfailed).
  exact (proj1 (Hfailed eq_refl 2 eq_refl)).
Defined.

(** After a passed scenario the page and then the context are closed. *)
Lemma teardown_after_screenshot_witness :
  page opened = Some 2 /\ context opened = Some 1
  /\ trace (Hooks.After good (ended "Verify logo" PASSED) opened).2
     = trace opened ++ [ev CPageClose true; ev CContextClose true].
Proof.
  split; [reflexivity|]. split; [reflexivity|].
  exact (proj2 (proj2 (teardown_after_screenshot good opened (ended "Verify logo" PASSED)
                         2 1 eq_refl eq_refl))).
Defined.

(** On a page whose Workday link leads elsewhere the navigation step
    stops at the second row of the feature's table: the link is visible
    and the assertion on its [href] does not hold. *)
Lemma steps_fail_at_first_failure_witness :
  page (ready no_faults moved_workday) = Some 2
  /\ (run_step (driver no_faults moved_workday)
        (NavigationItemsVisible Feature.navigation_table)
        (ready no_faults moved_workday)).1 = Throw AssertionError.
Proof.
  split; [reflexivity|].
  destruct (steps_fail_at_first_failure (driver no_faults moved_workday)
              (NavigationItemsVisible Feature.navigation_table)
              (ready no_faults moved_workday))
    as (_ & _ & Hassert & _).
  refine (proj1 (Hassert 2 eq_refl
                   [("Digital Services", "/digital-services")] ("Workday", "/workday")
                   [("Industries", "/industries"); ("Insights", "/insights");
                    ("Careers", "https://careers.kainos.com/gb/en")]
                   (Some "/workday-services") eq_refl _ eq_refl eq_refl _)).
  - repeat constructor.
  - discriminate.
Defined.

(** The navigation step makes ten lookups for the five rows of the
    feature text; a click on the Workday link is the one call of its
    step that loads a document, and the page is then at the link's
    address. *)
Lemma step_effects_bounded_witness :
  (exists evs,
     trace (run_step good (NavigationItemsVisible Feature.navigation_table) opened).2
     = trace opened ++ evs
     /\ count_calls is_dom_query evs = 10)
  /\ (exists evs,
        trace (run_step good (ClickNavigationItem "Workday") opened).2 = trace opened ++ evs
        /\ count_calls is_click evs = 1
        /\ url good 2 (univ opened) = "about:blank"
        /\ url good 2 (univ (run_step good (ClickNavigationItem "Workday") opened).2)
           = "https://www.kainos.com/workday").
Proof.
  split.
  - destruct (step_effects_bounded good (NavigationItemsVisible Feature.navigation_table)
                opened)
      as (_ & evs & Ht & _ & _ & _ & _ & _ & _ & _ & Hpassed).
    exists evs. split; [exact Ht|].
    exact (proj1 (proj2 (proj2 (Hpassed eq_refl))) Feature.navigation_items eq_refl).
  - destruct (step_effects_bounded good (ClickNavigationItem "Workday") opened)
      as (_ & evs & Ht & _ & _ & _ & _ & _ & _ & _ & Hpassed).
    exists evs. split; [exact Ht|]. split; [|split; reflexivity].
    exact (proj1 (proj2 (Hpassed eq_refl)) "Workday" (or_introl eq_refl)).
Defined.

(** The whole feature on a working browser: one context at most, at the
    end as at every moment before. *)
Lemma one_lane_one_browser_one_context_witness :
  trace (start 1000) = []
  /\ Runner.live_contexts (trace (Runner.run_all good None Feature.scenarios (start 1000)).2)
     <= 1.
Proof.
  split; [reflexivity|].
  destruct (one_lane_one_browser_one_context good None Feature.scenarios (start 1000) eq_refl)
    as (_ & _ & Hcontexts).
  apply Hcontexts; [vm_compute; reflexivity | reflexivity].
Defined.

(** With a banner whose button can be clicked the cookie step returns. *)
Lemma cookie_consent_outcome_witness :
  page (ready no_faults (kainos_with_banner true)) = Some 2
  /\ (accept_cookie_consent (driver no_faults (kainos_with_banner true))
        (ready no_faults (kainos_with_banner true))).1 = Ok tt.
Proof.
  split; [reflexivity|].
  destruct (cookie_consent_outcome (driver no_faults (kainos_with_banner true))
              (ready no_faults (kainos_with_banner true)) 2 eq_refl) as [_ Hvisible].
  exact (proj1 (Hvisible eq_refl)).
Defined.

(** The button step on the reference page asks for the pattern. *)
Lemma name_argument_is_a_pattern_witness :
  page opened = Some 2
  /\ (button_should_be_visible good "Share icons" opened).1
     = toBeVisible good 2 (ByRole Button (Some (NameRegExp "Share icons" "i")))
         (univ opened).
Proof.
  split; [reflexivity|].
  exact (proj1 (proj1 (name_argument_is_a_pattern good opened 2 "Share icons" "/contact-us"
                         eq_refl))).
Defined.

(** *** Where the specification and the code part *)

(** C2 as stated fails: a FAILED scenario whose capture throws gets no
    screenshot, in the hook and in the scenario's report entry. *)
Lemma failed_scenario_without_screenshot :
  let drv := driver broken_screenshot moved_workday in
  let after :=
    Hooks.After drv (ended "Verify main navigation menu items" FAILED)
      (ready broken_screenshot moved_workday) in
  let entry :=
    (Runner.run_scenario drv Feature.navigation_scenario
       (Hooks.BeforeAll drv None (start 1000)).2).1 in
  after.1 = Throw (DriverError "screenshot")
  /\ attachments after.2 = []
  /\ Runner.status entry = FAILED
  /\ Runner.attached entry = [].
Proof. repeat split. Qed.

(** C3 as stated fails: when the capture throws no release is attempted
    and the context stays open; and an error of a release is thrown on. *)
Lemma teardown_skipped_and_errors_thrown :
  (let run :=
     Hooks.After (driver broken_screenshot kainos) (ended "Verify logo" FAILED)
       (ready broken_screenshot kainos) in
   run.1 = Throw (DriverError "screenshot")
   /\ count_calls is_release (trace run.2) = 0
   /\ contexts (univ run.2) = [1])
  /\ (let run :=
        Hooks.After (driver broken_page_close kainos) (ended "Verify logo" PASSED)
          (ready broken_page_close kainos) in
      run.1 = Throw (DriverError "page.close")
      /\ count_calls is_release (trace run.2) = 1
      /\ contexts (univ run.2) = [1]).
Proof. repeat split. Qed.

(** C4 as stated fails: the cookie button is not found on the reference
    page, and the cookie step returns all the same. *)
Lemma cookie_step_passes_without_banner :
  select accept_cookies_button (document kainos) = Ok []
  /\ (run_step good AcceptCookieConsent opened).1 = Ok tt.
Proof. split; reflexivity. Qed.

(** C5 as stated fails: the navigation step makes ten lookups on the
    reference page, and the keyboard step six. *)
Lemma table_steps_make_many_queries :
  let added (s : Step) := drop (length (trace opened)) (trace (run_step good s opened).2) in
  (run_step good (NavigationItemsVisible Feature.navigation_table) opened).1 = Ok tt
  /\ count_calls is_dom_query (added (NavigationItemsVisible Feature.navigation_table)) = 10
  /\ (run_step good KeyboardAccessible opened).1 = Ok tt
  /\ count_calls is_dom_query (added KeyboardAccessible) = 6.
Proof. repeat split. Qed.

(** C6 as stated fails: on a header whose logo is a bare image next to
    a text link "Catalogo" to the home page, the three logo steps pass.
    The link whose [href] they assert is that text link, the only link
    of the page, found because its name contains "logo"; no link
    encloses the image. *)
Lemma logo_link_need_not_enclose_logo :
  let drv := driver no_faults catalogue in
  let w := ready no_faults catalogue in
  (for_of [LogoVisible; LogoImageSource; LogoLinksHome] (run_step drv) w).1 = Ok tt
  /\ select HeaderSteps.logo (document catalogue) = Ok [(1, logo_image_in [])]
  /\ enclosing_links (logo_image_in []) = []
  /\ select HeaderSteps.logo_link (document catalogue)
     = Ok [(2, Pages.header_link "Catalogo" "/")]
  /\ List.filter (has_role Link) (document catalogue) = [Pages.header_link "Catalogo" "/"].
Proof. repeat split. Qed.

(** C8 as stated fails: when the capture of a failed scenario throws its
    context is never closed, and the next scenario opens a second one. *)
Lemma two_contexts_open_at_once :
  let drv := driver broken_screenshot moved_workday in
  let run :=
    Runner.run_all drv None [Feature.navigation_scenario; Feature.navigation_scenario]
      (start 1000) in
  take 12 (trace run.2) `prefix_of` trace run.2
  /\ Runner.live_contexts (take 12 (trace run.2)) = 2
  /\ contexts
       (univ (Runner.run_scenarios drv
                [Feature.navigation_scenario; Feature.navigation_scenario]
                (Hooks.BeforeAll drv None (start 1000)).2).2) = [3; 1].
Proof.
  split; [|split; reflexivity].
  apply prefix_take.
Qed.

(** C9 as stated fails: with the banner's button visible but covered,
    the click times out and the cookie step throws. *)
Lemma cookie_step_throws_when_click_fails :
  (accept_cookie_consent (driver no_faults (kainos_with_banner false))
     (ready no_faults (kainos_with_banner false))).1 = Throw TimeoutError.
Proof. reflexivity. Qed.

End OnThePage.

(** * Further properties of the hooks and the steps *)
Section HookFacts.
Context {U B C P : Type} (drv : Driver U B C P).
Local Abbreviation World := (World U B C P).

(** X1. BeforeAll launches the browser exactly once, headed only when
    HEADLESS is the string "false" and then slowed by 100 ms; the handle
    is kept when the launch returns, and the error is thrown on, with
    nothing kept, when it does not. *)
Theorem before_all_launches_once (env : option string) (w : World) :
  let headed := bool_decide (env = Some "false") in
  let options := {| headless := negb headed; slowMo := if headed then 100 else 0 |} in
  let launched := launch drv options (univ w) in
  let run := Hooks.BeforeAll drv env w in
  run.1 = match launched.1 with Ok _ => Ok tt | Throw e => Throw e end
  /\ browser run.2 = match launched.1 with Ok b => Some b | Throw _ => browser w end
  /\ univ run.2 = launched.2
  /\ trace run.2 = trace w ++ [ev (CLaunch options) (is_ok launched.1)]
  /\ page run.2 = page w /\ context run.2 = context w
  /\ attachments run.2 = attachments w.
Proof.
  intros headed options launched run.
  assert (Hopt : Hooks.launch_options env = options).
  { unfold Hooks.launch_options, Hooks.headless_of, options, headed.
    destruct env as [v|]; [|reflexivity].
    destruct (String.eqb_spec v "false") as [->|Hne].
    - rewrite bool_decide_eq_true_2 by reflexivity. reflexivity.
    - rewrite bool_decide_eq_false_2 by congruence. reflexivity. }
  subst run launched. unfold Hooks.BeforeAll. rewrite Hopt. clearbody options.
  destruct w as [u b pg c a t]. unfold_calls. unfold_monad. cbn.
  destruct (launch drv options u) as [[bh|e] u1]; cbn; repeat split.
Qed.

(** X2. With the browser launched, Before opens a context of 1920 by
    1080 that ignores HTTPS errors, then a page, then sets the page's
    timeout to 30000. When the context cannot be opened nothing is
    assigned; when the page cannot be opened the context is already
    assigned and stays open, and the page is not assigned. *)
Theorem before_acquires_context_then_page (w : World) (b : B) :
  browser w = Some b ->
  let options :=
    {| viewport_width := 1920; viewport_height := 1080; ignoreHTTPSErrors := true |} in
  let opened := newContext drv b options (univ w) in
  let run := Hooks.Before drv w in
  match opened.1 with
  | Throw e =>
      run.1 = Throw e /\ context run.2 = context w /\ page run.2 = page w
      /\ trace run.2 = trace w ++ [ev (CNewContext options) false]
  | Ok c =>
      let paged := newPage drv c opened.2 in
      match paged.1 with
      | Throw e =>
          run.1 = Throw e /\ context run.2 = Some c /\ page run.2 = page w
          /\ trace run.2 = trace w ++ [ev (CNewContext options) true; ev CNewPage false]
      | Ok p =>
          run.1 = Ok tt /\ context run.2 = Some c /\ page run.2 = Some p
          /\ univ run.2 = setDefaultTimeout drv p 30000 paged.2
          /\ trace run.2
             = trace w ++ [ev (CNewContext options) true; ev CNewPage true;
                           ev (CSetDefaultTimeout 30000) true]
      end
  end.
Proof.
  intros Hb options opened run. destruct w as [u bw pg c a t]. cbn [browser] in Hb.
  subst bw. subst run opened. change options with Hooks.context_options.
  unfold Hooks.Before, Hooks.the_browser. unfold_calls. unfold_monad. cbn.
  destruct (newContext drv b Hooks.context_options u) as [[cx|e] u1]; cbn;
    [|repeat split].
  destruct (newPage drv cx u1) as [[p|e] u2]; cbn; rewrite <- ?app_assoc; repeat split.
Qed.

(** X3. After on a world whose page was never set: for a FAILED result
    it throws a TypeError at the screenshot, before any call, so that a
    context that is open stays open; for any other result it skips the
    page and closes the context when there is one. *)
Theorem after_without_page (w : World) (arg : HookArg) :
  page w = None ->
  let run := Hooks.After drv arg w in
  (result_status arg = Some FAILED -> run = (Throw TypeError, w))
  /\ (result_status arg <> Some FAILED ->
      match context w with
      | None => run = (Ok tt, w)
      | Some c =>
          let closed := contextClose drv c (univ w) in
          run.1 = closed.1 /\ univ run.2 = closed.2
          /\ trace run.2 = trace w ++ [ev CContextClose (is_ok closed.1)]
      end).
Proof.
  intros Hp run. destruct w as [u b pg c a t]. cbn [page] in Hp. subst pg. subst run.
  unfold Hooks.After, Hooks.screenshot_on_failure, Hooks.close_page, Hooks.close_context,
    Hooks.failed.
  split.
  - intros ->. reflexivity.
  - intros Hst. destruct (result_status arg) as [st|].
    + destruct st; try congruence; unfold_calls; unfold_monad; cbn;
        (destruct c as [cx|]; [|reflexivity]);
        cbn; destruct (contextClose drv cx u) as [r u1]; repeat split.
    + unfold_calls; unfold_monad; cbn.
      destruct c as [cx|]; [|reflexivity].
      cbn. destruct (contextClose drv cx u) as [r u1]; repeat split.
Qed.

(** X4. Without a browser handle Before throws a TypeError and AfterAll
    returns, neither making any call nor changing anything. *)
Theorem hooks_without_browser (w : World) :
  browser w = None ->
  Hooks.Before drv w = (Throw TypeError, w) /\ Hooks.AfterAll drv w = (Ok tt, w).
Proof.
  intros Hb. destruct w as [u b pg c a t]. cbn [browser] in Hb. subst b.
  split; reflexivity.
Qed.

End HookFacts.

Section ScenarioFacts.
Context {U B C P : Type} (drv : Driver U B C P).
Local Abbreviation World := (World U B C P).

(** X5. The report entry of a scenario carries the scenario's name and
    at most one attachment, and none at all when the scenario passed,
    whatever was attached to earlier scenarios. *)
Theorem scenario_attaches_at_most_one (sc : Feature.Scenario) (w : World) :
  let entry := (Runner.run_scenario drv sc w).1 in
  Runner.scenario entry = Feature.name sc
  /\ length (Runner.attached entry) <= 1
  /\ (Runner.status entry = PASSED -> Runner.attached entry = []).
Proof.
  destruct w as [u b pg0 c0 a0 t].
  remember (Runner.run_scenario drv sc (mkWorld u b pg0 c0 a0 t)) as R eqn:HR.
  unfold Runner.run_scenario, Runner.run_body, Runner.new_world in HR.
  unfold bind at 1 in HR. unfold set_page, set_context, set_attachments in HR.
  cbn [univ browser page context attachments trace] in HR.
  rewrite before_cases in HR. cbv zeta.
  destruct b as [bh|].
  2:{ unfold Hooks.After, Hooks.screenshot_on_failure in HR. unfold_monad. cbn in HR.
      subst R. cbn. repeat split; try lia; try discriminate. }
  destruct (newContext drv bh Hooks.context_options u) as [[c|e] u1].
  2:{ unfold Hooks.After, Hooks.screenshot_on_failure in HR. unfold_monad. cbn in HR.
      subst R. cbn. repeat split; try lia; try discriminate. }
  destruct (newPage drv c u1) as [[p|e] u2].
  2:{ unfold Hooks.After, Hooks.screenshot_on_failure in HR. unfold_monad. cbn in HR.
      subst R. cbn. repeat split; try lia; try discriminate. }
  set (w1 := mkWorld _ _ _ _ _ _) in HR.
  destruct (steps_page_calls drv (Feature.steps sc) w1) as (evs & Ht & Hh & Hp).
  destruct (for_of (Feature.steps sc) (run_step drv) w1) as [r2 w2].
  destruct w2 as [u3 b3 pg3 c3 a3 t3]. unfold same_handles in Hh. subst w1.
  cbn [fst snd univ browser page context attachments trace] in *.
  destruct Hh as (-> & -> & -> & ->). subst t3.
  revert HR.
  unfold Hooks.After, Hooks.screenshot_on_failure, Hooks.close_page, Hooks.close_context.
  unfold Runner.status_of.
  destruct r2 as [[]|e2]; unfold_calls; unfold_monad;
    cbn -[Hooks.screenshot_path Hooks.context_options Hooks.page_timeout];
    repeat (next_answer; cbn -[Hooks.screenshot_path Hooks.context_options Hooks.page_timeout]);
    intros ->; cbn; repeat split; try lia; try discriminate.
Qed.

End ScenarioFacts.

Section StepFacts.
Context {U B C P : Type} (drv : Driver U B C P).
Local Abbreviation World := (World U B C P).

(** X6. 'I should be navigated to {string}' passes exactly when the
    current address contains the argument somewhere; it reads the
    address once, looks nothing up in the document and leaves the page
    as it is. The empty argument always passes. *)
Theorem navigated_to_checks_substring (w : World) (p : P) (address : string) :
  page w = Some p ->
  let run := should_be_navigated_to drv address w in
  (run.1 = Ok tt <-> exists pre post, url drv p (univ w) = pre +:+ address +:+ post)
  /\ (should_be_navigated_to drv EmptyString w).1 = Ok tt
  /\ univ run.2 = univ w
  /\ trace run.2 = trace w ++ [ev CUrl true].
Proof.
  intros Hp run. destruct w as [u b pg c a t]. cbn [page] in Hp. subst pg. subst run.
  unfold should_be_navigated_to. unfold_calls. unfold_monad. cbn.
  split; [|split; [|split; [|]]].
  - rewrite <- includes_app.
    destruct (JS.includes address (url drv p u)); cbn; split; congruence.
  - destruct (url drv p u); reflexivity.
  - destruct (JS.includes address (url drv p u)); reflexivity.
  - destruct (JS.includes address (url drv p u)); reflexivity.
Qed.

(** X7. 'the page title should contain {string}' passes exactly when
    the title is obtained and contains the argument; an error of
    [title()] is thrown on. *)
Theorem title_checks_substring (w : World) (p : P) (text : string) :
  page w = Some p ->
  let run := title_should_contain drv text w in
  (run.1 = Ok tt <->
     exists t pre post, title drv p (univ w) = Ok t /\ t = pre +:+ text +:+ post)
  /\ (forall e, title drv p (univ w) = Throw e -> run.1 = Throw e)
  /\ univ run.2 = univ w
  /\ trace run.2 = trace w ++ [ev CTitle (is_ok (title drv p (univ w)))].
Proof.
  intros Hp run. destruct w as [u b pg c a t]. cbn [page] in Hp. subst pg. subst run.
  unfold title_should_contain. unfold_calls. unfold_monad. cbn.
  destruct (title drv p u) as [s|e]; cbn.
  - split; [|split; [discriminate|]].
    + destruct (JS.includes text s) eqn:Hi; cbn.
      * split; [intros _|reflexivity]. apply includes_app in Hi as (pre & post & ->).
        eauto.
      * split; [discriminate|]. intros (s' & pre & post & Hs & ->). injection Hs as ->.
        assert (JS.includes text (pre +:+ text +:+ post) = true)
          by (apply includes_app; eauto).
        congruence.
    + destruct (JS.includes text s); split; reflexivity.
  - split; [|split; [intros e' He'; congruence | split; reflexivity]].
    split; [discriminate|]. intros (s' & pre & post & Hs & _). discriminate.
Qed.

(** X8. The two click steps are one routine. It clicks the link of
    the header with exactly that name and waits for the document only
    when the click returned; it throws what the click or the wait
    throws. *)
Theorem click_then_wait_for_load (w : World) (p : P) (item : string) :
  page w = Some p ->
  let l := Within (Css "#header") (ByRole Link (Some (NameText item true))) in
  let clicked := click drv p l (univ w) in
  let run := click_navigation_item drv item w in
  click_link drv item w = run
  /\ match clicked.1 with
     | Throw e =>
         run.1 = Throw e /\ univ run.2 = clicked.2
         /\ trace run.2 = trace w ++ [ev (CClick l) false]
     | Ok _ =>
         let loaded := waitForLoadState drv p "domcontentloaded" clicked.2 in
         run.1 = loaded.1 /\ univ run.2 = loaded.2
         /\ trace run.2
            = trace w ++ [ev (CClick l) true;
                          ev (CWaitForLoadState "domcontentloaded") (is_ok loaded.1)]
     end.
Proof.
  intros Hp l clicked run. split; [reflexivity|].
  destruct w as [u b pg c a t]. cbn [page] in Hp. subst pg. subst run clicked.
  unfold click_navigation_item. change (header_link (Some item)) with l.
  unfold_calls. unfold_monad. cbn -[l].
  destruct (click drv p l u) as [[[]|e] u1]; cbn -[l]; [|repeat split].
  destruct (waitForLoadState drv p "domcontentloaded" u1) as [r u2]; cbn -[l].
  rewrite <- app_assoc. repeat split.
Qed.

(** X9. When the page cannot be hovered the hover step stops there;
    otherwise it waits 500 ms and returns what the wait returns. *)
Theorem hover_then_wait (w : World) (p : P) (item : string) :
  page w = Some p ->
  let l := Within (Css "#header") (ByRole Link (Some (NameText item true))) in
  let hovered := hover drv p l (univ w) in
  let run := hover_navigation_item drv item w in
  match hovered.1 with
  | Throw e =>
      run.1 = Throw e /\ univ run.2 = hovered.2
      /\ trace run.2 = trace w ++ [ev (CHover l) false]
  | Ok _ =>
      let waited := waitForTimeout drv p 500 hovered.2 in
      run.1 = waited.1 /\ univ run.2 = waited.2
      /\ trace run.2
         = trace w ++ [ev (CHover l) true; ev (CWaitForTimeout 500) (is_ok waited.1)]
  end.
Proof.
  intros Hp l hovered run.
  destruct w as [u b pg c a t]. cbn [page] in Hp. subst pg. subst run hovered.
  unfold hover_navigation_item. change (header_link (Some item)) with l.
  unfold_calls. unfold_monad. cbn -[l].
  destruct (hover drv p l u) as [[[]|e] u1]; cbn -[l]; [|repeat split].
  destruct (waitForTimeout drv p 500 u1) as [r u2]; cbn -[l].
  rewrite <- app_assoc. repeat split.
Qed.

(** X10. A table with no rows below its header, or no header at all,
    makes the three table steps return at once: no call is made and
    nothing changes, even in a world without a page. *)
Theorem table_without_rows_passes (w : World) (keys : list string) :
  navigation_items_should_be_visible drv [keys] w = (Ok tt, w)
  /\ services_should_be_visible drv [keys] w = (Ok tt, w)
  /\ impacts_should_be_visible drv [keys] w = (Ok tt, w)
  /\ navigation_items_should_be_visible drv [] w = (Ok tt, w)
  /\ services_should_be_visible drv [] w = (Ok tt, w)
  /\ impacts_should_be_visible drv [] w = (Ok tt, w).
Proof. repeat split. Qed.

Lemma row_object_other (k k' v : string) :
  k <> k' -> row_object [k] [v] !! k' = None.
Proof.
  intros Hne. unfold row_object. cbn [zip zip_with fold_left fst snd].
  rewrite lookup_insert_ne by exact Hne. apply lookup_empty.
Qed.

(** X11. A navigation table without the column 'URL' can never pass:
    the step throws at its first row, whatever the page shows. A table
    without the column 'Navigation Item' makes the step look for any
    link of the header. *)
Theorem navigation_table_missing_column (w : World) (p : P) (cell : string)
    (cells : list string) :
  page w = Some p ->
  (exists e,
     (navigation_items_should_be_visible drv
        (Feature.column_table "Navigation Item" (cell :: cells)) w).1 = Throw e)
  /\ (exists r evs,
        trace (navigation_items_should_be_visible drv
                 (Feature.column_table "URL" (cell :: cells)) w).2
        = trace w ++ ev (CToBeVisible (Within (Css "#header") (ByRole Link None))) r :: evs).
Proof.
  intros Hp. destruct w as [u b pg c a t]. cbn [page] in Hp. subst pg.
  unfold navigation_items_should_be_visible. rewrite !hashes_column_table.
  cbn [map for_of]. split.
  - set (rest := for_of _ (check_navigation_row drv)).
    unfold bind at 1. unfold check_navigation_row.
    rewrite row_object_single.
    rewrite (row_object_other "Navigation Item" "URL") by discriminate.
    unfold_calls. unfold_monad. cbn -[rest].
    destruct (toBeVisible drv p _ u) as [[]|e]; cbn -[rest]; [|eauto].
    destruct (getAttribute drv p _ "href" u) as [[h|]|e]; cbn -[rest]; eauto.
  - set (rest := for_of _ (check_navigation_row drv)).
    unfold bind at 1. unfold check_navigation_row.
    rewrite row_object_single.
    rewrite (row_object_other "URL" "Navigation Item") by discriminate.
    cbn [header_link option_map]. change (Css "#header") with header.
    unfold_calls. unfold_monad. cbn -[rest header].
    destruct (toBeVisible drv p _ u) as [[]|e]; cbn -[rest header];
      [|eexists; exists []; reflexivity].
    destruct (getAttribute drv p _ "href" u) as [[h|]|e]; cbn -[rest header];
      try (eexists; eexists; rewrite <- app_assoc; reflexivity).
    destruct (String.eqb h cell); cbn -[rest header];
      [|eexists; eexists; rewrite <- app_assoc; reflexivity].
    subst rest.
    match goal with
    | |- context [for_of ?rows (check_navigation_row drv) ?w1] =>
        destruct (for_of_well_behaved (check_navigation_row drv) 2 rows
                    (check_navigation_row_well_behaved drv) w1) as (evs & Ht & _)
    end.
    rewrite Ht. cbn [trace]. eexists. eexists. rewrite <- !app_assoc. reflexivity.
Qed.

End StepFacts.

Section KeyboardFacts.
Context {U B C P : Type} (drv : Driver U B C P).
Local Abbreviation World := (World U B C P).

(** X12. The keyboard step takes the links Digital Services, Workday
    and Industries of the header in that order, focusing each and then
    asserting that it has the focus; it stops at the first call that
    throws, so its calls are always a prefix of these six, and all six,
    returned, when it passes. *)
Theorem keyboard_links_in_order (w : World) :
  let l name := Within (Css "#header") (ByRole Link (Some (NameText name true))) in
  let calls :=
    [ CFocus (l "Digital Services"); CToBeFocused (l "Digital Services");
      CFocus (l "Workday"); CToBeFocused (l "Workday");
      CFocus (l "Industries"); CToBeFocused (l "Industries") ] in
  let run := links_should_be_keyboard_accessible drv w in
  exists evs,
    trace run.2 = trace w ++ evs
    /\ map call evs `prefix_of` calls
    /\ (run.1 = Ok tt -> map call evs = calls /\ Forall (fun e => returned e = true) evs).
Proof.
  intros l calls run. subst run.
  destruct w as [u b pg c a t]. destruct pg as [p|];
    unfold links_should_be_keyboard_accessible, keyboard_links, for_of;
    unfold_calls; unfold_monad; cbn -[calls].
  2:{ exists []. rewrite app_nil_r. split; [reflexivity|].
      split; [apply prefix_nil | discriminate]. }
  repeat next_answer;
    (eexists; split; [rewrite <- ?app_assoc; reflexivity|]);
    (split; [eexists; reflexivity|]);
    intros H; try discriminate H; split; [reflexivity | repeat constructor].
Qed.

End KeyboardFacts.

(** ** The name of the failure screenshot *)
Section PathFacts.

Import Digits.

Lemma string_app_assoc (s1 s2 s3 : string) :
  (s1 +:+ s2) +:+ s3 = s1 +:+ (s2 +:+ s3).
Proof.
  induction s1 as [|c s1 IH]; [reflexivity|].
  rewrite !append_cons, IH. reflexivity.
Qed.

Lemma string_of_uint_digits (d : Decimal.uint) :
  JS.all_chars is_digit (NilEmpty.string_of_uint d) = true.
Proof. induction d; cbn; auto. Qed.

Lemma number_to_string_digits (n : N) :
  JS.all_chars is_digit (JS.number_to_string n) = true.
Proof.
  unfold JS.number_to_string, NilZero.string_of_uint.
  destruct (N.to_uint n) eqn:Hn; try reflexivity; rewrite <- Hn; apply string_of_uint_digits.
Qed.

Lemma all_chars_impl (f g : ascii -> bool) (s : string) :
  (forall c, f c = true -> g c = true) ->
  JS.all_chars f s = true -> JS.all_chars g s = true.
Proof.
  intros Hfg. induction s as [|c s IH]; cbn; [reflexivity|].
  intros H. apply andb_true_iff in H as [Hc Hs]. rewrite (Hfg c Hc), IH by assumption.
  reflexivity.
Qed.

Lemma digit_not_white_space (c : ascii) :
  is_digit c = true -> negb (JS.is_white_space c) = true.
Proof.
  unfold is_digit, JS.is_white_space. generalize (N_of_ascii c). intros n H.
  apply andb_true_iff in H as [H1 H2]. apply N.leb_le in H1. apply N.leb_le in H2.
  apply negb_true_iff. apply orb_false_iff. split; [apply orb_false_iff; split|].
  - apply andb_false_iff. right. apply N.leb_gt. lia.
  - apply N.eqb_neq. lia.
  - apply N.eqb_neq. lia.
Qed.

(** X13. Whatever the title of the scenario and the time, the path of
    the failure screenshot has no white space in it, lies in
    ./screenshots/ and ends in .png; a title without white space is
    kept as it is, followed by an underscore and the time in decimal. *)
Theorem screenshot_path_shape (title : string) (now : N) :
  let path := Hooks.screenshot_path title now in
  JS.no_white_space path = true
  /\ String.prefix "./screenshots/" path = true
  /\ (exists stem, path = stem +:+ ".png")
  /\ JS.all_chars is_digit (JS.number_to_string now) = true
  /\ (JS.no_white_space title = true ->
      path = "./screenshots/" +:+ title +:+ "_" +:+ JS.number_to_string now +:+ ".png").
Proof.
  intros path. subst path. unfold Hooks.screenshot_path. repeat split.
  - unfold JS.no_white_space. rewrite !all_chars_app.
    pose proof (replace_ws_from_clean "_" eq_refl title false) as Ht.
    unfold JS.no_white_space in Ht. unfold JS.replace_ws_runs. rewrite Ht.
    rewrite (all_chars_impl is_digit _ _ digit_not_white_space
               (number_to_string_digits now)).
    reflexivity.
  - apply string_prefix_app. eexists. reflexivity.
  - exists ("./screenshots/" +:+ JS.replace_ws_runs "_" title +:+ "_"
            +:+ JS.number_to_string now).
    rewrite !string_app_assoc. reflexivity.
  - apply number_to_string_digits.
  - intros Ht. unfold JS.replace_ws_runs. rewrite (replace_ws_from_id "_" title Ht).
    reflexivity.
Qed.

Lemma replace_ws_from_length (s : string) (b : bool) :
  String.length (JS.replace_ws_from b "_" s) <= String.length s.
Proof.
  revert b. induction s as [|c s IH]; intros b; cbn; [lia|].
  destruct (JS.is_white_space c).
  - destruct b.
    + specialize (IH true). lia.
    + rewrite append_cons, append_nil. cbn. specialize (IH true). lia.
  - cbn. specialize (IH false). lia.
Qed.

(** X14. Replacing the white space of a title a second time changes
    nothing; the result is never longer than the title; and a title
    without white space comes back unchanged. White space at either end
    is replaced like any other, not trimmed. *)
Theorem title_white_space_replaced (s : string) :
  JS.replace_ws_runs "_" (JS.replace_ws_runs "_" s) = JS.replace_ws_runs "_" s
  /\ String.length (JS.replace_ws_runs "_" s) <= String.length s
  /\ (JS.no_white_space s = true -> JS.replace_ws_runs "_" s = s)
  /\ JS.replace_ws_runs "_" (" " +:+ s +:+ " ")
     = "_" +:+ JS.replace_ws_from true "_" (s +:+ " ").
Proof.
  repeat split.
  - unfold JS.replace_ws_runs at 1. apply replace_ws_from_id.
    apply replace_ws_from_clean. reflexivity.
  - apply replace_ws_from_length.
  - intros H. apply replace_ws_from_id. exact H.
Qed.

Lemma replace_ws_from_run (ws rest : string) (b : bool) :
  ws <> EmptyString ->
  JS.all_chars JS.is_white_space ws = true ->
  JS.replace_ws_from b "_" (ws +:+ rest)
  = (if b then EmptyString else "_") +:+ JS.replace_ws_from true "_" rest.
Proof.
  revert b. induction ws as [|c ws IH]; intros b Hne Hws; [congruence|].
  cbn in Hws. apply andb_true_iff in Hws as [Hc Hws].
  rewrite append_cons. cbn [JS.replace_ws_from]. rewrite Hc.
  destruct ws as [|c' ws'].
  - rewrite append_nil. destruct b; reflexivity.
  - rewrite (IH true) by (congruence || assumption). destruct b; reflexivity.
Qed.

Lemma replace_ws_from_collide (before ws1 ws2 after : string) (b : bool) :
  ws1 <> EmptyString -> ws2 <> EmptyString ->
  JS.all_chars JS.is_white_space ws1 = true ->
  JS.all_chars JS.is_white_space ws2 = true ->
  JS.replace_ws_from b "_" (before +:+ ws1 +:+ after)
  = JS.replace_ws_from b "_" (before +:+ ws2 +:+ after).
Proof.
  intros Hn1 Hn2 Hw1 Hw2. revert b.
  induction before as [|c s IH]; intros b.
  - rewrite !append_nil, !replace_ws_from_run by assumption. reflexivity.
  - rewrite !append_cons. cbn [JS.replace_ws_from].
    destruct (JS.is_white_space c); [destruct b|]; rewrite ?IH; reflexivity.
Qed.

(** X15. The length of a run of white space is lost: two titles that
    differ only in how much white space stands at one place give the
    same file name. *)
Theorem titles_collide_on_white_space (before ws1 ws2 after : string) (now : N) :
  ws1 <> EmptyString -> ws2 <> EmptyString ->
  JS.all_chars JS.is_white_space ws1 = true ->
  JS.all_chars JS.is_white_space ws2 = true ->
  Hooks.screenshot_path (before +:+ ws1 +:+ after) now
  = Hooks.screenshot_path (before +:+ ws2 +:+ after) now.
Proof.
  intros Hn1 Hn2 Hw1 Hw2. unfold Hooks.screenshot_path, JS.replace_ws_runs.
  rewrite (replace_ws_from_collide before ws1 ws2 after false) by assumption.
  reflexivity.
Qed.

End PathFacts.

(** ** The tests of [tests/header.spec.ts] *)
Section SpecFacts.
Context {U B C P : Type} (drv : Driver U B C P).
Local Abbreviation World := (World U B C P).
Import HeaderSpec.

(** A loop of checks that leave the page alone passes exactly when
    every check holds of the page as it was. *)
Lemma for_of_checks {A} (body : A -> M U B C P unit) (holds : A -> U -> Prop)
    (xs : list A) (w : World) :
  (forall x w0, univ (body x w0).2 = univ w0) ->
  (forall x w0, (body x w0).1 = Ok tt <-> holds x (univ w0)) ->
  ((for_of xs body w).1 = Ok tt <-> Forall (fun x => holds x (univ w)) xs)
  /\ univ (for_of xs body w).2 = univ w.
Proof.
  intros Hu Hb. revert w. induction xs as [|x xs IH]; intros w.
  - cbn. split; [split; [constructor | reflexivity] | reflexivity].
  - cbn [for_of]. unfold bind. specialize (Hu x w). specialize (Hb x w).
    destruct (body x w) as [[[]|e] w1]; cbn [fst snd] in *.
    + destruct (IH w1) as [IH1 IH2]. rewrite Hu in IH1, IH2. split; [|exact IH2].
      rewrite IH1. split.
      * intros H. constructor; [apply Hb; reflexivity | exact H].
      * intros H. inversion H. assumption.
    + split; [|exact Hu]. split; [discriminate|].
      intros H. inversion H as [|? ? Hx _]. apply Hb in Hx. discriminate.
Qed.

(** X16. [beforeEach] loads the home page and then asks whether the
    cookie button is visible, without a guard: an error of the load or
    of that question is thrown on. The button is clicked exactly when
    the answer is true, and nothing waits after the click. *)
Theorem before_each_outcome (p : P) (w : World) :
  let went := goto drv p "https://www.kainos.com" (univ w) in
  let button := ByRole Button (Some (NameText "I Accept Cookies" false)) in
  let run := beforeEach drv p w in
  match went.1 with
  | Throw e =>
      run.1 = Throw e
      /\ trace run.2 = trace w ++ [ev (CGoto "https://www.kainos.com") false]
  | Ok _ =>
      match isVisible drv p button went.2 with
      | Throw e =>
          run.1 = Throw e
          /\ trace run.2
             = trace w ++ [ev (CGoto "https://www.kainos.com") true;
                           ev (CIsVisible button) false]
      | Ok false =>
          run.1 = Ok tt /\ univ run.2 = went.2
          /\ trace run.2
             = trace w ++ [ev (CGoto "https://www.kainos.com") true;
                           ev (CIsVisible button) true]
      | Ok true =>
          let clicked := click drv p button went.2 in
          run.1 = clicked.1 /\ univ run.2 = clicked.2
          /\ trace run.2
             = trace w ++ [ev (CGoto "https://www.kainos.com") true;
                           ev (CIsVisible button) true;
                           ev (CClick button) (is_ok clicked.1)]
      end
  end.
Proof.
  intros went button run. subst run went. destruct w as [u b pg c a t].
  unfold beforeEach. change cookies_button with button. change home with "https://www.kainos.com".
  unfold_calls. unfold_monad. cbn -[button].
  destruct (goto drv p "https://www.kainos.com" u) as [[[]|e] u1]; cbn -[button];
    [|repeat split].
  destruct (isVisible drv p button u1) as [[|]|e]; cbn -[button];
    rewrite <- ?app_assoc; try (repeat split; fail).
  destruct (click drv p button u1) as [r u2]; cbn -[button].
  rewrite <- ?app_assoc. repeat split.
Qed.

Lemma check_item_run (p : P) (item : string * string) (w : World) :
  univ (check_item drv p item w).2 = univ w
  /\ ((check_item drv p item w).1 = Ok tt <->
      toBeVisible drv p (link item.1) (univ w) = Ok tt
      /\ toHaveAttribute drv p (link item.1) "href" item.2 (univ w) = Ok tt).
Proof.
  destruct w as [u b pg c a t]. unfold check_item. unfold_calls. unfold_monad. cbn.
  destruct (toBeVisible drv p (link item.1) u) as [[]|e]; cbn.
  - destruct (toHaveAttribute drv p (link item.1) "href" item.2 u) as [[]|e]; cbn.
    + split; [reflexivity|]. split; auto.
    + split; [reflexivity|]. split; [discriminate | intros [_ H]; discriminate].
  - split; [reflexivity|]. split; [discriminate | intros [H _]; discriminate].
Qed.

(** X17. The navigation test passes exactly when, for each of its five
    pairs, a link whose name contains the text (anywhere on the page,
    not only in the header) is visible and has the address as its
    [href]; it leaves the page as it was. *)
Theorem navigation_test_checks_every_item (p : P) (w : World) :
  let run := navigation_test drv p w in
  (run.1 = Ok tt <->
     Forall (fun item : string * string =>
               toBeVisible drv p (ByRole Link (Some (NameText item.1 false))) (univ w)
               = Ok tt
               /\ toHaveAttribute drv p (ByRole Link (Some (NameText item.1 false)))
                    "href" item.2 (univ w) = Ok tt)
            [ ("Digital Services", "/digital-services"); ("Workday", "/workday");
              ("Industries", "/industries"); ("Insights", "/insights");
              ("Careers", "https://careers.kainos.com/gb/en") ])
  /\ univ run.2 = univ w.
Proof.
  intros run. subst run. unfold navigation_test.
  apply (for_of_checks (check_item drv p)
           (fun item u => toBeVisible drv p (link item.1) u = Ok tt
                          /\ toHaveAttribute drv p (link item.1) "href" item.2 u = Ok tt)
           navItems w).
  - intros x w0. apply check_item_run.
  - intros x w0. apply check_item_run.
Qed.

(** X18. The logo test passes exactly when the image under
    [.header__logo] is visible, its [src] contains the path of the logo
    and the element [.header__logo] itself has the [href] "/". *)
Theorem logo_test_asserts (p : P) (w : World) :
  (logo_test drv p w).1 = Ok tt
  <->
  toBeVisible drv p (Css ".header__logo img") (univ w) = Ok tt
  /\ (exists src pre post,
        getAttribute drv p (Css ".header__logo img") "src" (univ w) = Ok (Some src)
        /\ src = pre +:+ "/globalassets/images/5_logos/kainos_logo.png" +:+ post)
  /\ toHaveAttribute drv p (Css ".header__logo") "href" "/" (univ w) = Ok tt.
Proof.
  destruct w as [u b pg c a t].
  change (Css ".header__logo img") with logo. change (Css ".header__logo") with logo_link.
  change "/globalassets/images/5_logos/kainos_logo.png" with logo_path.
  unfold logo_test. unfold_calls. unfold_monad. cbn.
  repeat next_answer;
    try match goal with
        | |- context [toHaveAttribute ?d ?q ?l ?k ?v ?u0] =>
            destruct (toHaveAttribute d q l k v u0) as [[]|?] eqn:?
        end;
    repeat match goal with x : unit |- _ => destruct x end;
    (split;
     [ intros H; try discriminate H
     | intros (H1 & (src & pre & post & H2 & H3) & H4); try congruence ]).
  all: try (repeat split; try reflexivity;
            match goal with
            | H : JS.includes _ _ = true |- _ =>
                apply includes_app in H as (pre & post & ->)
            end; eauto; fail).
  all: exfalso; injection H2 as ->;
    assert (JS.includes logo_path src = true) by (apply includes_app; eauto);
    congruence.
Qed.

(** X19. The dropdown test hovers the link named "Digital Services" and,
    without waiting, passes exactly when the hover returns and every one
    of its six services and four impacts names a visible link in the page
    as the hover left it. *)
Theorem dropdown_test_checks_every_label (p : P) (w : World) :
  let hovered := hover drv p (ByRole Link (Some (NameText "Digital Services" false))) (univ w) in
  length services = 6 /\ length impacts = 4
  /\ ((dropdown_test drv p w).1 = Ok tt <->
      hovered.1 = Ok tt
      /\ Forall (fun label =>
                   toBeVisible drv p (ByRole Link (Some (NameText label false))) hovered.2
                   = Ok tt)
                (services ++ impacts)).
Proof.
  intros hovered. split; [reflexivity|]. split; [reflexivity|].
  assert (Hbody : forall label (w0 : World),
             univ (expect_toBeVisible drv p (link label) w0).2 = univ w0
             /\ ((expect_toBeVisible drv p (link label) w0).1 = Ok tt
                 <-> toBeVisible drv p (link label) (univ w0) = Ok tt)).
  { intros label [u0 b0 pg0 c0 a0 t0]. unfold_calls. unfold_monad. cbn.
    split; [reflexivity|]. destruct (toBeVisible drv p (link label) u0) as [[]|e]; cbn;
      split; congruence. }
  unfold dropdown_test. unfold bind at 1.
  destruct w as [u b pg c a t]. subst hovered. cbn [univ].
  unfold locator_hover at 1. unfold action at 1. cbn [univ].
  change (link "Digital Services") with (ByRole Link (Some (NameText "Digital Services" false))).
  destruct (hover drv p _ u) as [[[]|e] u1]; cbn [fst snd];
    [|split; [discriminate | intros [H _]; discriminate]].
  set (w1 := record_call _ _ _).
  assert (Hu1 : univ w1 = u1) by reflexivity. clearbody w1.
  unfold bind at 1.
  destruct (for_of_checks (fun service => expect_toBeVisible drv p (link service))
              (fun label u0 => toBeVisible drv p (link label) u0 = Ok tt) services w1
              (fun x w0 => proj1 (Hbody x w0)) (fun x w0 => proj2 (Hbody x w0)))
    as [Hs1 Hs2].
  destruct (for_of services _ w1) as [[[]|e] w2]; cbn [fst snd] in *.
  - destruct (for_of_checks (fun impact => expect_toBeVisible drv p (link impact))
                (fun label u0 => toBeVisible drv p (link label) u0 = Ok tt) impacts w2
                (fun x w0 => proj1 (Hbody x w0)) (fun x w0 => proj2 (Hbody x w0)))
      as [Hi1 _].
    rewrite Hi1, Hs2, Hu1. rewrite Hu1 in Hs1. split.
    + intros H. split; [reflexivity|]. apply Forall_app. split; [apply Hs1; reflexivity | exact H].
    + intros [_ H]. apply Forall_app in H as [_ H]. exact H.
  - rewrite Hu1 in Hs1. split; [discriminate|]. intros [_ H].
    apply Forall_app in H as [H _]. apply Hs1 in H. discriminate.
Qed.

End SpecFacts.

(** ** The further properties on concrete pages *)
Section FurtherOnThePage.
Import Sim Pages.

(** Before on the reference browser, once launched, opens page 2. *)
Lemma before_acquires_context_then_page_witness :
  browser (Hooks.BeforeAll good None (start 1000)).2 = Some 0
  /\ page (Hooks.Before good (Hooks.BeforeAll good None (start 1000)).2).2 = Some 2.
Proof.
  split; [reflexivity|].
  exact (proj1 (proj2 (proj2 (before_acquires_context_then_page good
                                (Hooks.BeforeAll good None (start 1000)).2 0 eq_refl)))).
Defined.

(** After a failed scenario that never got its page. *)
Lemma after_without_page_witness :
  page (start 1000) = None
  /\ Hooks.After good (ended "Verify logo" FAILED) (start 1000)
     = (Throw TypeError, start 1000).
Proof.
  split; [reflexivity|].
  exact (proj1 (after_without_page good (start 1000) (ended "Verify logo" FAILED) eq_refl)
           eq_refl).
Defined.

(** Before when nothing was launched. *)
Lemma hooks_without_browser_witness :
  browser (start 1000) = None
  /\ Hooks.Before good (start 1000) = (Throw TypeError, start 1000).
Proof.
  split; [reflexivity|].
  exact (proj1 (hooks_without_browser good (start 1000) eq_refl)).
Defined.

(** A scenario that passes on the reference page attaches nothing. *)
Lemma scenario_attaches_at_most_one_witness :
  Runner.attached
    (Runner.run_scenario good Feature.logo_scenario
       (Hooks.BeforeAll good None (start 1000)).2).1 = [].
Proof.
  apply (proj2 (proj2 (scenario_attaches_at_most_one good Feature.logo_scenario
                         (Hooks.BeforeAll good None (start 1000)).2))).
  reflexivity.
Defined.

(** The new page stands at about:blank. *)
Lemma navigated_to_checks_substring_witness :
  page opened = Some 2
  /\ (should_be_navigated_to good "blank" opened).1 = Ok tt.
Proof.
  split; [reflexivity|].
  apply (proj2 (proj1 (navigated_to_checks_substring good opened 2 "blank" eq_refl))).
  exists "about:", EmptyString. reflexivity.
Defined.

Lemma title_checks_substring_witness :
  page opened = Some 2
  /\ (title_should_contain good "Digital Services" opened).1 = Ok tt.
Proof.
  split; [reflexivity|].
  apply (proj2 (proj1 (title_checks_substring good opened 2 "Digital Services" eq_refl))).
  exists "Digital Services | Kainos", EmptyString, " | Kainos". split; reflexivity.
Defined.

Lemma click_then_wait_for_load_witness :
  page opened = Some 2
  /\ (click_navigation_item good "Workday" opened).1 = Ok tt.
Proof.
  split; [reflexivity|].
  exact (proj1 (proj2 (click_then_wait_for_load good opened 2 "Workday" eq_refl))).
Defined.

Lemma hover_then_wait_witness :
  page opened = Some 2
  /\ (hover_navigation_item good "Digital Services" opened).1 = Ok tt.
Proof.
  split; [reflexivity|].
  exact (proj1 (hover_then_wait good opened 2 "Digital Services" eq_refl)).
Defined.

(** Even on the reference page a table without URLs fails. *)
Lemma navigation_table_missing_column_witness :
  page opened = Some 2
  /\ exists e,
       (navigation_items_should_be_visible good
          (Feature.column_table "Navigation Item" ["Workday"]) opened).1 = Throw e.
Proof.
  split; [reflexivity|].
  exact (proj1 (navigation_table_missing_column good opened 2 "Workday" [] eq_refl)).
Defined.

Lemma screenshot_path_shape_witness :
  Hooks.screenshot_path "Logo" 7 = "./screenshots/Logo_7.png".
Proof.
  exact (proj2 (proj2 (proj2 (proj2 (screenshot_path_shape "Logo" 7)))) eq_refl).
Defined.

Lemma title_white_space_replaced_witness :
  JS.replace_ws_runs "_" "Logo" = "Logo".
Proof.
  exact (proj1 (proj2 (proj2 (title_white_space_replaced "Logo"))) eq_refl).
Defined.

(** One space or two between the words: the same file. *)
Lemma titles_collide_on_white_space_witness :
  Hooks.screenshot_path "Verify logo" 5 = Hooks.screenshot_path "Verify  logo" 5.
Proof.
  apply (titles_collide_on_white_space "Verify" " " "  " "logo" 5);
    [discriminate | discriminate | reflexivity | reflexivity].
Defined.

End FurtherOnThePage.
